(** * Qubic DEXTools adapter: position resolution and range extraction

    A shallow embedding of the tick/epoch engine of the adapter
    ([QubicRpcClient], [BlockController], [EventsController] and
    [DataTransformer]) together with the properties its specification
    states about it.

    Modelling conventions.
    - The upstream RPC service is a [World]: one response per request.  A
      request either yields a payload or fails with an HTTP status
      ([Resp]).  The world is fixed for the duration of one adapter
      operation; two successive operations may see two different worlds.
    - [Date.now()] is the argument [now] of every operation; it is read as
      constant during one operation and may differ between operations.
    - The process-wide cache object is the record [Cache]; every operation
      takes the cache and returns the updated one.
    - JSON numbers are integers ([Z]); an object property that may be
      missing is an [option], [None] standing for [undefined].
    - [Array.prototype.sort] is the stable sort [jsSort].
    - [Math.random()] is not modelled: the id the transformer makes up for
      a transaction that carries none is the token [RandomId].
    - A failed request is the only exception of the model: a [catch] block
      that only a malformed body could reach is left out, and a method
      whose [catch] returns a value never throws.
    - A loop with a constant bound is a structural recursion on the number
      of iterations that are left; the unbounded paging loop of
      [getAllTicksFromEpoch] takes a number of requests it may spend and
      answers [None] when they do not suffice. *)

From Stdlib Require Import ZArith List Bool Lia String.
From Stdlib Require Import Sorting.Sorted Sorting.Permutation.
From stdpp Require Import base option gmap.
Import ListNotations.

Local Open Scope Z_scope.

(** ** JavaScript helpers *)

(** Truthiness of a possibly missing number. *)
Definition truthy (o : option Z) : bool :=
  match o with
  | Some z => negb (z =? 0)
  | None => false
  end.

(** [a || b] on possibly missing numbers. *)
Definition jsOr (a b : option Z) : option Z :=
  if truthy a then a else b.

(** [a || d] where [d] is a number: the result is a number. *)
Definition jsOrZ (a : option Z) (d : Z) : Z :=
  match a with
  | Some z => if z =? 0 then d else z
  | None => d
  end.

(** [z || d] on numbers. *)
Definition zOr (z d : Z) : Z := if z =? 0 then d else z.

(** [a === n] for a possibly missing [a] and a number [n]. *)
Definition strictEqZ (a : option Z) (n : Z) : bool :=
  match a with
  | Some z => z =? n
  | None => false
  end.

(** [a <= n] and [a >= n]; a comparison with [undefined] is [false]. *)
Definition leNum (a : option Z) (n : Z) : bool :=
  match a with
  | Some z => z <=? n
  | None => false
  end.

Definition geNum (a : option Z) (n : Z) : bool :=
  match a with
  | Some z => n <=? z
  | None => false
  end.

(** [a - b]; [None] is [NaN]. *)
Definition numSub (a b : option Z) : option Z :=
  match a, b with
  | Some x, Some y => Some (x - y)
  | _, _ => None
  end.

(** A comparator result as [Array.prototype.sort] reads it: [NaN] counts
    as [0]. *)
Definition cmpResult (r : option Z) : Z :=
  match r with
  | Some z => z
  | None => 0
  end.

(** [Math.min(...xs)] and [Math.max(...xs)] on a non-empty list of
    possibly missing numbers; a missing entry makes the result [NaN]. *)
Definition numMin (a b : option Z) : option Z :=
  match a, b with
  | Some x, Some y => Some (Z.min x y)
  | _, _ => None
  end.

Definition numMax (a b : option Z) : option Z :=
  match a, b with
  | Some x, Some y => Some (Z.max x y)
  | _, _ => None
  end.

Definition mathMin (xs : list (option Z)) : option Z :=
  match xs with
  | [] => None
  | x :: rest => fold_left numMin rest x
  end.

Definition mathMax (xs : list (option Z)) : option Z :=
  match xs with
  | [] => None
  | x :: rest => fold_left numMax rest x
  end.

(** [Array.prototype.sort(cmp)]: a stable sort.  [x] is placed before the
    first [y] of the sorted rest for which [cmp x y <= 0].  For a comparator
    that orders its arguments consistently - every comparator of the
    engine on records that carry their number - this is the one result a
    stable sort has.  Where a comparator answers [NaN] (a tick without a
    number) the language leaves the order to the engine; [jsSort] then
    gives one of the orders the language allows, not necessarily the
    engine's. *)
Section JsSort.
Context {A : Type} (cmp : A -> A -> Z).

Fixpoint jsInsert (x : A) (l : list A) : list A :=
  match l with
  | [] => [x]
  | y :: rest => if cmp x y <=? 0 then x :: y :: rest else y :: jsInsert x rest
  end.

Fixpoint jsSort (l : list A) : list A :=
  match l with
  | [] => []
  | x :: rest => jsInsert x (jsSort rest)
  end.
End JsSort.

(** ** Data model *)

(** A tick as the upstream lists it.  Both [tickNumber] and [number] occur
    in upstream payloads. *)
Record RawTick := mkRawTick {
  raw_tickNumber : option Z;
  raw_number : option Z;
  raw_timestamp : option Z;
  raw_epoch : option Z
}.

(** A tick record as the client hands it out: a normalised upstream tick
    or a record the client builds itself. *)
Record Tick := mkTick {
  tickNumber : option Z;
  timestamp : Z;
  epoch : option Z;
  number : option Z;
  error : option string
}.

(** A transaction as the upstream lists it (the sender, pair, amount and
    reserve fields, which play no part in what is proved here, are left
    out). *)
Record RawTxn := mkRawTxn {
  txn_type : option string;
  txn_id : option string;
  txn_txId : option string;
  txn_index : option Z;
  txn_eventIndex : option Z
}.

Inductive EventType := creation | swap | join | exit.

(** The [txnId] of an event: the id the transaction carries, or the string
    [0x] followed by digits of [Math.random()], which the model leaves
    open: [RandomId] stands for any such string, and two events that bear
    it need not bear the same string. *)
Inductive TxnId :=
  | GivenId (s : string)
  | RandomId.

Record Block := mkBlock {
  blockNumber : Z;
  blockTimestamp : Z
}.

Record Event := mkEvent {
  block : Block;
  txnId : TxnId;
  txnIndex : Z;
  eventIndex : Z;
  eventType : EventType
}.

(** ** Upstream access layer *)

(** The outcome of [handleRequest]: the response body, or a thrown error
    with the HTTP status of [error.response.status]. *)
Inductive Resp (A : Type) :=
  | Ok (a : A)
  | Failed (status : Z).
Arguments Ok {A} a.
Arguments Failed {A} status.

Record World := mkWorld {
  (** [GET /v1/latestTick]: the [latestTick] field of the body. *)
  latestTickResp : Resp (option Z);
  (** [GET /v1/status]: the [lastProcessedTick.epoch] field of the body. *)
  statusResp : Resp (option Z);
  (** [GET /v2/epochs/<epoch>/ticks?page&pageSize]: the [ticks] array of the
      body, [None] when the body has none. *)
  epochTicksResp : Z -> Z -> Z -> Resp (option (list RawTick));
  (** [GET /v2/ticks/<n>/transactions]: the [transactions] array. *)
  tickTransactionsResp : option Z -> Resp (option (list RawTxn));
  (** [GET /v2/ticks/<n>/transactions?page=0&pageSize=1] succeeds. *)
  tickTransactionsProbe : option Z -> bool
}.

(** ** Cache store *)

Record Cache := mkCache {
  epochData : gmap Z (list Tick);
  ticks : gmap (option Z) Tick;
  status : option Z;
  statusTimestamp : Z;
  epochRanges : gmap Z (option Z * option Z);
  transactions : gmap (option Z) (list RawTxn)
}.

Definition emptyCache : Cache :=
  mkCache ∅ ∅ None 0 ∅ ∅.

Definition setTick (k : option Z) (t : Tick) (c : Cache) : Cache :=
  mkCache (epochData c) (<[k := t]> (ticks c)) (status c) (statusTimestamp c)
          (epochRanges c) (transactions c).

Definition setStatus (e : Z) (now : Z) (c : Cache) : Cache :=
  mkCache (epochData c) (ticks c) (Some e) now (epochRanges c) (transactions c).

Definition setEpochData (e : Z) (l : list Tick) (c : Cache) : Cache :=
  mkCache (<[e := l]> (epochData c)) (ticks c) (status c) (statusTimestamp c)
          (epochRanges c) (transactions c).

Definition setEpochRange (e : Z) (r : option Z * option Z) (c : Cache) : Cache :=
  mkCache (epochData c) (ticks c) (status c) (statusTimestamp c)
          (<[e := r]> (epochRanges c)) (transactions c).

Definition setTransactions (k : option Z) (l : list RawTxn) (c : Cache) : Cache :=
  mkCache (epochData c) (ticks c) (status c) (statusTimestamp c)
          (epochRanges c) (<[k := l]> (transactions c)).

Definition LATEST_BLOCK_SAFETY_BUFFER : Z := 10.
Definition DEFAULT_PAGE_SIZE : Z := 500.

(** ** QubicRpcClient *)

(** [tick.tickNumber || tick.number] of an upstream tick. *)
Definition rawKey (t : RawTick) : option Z :=
  jsOr (raw_tickNumber t) (raw_number t).

(** A field of an object literal followed by [...tickData]: an own property
    of [tickData] replaces the value written by the literal. *)
Definition spreadOver (own literal : option Z) : option Z :=
  match own with
  | Some v => Some v
  | None => literal
  end.

(** The same for a field whose literal value is always a number. *)
Definition spreadOverZ (own : option Z) (literal : Z) : Z :=
  match own with
  | Some v => v
  | None => literal
  end.

(** [normalizeTickData] on an upstream tick object:
    [{ tickNumber: t.tickNumber || t.number, timestamp: t.timestamp || now,
       epoch: t.epoch, ...t }]. *)
Definition normalizeTick (now : Z) (t : RawTick) : Tick :=
  {| tickNumber := spreadOver (raw_tickNumber t) (jsOr (raw_tickNumber t) (raw_number t));
     timestamp := spreadOverZ (raw_timestamp t) (jsOrZ (raw_timestamp t) now);
     epoch := raw_epoch t;
     number := raw_number t;
     error := None |}.

(** [normalizeTickData]: [null] for a missing argument. *)
Definition normalizeTickData (now : Z) (tickData : option RawTick) : option Tick :=
  match tickData with
  | None => None
  | Some t => Some (normalizeTick now t)
  end.

(** The uncached branch of [getCurrentEpoch]: ask [/v1/status]; epoch 152
    when the answer is unusable. *)
Definition fetchCurrentEpoch (w : World) (now : Z) (c : Cache) : Z * Cache :=
  match statusResp w with
  | Ok (Some e) => if e =? 0 then (152, c) else (e, setStatus e now c)
  | _ => (152, c)
  end.

(** [getCurrentEpoch]: the status snapshot is reused for 30 seconds. *)
Definition getCurrentEpoch (w : World) (now : Z) (c : Cache) : Z * Cache :=
  match status c with
  | Some e =>
      if now - statusTimestamp c <? 30000 then (zOr e 0, c)
      else fetchCurrentEpoch w now c
  | None => fetchCurrentEpoch w now c
  end.

(** Comparators of the client's [sort] calls. *)
Definition byTickNumberDesc (a b : Tick) : Z :=
  cmpResult (numSub (tickNumber b) (tickNumber a)).

Definition byTickNumberAsc (a b : Tick) : Z :=
  cmpResult (numSub (tickNumber a) (tickNumber b)).

Definition byRawKeyDesc (a b : RawTick) : Z :=
  cmpResult (numSub (rawKey b) (rawKey a)).


(** The body of [for (const tick of tickList)] that normalises a tick,
    stores it under [tick.tickNumber || tick.number] and appends it. *)
Fixpoint cacheAndPush (now : Z) (page : list RawTick) (acc : list Tick) (c : Cache)
  : list Tick * Cache :=
  match page with
  | [] => (acc, c)
  | t :: rest =>
      let n := normalizeTick now t in
      cacheAndPush now rest (acc ++ [n]) (setTick (rawKey t) n c)
  end.

(** [allTicks.length < maxTicks], [None] being [Infinity]. *)
Definition belowMax (len : nat) (maxTicks : option Z) : bool :=
  match maxTicks with
  | None => true
  | Some m => Z.of_nat len <? m
  end.

(** The [while (hasMoreData && allTicks.length < maxTicks)] loop of
    [getAllTicksFromEpoch].  Each unfolding is one iteration; [None] means
    that [fuel] iterations did not reach the end of the loop. *)
Fixpoint epochPagesLoop (fuel : nat) (w : World) (now : Z) (ep : Z) (maxTicks : option Z)
    (page : Z) (emptyPageCount : Z) (allTicks : list Tick) (c : Cache)
  : option (list Tick * Cache) :=
  if negb (belowMax (length allTicks) maxTicks) then Some (allTicks, c)
  else
    match fuel with
    | O => None
    | S fuel' =>
        match epochTicksResp w ep page 500 with
        | Ok (Some (t :: rest)) =>
            let '(allTicks', c') := cacheAndPush now (t :: rest) allTicks c in
            if Z.of_nat (length (t :: rest)) <? 500 then Some (allTicks', c')
            else epochPagesLoop fuel' w now ep maxTicks (page + 1) 0 allTicks' c'
        | Ok _ =>
            if 3 <=? emptyPageCount + 1 then Some (allTicks, c)
            else epochPagesLoop fuel' w now ep maxTicks (page + 1) (emptyPageCount + 1) allTicks c
        | Failed st =>
            if st =? 429 then
              if 6 <=? emptyPageCount + 1 then Some (allTicks, c)
              else epochPagesLoop fuel' w now ep maxTicks page (emptyPageCount + 1) allTicks c
            else Some (allTicks, c)
        end
    end.

(** [getAllTicksFromEpoch(epoch, maxTicks)]. *)
Definition getAllTicksFromEpoch (fuel : nat) (w : World) (now : Z) (ep : Z)
    (maxTicks : option Z) (c : Cache) : option (list Tick * Cache) :=
  match epochData c !! ep with
  | Some (t :: cached) => Some (t :: cached, c)
  | _ =>
      match epochPagesLoop fuel w now ep maxTicks 0 0 [] c with
      | None => None
      | Some (allTicks, c1) =>
          let c2 :=
            match allTicks with
            | [] => c1
            | _ :: _ =>
                setEpochRange ep (mathMin (map tickNumber allTicks),
                                  mathMax (map tickNumber allTicks)) c1
            end in
          let sorted := jsSort byTickNumberDesc allTicks in
          Some (sorted, setEpochData ep sorted c2)
      end
  end.

(** *** getLatestTick *)

(** The inner [for (const tick of ticksResponse.ticks)] of the recent-pages
    loop, which stops once 200 ticks are collected. *)
Fixpoint cacheAndPushCapped (now : Z) (page : list RawTick) (acc : list Tick) (c : Cache)
  : list Tick * Cache :=
  match page with
  | [] => (acc, c)
  | t :: rest =>
      let n := normalizeTick now t in
      let acc' := acc ++ [n] in
      let c' := setTick (rawKey t) n c in
      if 200 <=? Z.of_nat (length acc') then (acc', c')
      else cacheAndPushCapped now rest acc' c'
  end.

(** [for (let page = 0; page < MAX_PAGES; page++)] with [MAX_PAGES = 2];
    [k] is the number of pages left. *)
Fixpoint recentPagesLoop (k : nat) (w : World) (now : Z) (ep : Z) (page : Z)
    (recent : list Tick) (c : Cache) : list Tick * Cache :=
  match k with
  | O => (recent, c)
  | S k' =>
      if 200 <=? Z.of_nat (length recent) then (recent, c)
      else
        match epochTicksResp w ep page 100 with
        | Ok (Some l) =>
            let '(recent', c') := cacheAndPushCapped now l recent c in
            recentPagesLoop k' w now ep (page + 1) recent' c'
        | _ => (recent, c)
        end
  end.

Definition hasTickNumber (n : Z) (t : Tick) : bool := strictEqZ (tickNumber t) n.

(** The ticks [getLatestTick] collects from the current epoch before it
    selects one: the estimated page, then pages 0 and 1 when the estimated
    page does not hold the safe tick; sorted most recent first. *)
Definition collectRecentTicks (w : World) (now : Z) (currentEpoch safeTickNumber : Z)
    (c : Cache) : list Tick * Cache :=
  let estimatedPage := safeTickNumber / 100 in
  let '(recent0, c0) :=
    match epochTicksResp w currentEpoch estimatedPage 100 with
    | Ok (Some l) => cacheAndPush now l [] c
    | _ => ([], c)
    end in
  let '(recent1, c1) :=
    match find (hasTickNumber safeTickNumber) recent0 with
    | Some _ => (recent0, c0)
    | None => recentPagesLoop 2 w now currentEpoch 0 recent0 c0
    end in
  (jsSort byTickNumberDesc recent1, c1).

(** The newest tick of page 0 of the previous epoch, if that page lists
    any. *)
Definition newestOfPreviousEpoch (w : World) (now : Z) (prevEpoch : Z) : option Tick :=
  match epochTicksResp w prevEpoch 0 100 with
  | Ok (Some (t :: rest)) => normalizeTickData now (head (jsSort byRawKeyDesc (t :: rest)))
  | _ => None
  end.

(** The selection among the collected ticks: the safe tick itself, else
    the newest older one, else the oldest collected one, else the newest
    tick of the previous epoch. *)
Definition selectSafeTick (w : World) (now : Z) (currentEpoch safeTickNumber : Z)
    (recent : list Tick) : option Tick :=
  match find (hasTickNumber safeTickNumber) recent with
  | Some t => Some t
  | None =>
      match List.filter (fun t => leNum (tickNumber t) safeTickNumber) recent with
      | older :: _ => Some older
      | [] =>
          match recent with
          | _ :: _ => last recent
          | [] => newestOfPreviousEpoch w now (currentEpoch - 1)
          end
      end
  end.

Definition getLatestTick (w : World) (now : Z) (c : Cache) : Tick * Cache :=
  match latestTickResp w with
  | Ok (Some latestTickNumber) =>
      if latestTickNumber =? 0
      then (mkTick (Some 0) now None None None, c)
      else
        let safeTickNumber := Z.max 0 (latestTickNumber - LATEST_BLOCK_SAFETY_BUFFER) in
        let '(currentEpoch, c1) := getCurrentEpoch w now c in
        let '(recent, c2) := collectRecentTicks w now currentEpoch safeTickNumber c1 in
        match selectSafeTick w now currentEpoch safeTickNumber recent with
        | Some t => (t, c2)
        | None => (mkTick (Some safeTickNumber) now (Some currentEpoch) None None, c2)
        end
  | Ok None => (mkTick (Some 0) now None None None, c)
  | Failed _ => (mkTick (Some 0) now None None (Some "request failed"%string), c)
  end.

(** *** getTickByNumber *)

Definition hasRawKey (n : Z) (t : RawTick) : bool := strictEqZ (rawKey t) n.

(** [n < m] and [n > m] against a possibly [NaN] page bound. *)
Definition ltBound (n : Z) (m : option Z) : bool :=
  match m with
  | Some z => n <? z
  | None => false
  end.

Definition gtBound (n : Z) (m : option Z) : bool :=
  match m with
  | Some z => z <? n
  | None => false
  end.

(** [ticks.find(t => (t.tickNumber || t.number) === n)] on the [ticks]
    array of a page request, normalised when found. *)
Definition findOnPage (w : World) (now : Z) (ep page : Z) (n : Z) : option Tick :=
  match epochTicksResp w ep page DEFAULT_PAGE_SIZE with
  | Ok (Some l) => normalizeTickData now (find (hasRawKey n) l)
  | _ => None
  end.

(** [for (let pageOffset = 1; pageOffset <= 5; pageOffset++)] over the
    earlier pages [Math.max(0, estimatedPage - pageOffset)]; [k] offsets
    are left. *)
Fixpoint tryEarlierPages (k : nat) (w : World) (now : Z) (ep estimatedPage : Z)
    (pageOffset : Z) (n : Z) : option Tick :=
  match k with
  | O => None
  | S k' =>
      match findOnPage w now ep (Z.max 0 (estimatedPage - pageOffset)) n with
      | Some t => Some t
      | None => tryEarlierPages k' w now ep estimatedPage (pageOffset + 1) n
      end
  end.

(** The same loop over the later pages [estimatedPage + pageOffset]. *)
Fixpoint tryLaterPages (k : nat) (w : World) (now : Z) (ep estimatedPage : Z)
    (pageOffset : Z) (n : Z) : option Tick :=
  match k with
  | O => None
  | S k' =>
      match findOnPage w now ep (estimatedPage + pageOffset) n with
      | Some t => Some t
      | None => tryLaterPages k' w now ep estimatedPage (pageOffset + 1) n
      end
  end.

(** The targeted lookup in the current epoch: the estimated page, then up
    to five earlier or later pages as the page's bounds indicate. *)
Definition findInCurrentEpoch (w : World) (now : Z) (currentEpoch estimatedPage : Z)
    (n : Z) : option Tick :=
  match epochTicksResp w currentEpoch estimatedPage DEFAULT_PAGE_SIZE with
  | Ok (Some l) =>
      match find (hasRawKey n) l with
      | Some t => Some (normalizeTick now t)
      | None =>
          match l with
          | [] => None
          | _ :: _ =>
              let minTickInPage := mathMin (map rawKey l) in
              let maxTickInPage := mathMax (map rawKey l) in
              let earlier :=
                if ltBound n minTickInPage
                then tryEarlierPages 5 w now currentEpoch estimatedPage 1 n
                else None in
              match earlier with
              | Some t => Some t
              | None =>
                  if gtBound n maxTickInPage
                  then tryLaterPages 5 w now currentEpoch estimatedPage 1 n
                  else None
              end
          end
      end
  | _ => None
  end.

(** [Math.abs(key - target)]; [None] is [NaN]. *)
Definition distanceTo (target : Z) (t : RawTick) : option Z :=
  match rawKey t with
  | Some k => Some (Z.abs (k - target))
  | None => None
  end.

(** [distance < best] where [best = None] is [Infinity] and
    [distance = None] is [NaN]. *)
Definition closerThan (distance best : option Z) : bool :=
  match distance, best with
  | Some d, Some b => d <? b
  | Some _, None => true
  | None, _ => false
  end.

(** [distance < nearestDistance] where either side may be [NaN]. *)
Definition ltNaN (distance nearest : option Z) : bool :=
  match distance, nearest with
  | Some d, Some b => d <? b
  | _, _ => false
  end.

(** The scan for the nearest tick of the page that brackets the target. *)
Fixpoint nearestInPage (target : Z) (l : list RawTick) (nearest : RawTick)
    (nearestDistance : option Z) : RawTick :=
  match l with
  | [] => nearest
  | t :: rest =>
      if ltNaN (distanceTo target t) nearestDistance
      then nearestInPage target rest t (distanceTo target t)
      else nearestInPage target rest nearest nearestDistance
  end.

(** The scan that updates the best match seen so far. *)
Fixpoint updateBestMatch (target : Z) (l : list RawTick) (best : option RawTick)
    (bestDistance : option Z) : option RawTick * option Z :=
  match l with
  | [] => (best, bestDistance)
  | t :: rest =>
      if closerThan (distanceTo target t) bestDistance
      then updateBestMatch target rest (Some t) (distanceTo target t)
      else updateBestMatch target rest best bestDistance
  end.

(** [targetTickNumber >= min && targetTickNumber <= max] on page bounds. *)
Definition withinBounds (n : Z) (lo hi : option Z) : bool :=
  match lo, hi with
  | Some a, Some b => (a <=? n) && (n <=? b)
  | _, _ => false
  end.

(** The [while (attempts < maxAttempts)] loop of
    [findNearestTickWithBinarySearch]; [k] attempts are left. *)
Fixpoint binarySearchLoop (k : nat) (w : World) (now : Z) (ep target : Z)
    (lowPage highPage : Z) (best : option RawTick) (bestDistance : option Z)
  : option Tick :=
  match k with
  | O => normalizeTickData now best
  | S k' =>
      let midPage := (lowPage + highPage) / 2 in
      match epochTicksResp w ep midPage DEFAULT_PAGE_SIZE with
      | Ok (Some (t :: rest)) =>
          let l := t :: rest in
          let minTickInPage := mathMin (map rawKey l) in
          let maxTickInPage := mathMax (map rawKey l) in
          if withinBounds target minTickInPage maxTickInPage then
            match find (hasRawKey target) l with
            | Some exact => Some (normalizeTick now exact)
            | None => Some (normalizeTick now (nearestInPage target l t (distanceTo target t)))
            end
          else
            let '(best', bestDistance') := updateBestMatch target l best bestDistance in
            let '(low', high') :=
              if ltBound target minTickInPage
              then (lowPage, midPage - 1)
              else (midPage + 1, highPage) in
            if high' <? low' then normalizeTickData now best'
            else binarySearchLoop k' w now ep target low' high' best' bestDistance'
      | Ok _ =>
          if midPage - 1 <? lowPage then normalizeTickData now best
          else binarySearchLoop k' w now ep target lowPage (midPage - 1) best bestDistance
      | Failed _ =>
          let '(low', high') :=
            if Z.odd (lowPage + highPage)
            then (midPage + 1, highPage)
            else (lowPage, midPage - 1) in
          if high' <? low' then normalizeTickData now best
          else binarySearchLoop k' w now ep target low' high' best bestDistance
      end
  end.

Definition findNearestTickWithBinarySearch (w : World) (now : Z) (ep target : Z)
  : option Tick :=
  binarySearchLoop 8 w now ep target 0 1000 None None.

(** [for (let epochOffset = 1; epochOffset <= 5; epochOffset++)] over the
    previous epochs; [k] offsets are left. *)
Fixpoint tryPreviousEpochs (k : nat) (w : World) (now : Z) (currentEpoch estimatedPage : Z)
    (epochOffset : Z) (n : Z) : option Tick :=
  match k with
  | O => None
  | S k' =>
      let prevEpoch := currentEpoch - epochOffset in
      let next := tryPreviousEpochs k' w now currentEpoch estimatedPage (epochOffset + 1) n in
      if prevEpoch <? 0 then next
      else
        match epochTicksResp w prevEpoch estimatedPage DEFAULT_PAGE_SIZE with
        | Ok (Some l) =>
            match find (hasRawKey n) l with
            | Some t => Some (normalizeTick now t)
            | None =>
                match l with
                | [] => next
                | _ :: _ =>
                    match findNearestTickWithBinarySearch w now prevEpoch n with
                    | Some nearest => Some nearest
                    | None => next
                    end
                end
            end
        | _ => next
        end
  end.

(** The upstream search of [getTickByNumber] after a cache miss: the exact
    tick, or the nearest one a previous epoch offers, or nothing. *)
Definition searchTick (w : World) (now : Z) (currentEpoch : Z) (n : Z) : option Tick :=
  let estimatedPage := n / DEFAULT_PAGE_SIZE in
  match findInCurrentEpoch w now currentEpoch estimatedPage n with
  | Some t => Some t
  | None => tryPreviousEpochs 5 w now currentEpoch estimatedPage 1 n
  end.

(** [getTickByNumber].  Every tick the search returns is stored under the
    requested number before it is returned; the placeholder is not. *)
Definition getTickByNumber (w : World) (now : Z) (n : Z) (c : Cache) : Tick * Cache :=
  match ticks c !! Some n with
  | Some t => (t, c)
  | None =>
      let '(currentEpoch, c1) := getCurrentEpoch w now c in
      match searchTick w now currentEpoch n with
      | Some t => (t, setTick (Some n) t c1)
      | None => (mkTick (Some n) now None None None, c1)
      end
  end.

(** *** getTicksInBlockRange *)

(** [tickNumber >= fromBlock && tickNumber <= toBlock] on
    [tick.tickNumber || tick.number]. *)
Definition inRange (fromBlock toBlock : Z) (t : RawTick) : bool :=
  geNum (rawKey t) fromBlock && leNum (rawKey t) toBlock.

(** [for (const tick of ticksInRange)]: stops when [actualMaxResults] ticks
    are collected; each tick is normalised, appended and stored under its
    normalised number. *)
Fixpoint pushInRange (now : Z) (actualMaxResults : Z) (l : list RawTick)
    (validTicks : list Tick) (c : Cache) : list Tick * Cache :=
  match l with
  | [] => (validTicks, c)
  | t :: rest =>
      if actualMaxResults <=? Z.of_nat (length validTicks) then (validTicks, c)
      else
        let n := normalizeTick now t in
        pushInRange now actualMaxResults rest (validTicks ++ [n]) (setTick (tickNumber n) n c)
  end.

(** One page of one epoch: fetch it, keep the ticks of the range. *)
Definition collectPage (w : World) (now : Z) (ep page : Z) (fromBlock toBlock : Z)
    (actualMaxResults : Z) (validTicks : list Tick) (c : Cache) : list Tick * Cache :=
  match epochTicksResp w ep page 500 with
  | Ok (Some l) => pushInRange now actualMaxResults (List.filter (inRange fromBlock toBlock) l) validTicks c
  | _ => (validTicks, c)
  end.

(** [for (let page = fromBlockPage; page <= toBlockPage && validTicks.length
    < actualMaxResults && page < fromBlockPage + pagesToCheck; page++)].
    The loop runs at most [pagesToCheck] times; [k] counts the iterations
    that are left, and when it reaches [0] the third condition is false. *)
Fixpoint rangePagesLoop (k : nat) (w : World) (now : Z) (ep : Z) (fromBlock toBlock : Z)
    (actualMaxResults : Z) (toBlockPage : Z) (page : Z)
    (validTicks : list Tick) (c : Cache) : list Tick * Cache :=
  match k with
  | O => (validTicks, c)
  | S k' =>
      if (page <=? toBlockPage) && (Z.of_nat (length validTicks) <? actualMaxResults)
      then
        let '(validTicks', c') :=
          collectPage w now ep page fromBlock toBlock actualMaxResults validTicks c in
        rangePagesLoop k' w now ep fromBlock toBlock actualMaxResults toBlockPage (page + 1)
                       validTicks' c'
      else (validTicks, c)
  end.

(** [for (let epochOffset = 1; epochOffset <= 5 && validTicks.length <
    actualMaxResults; epochOffset++)]; [k] offsets are left. *)
Fixpoint rangeEpochsLoop (k : nat) (w : World) (now : Z) (currentEpoch : Z)
    (fromBlock toBlock : Z) (actualMaxResults : Z) (fromBlockPage toBlockPage : Z)
    (pagesToCheck : Z) (epochOffset : Z) (validTicks : list Tick) (c : Cache)
  : list Tick * Cache :=
  match k with
  | O => (validTicks, c)
  | S k' =>
      if Z.of_nat (length validTicks) <? actualMaxResults then
        let prevEpoch := currentEpoch - epochOffset in
        let '(validTicks', c') :=
          if prevEpoch <? 0 then (validTicks, c)
          else rangePagesLoop (Z.to_nat pagesToCheck) w now prevEpoch fromBlock toBlock
                              actualMaxResults toBlockPage fromBlockPage validTicks c in
        rangeEpochsLoop k' w now currentEpoch fromBlock toBlock actualMaxResults
                        fromBlockPage toBlockPage pagesToCheck (epochOffset + 1) validTicks' c'
      else (validTicks, c)
  end.

(** [Math.min(maxResults, rangeSize)], [None] being [Infinity]. *)
Definition actualMax (maxResults : option Z) (rangeSize : Z) : Z :=
  match maxResults with
  | None => rangeSize
  | Some m => Z.min m rangeSize
  end.

(** The paged part of [getTicksInBlockRange]: the target pages of the
    current epoch, then of the five previous epochs. *)
Definition collectRangePages (w : World) (now : Z) (currentEpoch : Z)
    (fromBlock toBlock : Z) (maxResults : option Z) (c : Cache) : list Tick * Cache :=
  let rangeSize := toBlock - fromBlock + 1 in
  let actualMaxResults := actualMax maxResults rangeSize in
  let fromBlockPage := fromBlock / 500 in
  let toBlockPage := toBlock / 500 in
  let pagesToCheck := Z.min 10 (toBlockPage - fromBlockPage + 1) in
  let '(validTicks, c1) :=
    rangePagesLoop (Z.to_nat pagesToCheck) w now currentEpoch fromBlock toBlock
                   actualMaxResults toBlockPage fromBlockPage [] c in
  if Z.of_nat (length validTicks) <? actualMaxResults
  then rangeEpochsLoop 5 w now currentEpoch fromBlock toBlock actualMaxResults
                       fromBlockPage toBlockPage pagesToCheck 1 validTicks c1
  else (validTicks, c1).

(** [getTicksInBlockRange(fromBlock, toBlock, maxResults)]. *)
Definition getTicksInBlockRange (w : World) (now : Z) (fromBlock toBlock : Z)
    (maxResults : option Z) (c : Cache) : list Tick * Cache :=
  let rangeSize := toBlock - fromBlock + 1 in
  let '(currentEpoch, c0) := getCurrentEpoch w now c in
  let '(validTicks, c1) := collectRangePages w now currentEpoch fromBlock toBlock maxResults c0 in
  let '(validTicks', c2) :=
    match validTicks with
    | [] =>
        if rangeSize <=? 1000 then
          let middleBlock := (fromBlock + toBlock) / 2 in
          let '(middleTick, c') := getTickByNumber w now middleBlock c1 in
          match error middleTick with
          | None => ([middleTick], c')
          | Some _ => ([], c')
          end
        else ([], c1)
    | _ :: _ => (validTicks, c1)
    end in
  match validTicks' with
  | [] => ([], c2)
  | _ :: _ => (jsSort byTickNumberAsc validTicks', c2)
  end.

(** *** getRecentValidTicks *)

(** [for (let i = 0; i < Math.min(count, sortedTicks.length); i++)]: the
    first [count] ticks, normalised, appended and stored under their
    normalised number. *)
Fixpoint pushNormalized (now : Z) (l : list RawTick) (validTicks : list Tick) (c : Cache)
  : list Tick * Cache :=
  match l with
  | [] => (validTicks, c)
  | t :: rest =>
      let n := normalizeTick now t in
      pushNormalized now rest (validTicks ++ [n]) (setTick (tickNumber n) n c)
  end.

(** [for (let i = 0; i < Math.min(count - validTicks.length,
    sortedTicks.length); i++)] of the previous-epoch branch: the bound is
    read again before every iteration, after [validTicks] has grown.  [l]
    holds the sorted ticks from index [i] on. *)
Fixpoint pushWhileWanted (now : Z) (count : Z) (i : Z) (l : list RawTick)
    (validTicks : list Tick) (c : Cache) : list Tick * Cache :=
  match l with
  | [] => (validTicks, c)
  | t :: rest =>
      if i <? count - Z.of_nat (length validTicks) then
        let n := normalizeTick now t in
        pushWhileWanted now count (i + 1) rest (validTicks ++ [n]) (setTick (tickNumber n) n c)
      else (validTicks, c)
  end.

Definition getRecentValidTicks (w : World) (now : Z) (count : Z) (c : Cache)
  : list Tick * Cache :=
  let '(currentEpoch, c0) := getCurrentEpoch w now c in
  let '(validTicks, c1) :=
    match epochTicksResp w currentEpoch 0 500 with
    | Ok (Some (t :: rest)) =>
        pushNormalized now (firstn (Z.to_nat count) (jsSort byRawKeyDesc (t :: rest))) [] c0
    | Ok _ => ([], c0)
    | Failed _ =>
        if 0 <? currentEpoch then
          match epochTicksResp w (currentEpoch - 1) 0 500 with
          | Ok (Some l) =>
              pushWhileWanted now count 0 (jsSort byRawKeyDesc l) [] c0
          | _ => ([], c0)
          end
        else ([], c0)
    end in
  (jsSort byTickNumberDesc validTicks, c1).

(** *** getTickByTimestamp *)



(** *** getTransactionsForTick *)

(** What a call of an [async] method does: it returns a value or throws. *)
Inductive Outcome (A : Type) :=
  | Returned (a : A)
  | Thrown (status : Z).
Arguments Returned {A} a.
Arguments Thrown {A} status.

(** [getTransactionsForTick]: the [catch] block returns an empty list. *)
Definition getTransactionsForTick (w : World) (n : option Z) (c : Cache)
  : Outcome (list RawTxn) * Cache :=
  match transactions c !! n with
  | Some cached => (Returned cached, c)
  | None =>
      match tickTransactionsResp w n with
      | Ok body =>
          let txns := match body with Some l => l | None => [] end in
          (Returned txns, setTransactions n txns c)
      | Failed _ => (Returned [], c)
      end
  end.

(** ** DataTransformer *)

(** [transformTickToBlock] on a tick record. *)
Definition transformTickToBlock (now : Z) (t : Tick) : Block :=
  {| blockNumber := jsOrZ (jsOr (tickNumber t) (number t)) 0;
     blockTimestamp := zOr (timestamp t) now / 1000 |}.

(** [_mapEventType]: the fixed type table. *)
Definition _mapEventType (qubicEventType : string) : option EventType :=
  if (qubicEventType =? "PAIR_CREATED")%string then Some creation
  else if (qubicEventType =? "PAIR_CREATE")%string then Some creation
  else if (qubicEventType =? "CREATE_PAIR")%string then Some creation
  else if (qubicEventType =? "SWAP")%string then Some swap
  else if (qubicEventType =? "EXCHANGE")%string then Some swap
  else if (qubicEventType =? "ADD_LIQUIDITY")%string then Some join
  else if (qubicEventType =? "JOIN_POOL")%string then Some join
  else if (qubicEventType =? "PROVIDE_LIQUIDITY")%string then Some join
  else if (qubicEventType =? "REMOVE_LIQUIDITY")%string then Some exit
  else if (qubicEventType =? "EXIT_POOL")%string then Some exit
  else if (qubicEventType =? "WITHDRAW_LIQUIDITY")%string then Some exit
  else None.

(** [txn.id || txn.txId || `0x${Math.random()...}`]: an empty string is
    falsy. *)
Definition txnIdOf (txn : RawTxn) : TxnId :=
  match txn_id txn with
  | Some s => if (s =? "")%string
              then match txn_txId txn with
                   | Some s' => if (s' =? "")%string then RandomId else GivenId s'
                   | None => RandomId
                   end
              else GivenId s
  | None => match txn_txId txn with
            | Some s' => if (s' =? "")%string then RandomId else GivenId s'
            | None => RandomId
            end
  end.

(** One transaction: zero or one event.  A transaction without a type, or
    with a type outside the table, is dropped.  The [switch] on the type
    assigns the event type the table gives. *)
Definition transformTransaction (now : Z) (tickData : Tick) (txn : RawTxn) : option Event :=
  match txn_type txn with
  | None => None
  | Some ty =>
      if (ty =? "")%string then None
      else
        match _mapEventType ty with
        | None => None
        | Some et =>
            Some {| block := transformTickToBlock now tickData;
                    txnId := txnIdOf txn;
                    txnIndex := jsOrZ (txn_index txn) 0;
                    eventIndex := jsOrZ (txn_eventIndex txn) 0;
                    eventType := et |}
        end
  end.

(** [transformTransactionsToEvents(transactions, tickData)]. *)
Fixpoint transformTransactionsToEvents (now : Z) (txns : list RawTxn) (tickData : Tick)
  : list Event :=
  match txns with
  | [] => []
  | txn :: rest =>
      match transformTransaction now tickData txn with
      | Some e => e :: transformTransactionsToEvents now rest tickData
      | None => transformTransactionsToEvents now rest tickData
      end
  end.

(** ** Controllers *)

(** What a handler sends. *)
Inductive HttpResult (A : Type) :=
  | Json200 (body : A)
  | Status400
  | Status500.
Arguments Json200 {A} body.
Arguments Status400 {A}.
Arguments Status500 {A}.

(** *** BlockController.getLatestBlock *)

(** [for (const tick of saferTicks)]: the first tick whose transaction
    endpoint answers. *)
Fixpoint firstProbed (w : World) (saferTicks : list Tick) : option Tick :=
  match saferTicks with
  | [] => None
  | t :: rest =>
      if tickTransactionsProbe w (tickNumber t) then Some t
      else firstProbed w rest
  end.

(** The handler, returning also the tick whose block it sends. *)
Definition latestBlockTick (w : World) (now : Z) (c : Cache) : HttpResult Tick * Cache :=
  let '(latestValidTick, c1) := getLatestTick w now c in
  if negb (truthy (tickNumber latestValidTick)) then (Status500, c1)
  else if tickTransactionsProbe w (tickNumber latestValidTick)
  then (Json200 latestValidTick, c1)
  else
    let '(saferTicks, c2) := getRecentValidTicks w now 5 c1 in
    match firstProbed w saferTicks with
    | Some t => (Json200 t, c2)
    | None => (Status500, c2)
    end.

Definition getLatestBlock (w : World) (now : Z) (c : Cache) : HttpResult Block * Cache :=
  match latestBlockTick w now c with
  | (Json200 t, c') => (Json200 (transformTickToBlock now t), c')
  | (Status400, c') => (Status400, c')
  | (Status500, c') => (Status500, c')
  end.

(** *** EventsController.getEvents *)

(** The comparator of [allEvents.sort]. *)
Definition byBlockThenIndex (a b : Event) : Z :=
  if negb (blockNumber (block a) =? blockNumber (block b))
  then blockNumber (block a) - blockNumber (block b)
  else eventIndex a - eventIndex b.

(** [for (const tick of ticksInRange)]: the events of each tick, in tick
    order. *)
Fixpoint collectEvents (w : World) (now : Z) (ticksInRange : list Tick)
    (allEvents : list Event) (c : Cache) : list Event * Cache :=
  match ticksInRange with
  | [] => (allEvents, c)
  | tick :: rest =>
      match getTransactionsForTick w (tickNumber tick) c with
      | (Returned txns, c') =>
          collectEvents w now rest (allEvents ++ transformTransactionsToEvents now txns tick) c'
      | (Thrown _, c') => collectEvents w now rest allEvents c'
      end
  end.

Definition MAX_BLOCK_RANGE : Z := 100000.

(** The handler on the parsed query parameters. *)
Definition getEvents (w : World) (now : Z) (fromBlockNum toBlockNum : Z) (c : Cache)
  : HttpResult (list Event) * Cache :=
  if (fromBlockNum <? 0) || (toBlockNum <? 0) then (Status400, c)
  else if toBlockNum <? fromBlockNum then (Status400, c)
  else if MAX_BLOCK_RANGE <? toBlockNum - fromBlockNum + 1 then (Status400, c)
  else
    let '(ticksInRange, c1) := getTicksInBlockRange w now fromBlockNum toBlockNum None c in
    match ticksInRange with
    | [] => (Json200 [], c1)
    | _ :: _ =>
        let '(allEvents, c2) := collectEvents w now ticksInRange [] c1 in
        (Json200 (jsSort byBlockThenIndex allEvents), c2)
    end.

(** A request the handler accepts. *)
Definition validRange (fromBlockNum toBlockNum : Z) : Prop :=
  0 <= fromBlockNum /\ fromBlockNum <= toBlockNum /\
  toBlockNum - fromBlockNum + 1 <= MAX_BLOCK_RANGE.

(** The ordering key of an event. *)
Definition eventKey (e : Event) : Z * Z := (blockNumber (block e), eventIndex e).

(** The order on keys: block number first, then event index. *)
Definition keyLe (k1 k2 : Z * Z) : Prop :=
  fst k1 < fst k2 \/ (fst k1 = fst k2 /\ snd k1 <= snd k2).

(** The events of a request in the order the handler collects them, before
    [allEvents.sort]. *)
Definition eventsBeforeSort (w : World) (now : Z) (fromBlockNum toBlockNum : Z) (c : Cache)
  : list Event :=
  let '(ticksInRange, c1) := getTicksInBlockRange w now fromBlockNum toBlockNum None c in
  fst (collectEvents w now ticksInRange [] c1).

(** [e] carries the ordering key [k]. *)
Definition hasKey (k : Z * Z) (e : Event) : bool :=
  (blockNumber (block e) =? fst k) && (eventIndex e =? snd k).

(** ** Description of the pages the Range Collector reads

    These definitions say, without the loops and their cache updates, which
    listed ticks a range request can pick up; the theorems relate
    [getTicksInBlockRange] to them. *)

(** [k] consecutive numbers from [start]. *)
Fixpoint countFrom (k : nat) (start : Z) : list Z :=
  match k with
  | O => []
  | S k' => start :: countFrom k' (start + 1)
  end.

(** The in-range ticks of one page, normalised, in listing order. *)
Definition pageCandidates (w : World) (now : Z) (fromBlock toBlock : Z) (ep page : Z)
  : list Tick :=
  match epochTicksResp w ep page 500 with
  | Ok (Some l) => map (normalizeTick now) (List.filter (inRange fromBlock toBlock) l)
  | _ => []
  end.

(** The target pages of a range: at most ten, from the page of
    [fromBlock]. *)
Definition targetPages (fromBlock toBlock : Z) : list Z :=
  countFrom (Z.to_nat (Z.min 10 (toBlock / 500 - fromBlock / 500 + 1))) (fromBlock / 500).

Definition epochCandidates (w : World) (now : Z) (fromBlock toBlock : Z) (ep : Z) : list Tick :=
  flat_map (pageCandidates w now fromBlock toBlock ep) (targetPages fromBlock toBlock).

(** The in-range ticks of the target pages of the current epoch and of
    the five previous epochs, in the order in which the pages are read;
    a tick listed on two of these pages occurs twice. *)
Definition rangeCandidates (w : World) (now : Z) (currentEpoch : Z) (fromBlock toBlock : Z)
  : list Tick :=
  epochCandidates w now fromBlock toBlock currentEpoch ++
  flat_map (fun epochOffset =>
              if currentEpoch - epochOffset <? 0 then []
              else epochCandidates w now fromBlock toBlock (currentEpoch - epochOffset))
           (countFrom 5 1).

(** [acc] extended by the elements of [l] up to a total of [cap]. *)
Definition cappedApp {A : Type} (cap : Z) (acc l : list A) : list A :=
  acc ++ firstn (Z.to_nat (cap - Z.of_nat (length acc))) l.

(** The transactions [getTransactionsForTick] yields for a tick number
    with cache [c]. *)
Definition transactionsSeen (w : World) (c : Cache) (n : option Z) : list RawTxn :=
  match transactions c !! n with
  | Some cached => cached
  | None =>
      match tickTransactionsResp w n with
      | Ok (Some l) => l
      | _ => []
      end
  end.

(** ** Description of the epoch listings a timestamp lookup reads *)

(** The listing of epoch [ep] ends by page [bound]: from that page on no
    page is full. *)
Definition listingEnds (w : World) (bound : Z) (ep : Z) : Prop :=
  forall page, bound <= page ->
    match epochTicksResp w ep page 500 with
    | Ok (Some l) => Z.of_nat (length l) < 500
    | _ => True
    end.



(** ** Sample upstream states *)

Definition listedTick (n : Z) : RawTick :=
  mkRawTick (Some n) None (Some (n * 1000)) None.

Definition swapTxn (i : Z) : RawTxn :=
  mkRawTxn (Some "SWAP"%string) None None (Some i) (Some i).

(** An upstream that lists nothing and fails every transaction request. *)
Definition silentWorld : World :=
  mkWorld (Ok (Some 8000)) (Ok (Some 5))
          (fun _ _ _ => Ok (Some []))
          (fun _ => Failed 503)
          (fun _ => false).

(** A current epoch (7) that has only just begun: it lists the three ticks
    97, 96 and 95 while the head is at 100. *)
Definition youngEpochWorld : World :=
  mkWorld (Ok (Some 100)) (Ok (Some 7))
          (fun e p _ =>
             if (e =? 7) && (p =? 0)
             then Ok (Some [listedTick 97; listedTick 96; listedTick 95])
             else Ok (Some []))
          (fun _ => Ok (Some []))
          (fun _ => true).

(** No epoch lists a tick between 1000 and 1010; page 2 of epoch 4 lists
    tick 7000, which has one swap. *)
Definition nearestOnlyWorld : World :=
  mkWorld (Ok (Some 8000)) (Ok (Some 5))
          (fun e p _ =>
             if (e =? 4) && (p =? 2) then Ok (Some [listedTick 7000]) else Ok (Some []))
          (fun n =>
             match n with
             | Some 7000 => Ok (Some [swapTxn 1])
             | _ => Ok (Some [])
             end)
          (fun _ => true).

(** Head 100; page 0 of the current epoch lists the ticks 100 down to 90;
    only the transaction endpoint of tick 100 answers. *)
Definition headListedWorld : World :=
  mkWorld (Ok (Some 100)) (Ok (Some 7))
          (fun e p _ =>
             if (e =? 7) && (p =? 0)
             then Ok (Some (map listedTick [100; 99; 98; 97; 96; 95; 94; 93; 92; 91; 90]))
             else Ok (Some []))
          (fun _ => Ok (Some []))
          (fun n => match n with Some 100 => true | _ => false end).

(** Tick 1003 is listed on page 2 of the current epoch 5 and of the
    previous epoch 4; it has one swap. *)
Definition repeatedTickWorld : World :=
  mkWorld (Ok (Some 8000)) (Ok (Some 5))
          (fun e p _ =>
             if ((e =? 5) || (e =? 4)) && (p =? 2)
             then Ok (Some [listedTick 1003])
             else Ok (Some []))
          (fun n =>
             match n with
             | Some 1003 => Ok (Some [swapTxn 1])
             | _ => Ok (Some [])
             end)
          (fun _ => true).

(** The ticks 1000, 1002 and 1004 of epoch 5 with two, no and one
    transaction. *)
Definition threeTickWorld : World :=
  mkWorld (Ok (Some 8000)) (Ok (Some 5))
          (fun e p _ =>
             if (e =? 5) && (p =? 2)
             then Ok (Some [listedTick 1004; listedTick 1000; listedTick 1002])
             else Ok (Some []))
          (fun n =>
             match n with
             | Some 1000 => Ok (Some [swapTxn 2; swapTxn 1])
             | Some 1004 => Ok (Some [swapTxn 1])
             | _ => Ok (Some [])
             end)
          (fun _ => true).

(** Head 5, so that the safe number is 0; page 0 of the current epoch
    lists the raw tick [{ tickNumber: 0, number: 5 }]. *)
Definition genesisWorld : World :=
  mkWorld (Ok (Some 5)) (Ok (Some 7))
          (fun e p _ =>
             if (e =? 7) && (p =? 0)
             then Ok (Some [mkRawTick (Some 0) (Some 5) (Some 1000) None])
             else Ok (Some []))
          (fun _ => Ok (Some []))
          (fun _ => true).

(** A tick is the normalisation of a tick that a page of epoch [ep]
    lists. *)
Definition listedInEpoch (w : World) (now : Z) (size : Z) (ep : Z) (t : Tick) : Prop :=
  exists page pg raw,
    epochTicksResp w ep page size = Ok (Some pg) /\ In raw pg /\ t = normalizeTick now raw.

(** The ticks collected so far are stored under their numbers. *)
Definition storedByNumber (acc : list Tick) (c : Cache) : Prop :=
  forall t, In t acc ->
    exists t', ticks c !! tickNumber t = Some t' /\ tickNumber t' = tickNumber t.

(** An upstream of which every request fails. *)
Definition downWorld : World :=
  mkWorld (Failed 503) (Failed 503)
          (fun _ _ _ => Failed 503)
          (fun _ => Failed 503)
          (fun _ => false).

(** ** Resource lookups: exchange, asset, health

    The requests of these methods go to paths built from the identifier;
    the upstream is a function from the path to the answer.  JSON strings
    are [string]s, identifiers are ASCII, and a property that may be
    missing is an [option]. *)

(** What a handler with a not-found answer sends. *)
Inductive HttpAnswer (A : Type) :=
  | Answer200 (body : A)
  | Answer400
  | Answer404
  | Answer503 (body : A)
  | Answer500.
Arguments Answer200 {A} body.
Arguments Answer400 {A}.
Arguments Answer404 {A}.
Arguments Answer503 {A} body.
Arguments Answer500 {A}.

(** Truthiness of a possibly missing string: the empty string is falsy. *)
Definition strTruthy (s : option string) : bool :=
  match s with
  | Some x => negb (x =? "")%string
  | None => false
  end.

(** [s || d] where [d] is a string. *)
Definition strOr (s : option string) (d : string) : string :=
  match s with
  | Some x => if (x =? "")%string then d else x
  | None => d
  end.

(** [s.toUpperCase()] on ASCII. *)
Definition upperAscii (a : Ascii.ascii) : Ascii.ascii :=
  let n := Ascii.nat_of_ascii a in
  if ((97 <=? n) && (n <=? 122))%nat then Ascii.ascii_of_nat (n - 32) else a.

Fixpoint toUpperCase (s : string) : string :=
  match s with
  | EmptyString => EmptyString
  | String a rest => String (upperAscii a) (toUpperCase rest)
  end.

(** *** getExchangeById and the /exchange handler *)

Record RawExchange := mkRawExchange {
  ex_factoryAddress : option string;
  ex_name : option string;
  ex_logoURL : option string
}.

Record Exchange := mkExchange {
  factoryAddress : string;
  name : string;
  logoURL : string
}.

Definition exchangeEndpoints (id : string) : list string :=
  [ String.append "/v1/exchanges/" id;
    String.append "/v2/exchanges/" id;
    String.append "/exchanges/v1/" id;
    String.append "/exchanges/v2/" id ].

(** [for (const endpoint of possibleEndpoints)]: the first answer that has
    a factory address. *)
Fixpoint tryExchangeEndpoints (request : string -> Resp (option RawExchange))
    (endpoints : list string) : option Exchange :=
  match endpoints with
  | [] => None
  | endpoint :: rest =>
      match request endpoint with
      | Ok (Some exchangeData) =>
          match ex_factoryAddress exchangeData with
          | Some fa =>
              if (fa =? "")%string then tryExchangeEndpoints request rest
              else Some {| factoryAddress := fa;
                           name := strOr (ex_name exchangeData) "Qubic DEX";
                           logoURL := strOr (ex_logoURL exchangeData)
                                            "https://qubic.org/logo.png" |}
          | None => tryExchangeEndpoints request rest
          end
      | _ => tryExchangeEndpoints request rest
      end
  end.

Definition getExchangeById (request : string -> Resp (option RawExchange)) (id : string)
  : option Exchange :=
  tryExchangeEndpoints request (exchangeEndpoints id).

Definition transformExchangeToExchange (exchange : Exchange) : Exchange :=
  {| factoryAddress := factoryAddress exchange;
     name := strOr (Some (name exchange)) "Qubic DEX";
     logoURL := strOr (Some (logoURL exchange)) "https://qubic.org/logo.png" |}.

(** [ExchangeController.getExchange] on the [id] query parameter. *)
Definition getExchange (request : string -> Resp (option RawExchange)) (id : option string)
  : HttpAnswer Exchange :=
  match id with
  | None => Answer400
  | Some i =>
      if (i =? "")%string then Answer400
      else
        match getExchangeById request i with
        | None => Answer404
        | Some exchange => Answer200 (transformExchangeToExchange exchange)
        end
  end.

(** An endpoint whose answer [getExchangeById] passes over. *)
Definition noExchangeAt (request : string -> Resp (option RawExchange)) (endpoint : string)
  : Prop :=
  match request endpoint with
  | Ok (Some exchangeData) => strTruthy (ex_factoryAddress exchangeData) = false
  | _ => True
  end.

(** *** getAssetById and the /asset handler *)

Record RawAsset := mkRawAsset {
  as_id : option string;
  as_name : option string;
  as_symbol : option string;
  as_totalSupply : option string;
  as_circulatingSupply : option string;
  as_holdersCount : option Z
}.

Record Asset := mkAsset {
  asset_id : string;
  asset_name : string;
  asset_symbol : string;
  asset_totalSupply : string;
  asset_circulatingSupply : string;
  asset_holdersCount : Z
}.

Definition assetEndpoints (id : string) : list string :=
  [ String.append "/v1/assets/" id;
    String.append "/v2/assets/" id;
    String.append "/assets/v1/" id;
    String.append "/assets/v2/" id ].

Definition identityEndpoints (id : string) : list string :=
  [ String.append "/v1/identities/" id;
    String.append "/v2/identities/" id;
    String.append "/identities/v1/" id;
    String.append "/identities/v2/" id ].

(** The record both loops of [getAssetById] build from an answer. *)
Definition assetOfData (i : string) (assetData : RawAsset) : Asset :=
  {| asset_id := i;
     asset_name := strOr (as_name assetData) (String.append "Asset " (substring 0 8 i));
     asset_symbol := strOr (as_symbol assetData) (toUpperCase (substring 0 4 i));
     asset_totalSupply := strOr (as_totalSupply assetData) "0";
     asset_circulatingSupply := strOr (as_circulatingSupply assetData) "0";
     asset_holdersCount := jsOrZ (as_holdersCount assetData) 0 |}.

(** [for (const endpoint of ...)]: the first answer that has an id. *)
Fixpoint tryAssetEndpoints (request : string -> Resp (option RawAsset))
    (endpoints : list string) : option Asset :=
  match endpoints with
  | [] => None
  | endpoint :: rest =>
      match request endpoint with
      | Ok (Some assetData) =>
          match as_id assetData with
          | Some i =>
              if (i =? "")%string then tryAssetEndpoints request rest
              else Some (assetOfData i assetData)
          | None => tryAssetEndpoints request rest
          end
      | _ => tryAssetEndpoints request rest
      end
  end.

(** [getAssetById]: the asset paths, then the identity paths. *)
Definition getAssetById (request : string -> Resp (option RawAsset)) (id : string)
  : option Asset :=
  match tryAssetEndpoints request (assetEndpoints id) with
  | Some asset => Some asset
  | None => tryAssetEndpoints request (identityEndpoints id)
  end.

Definition transformAssetToAsset (asset : Asset) : Asset :=
  {| asset_id := asset_id asset;
     asset_name := strOr (Some (asset_name asset))
                         (String.append "Asset " (substring 0 8 (asset_id asset)));
     asset_symbol := strOr (Some (asset_symbol asset))
                           (toUpperCase (substring 0 4 (asset_id asset)));
     asset_totalSupply := strOr (Some (asset_totalSupply asset)) "0";
     asset_circulatingSupply := strOr (Some (asset_circulatingSupply asset)) "0";
     asset_holdersCount := zOr (asset_holdersCount asset) 0 |}.

(** [AssetController.getAsset] on the [id] query parameter. *)
Definition getAsset (request : string -> Resp (option RawAsset)) (id : option string)
  : HttpAnswer Asset :=
  match id with
  | None => Answer400
  | Some i =>
      if (i =? "")%string then Answer400
      else
        match getAssetById request i with
        | None => Answer404
        | Some asset => Answer200 (transformAssetToAsset asset)
        end
  end.

(** An endpoint whose answer [getAssetById] passes over. *)
Definition noAssetAt (request : string -> Resp (option RawAsset)) (endpoint : string) : Prop :=
  match request endpoint with
  | Ok (Some assetData) => strTruthy (as_id assetData) = false
  | _ => True
  end.

(** *** The health checks *)

(** The value of a [status] property of a health answer. *)
Inductive JsVal :=
  | JUndefined
  | JNull
  | JBool (b : bool)
  | JNum (z : Z)
  | JStr (s : string)
  | JObject.

Definition jsTruthy (v : JsVal) : bool :=
  match v with
  | JUndefined | JNull => false
  | JBool b => b
  | JNum z => negb (z =? 0)
  | JStr s => negb (s =? "")%string
  | JObject => true
  end.

(** [a || b] and [a && b]. *)
Definition jsOrVal (a b : JsVal) : JsVal := if jsTruthy a then a else b.
Definition jsAndVal (a b : JsVal) : JsVal := if jsTruthy a then b else a.

Record Health := mkHealth {
  hc_status : JsVal;
  hc_source : string;
  hc_endpoint : option string;
  hc_error : bool
}.

(** [getHealthCheck]: the answer of [/v1/healthcheck] is [Ok None] for a
    [null] body, on which reading [response.status] throws. *)
Definition getHealthCheck (request : string -> Resp (option JsVal)) : Health :=
  match request "/v1/healthcheck"%string with
  | Ok (Some st) => mkHealth (jsOrVal st (JBool true)) "main-rpc" None false
  | _ => mkHealth (JBool false) "main-rpc" None true
  end.

Definition apiHealthEndpoints : list string :=
  [ "/v1/health"; "/v2/health"; "/assets/health"; "/identities/health" ]%string.

(** [for (const endpoint of possibleEndpoints)] of [getApiServicesHealth]:
    the first endpoint that answers. *)
Fixpoint tryHealthEndpoints (request : string -> Resp (option JsVal))
    (endpoints : list string) : option Health :=
  match endpoints with
  | [] => None
  | endpoint :: rest =>
      match request endpoint with
      | Ok (Some st) =>
          Some (mkHealth (jsOrVal st (JBool true)) "api-services" (Some endpoint) false)
      | _ => tryHealthEndpoints request rest
      end
  end.

(** [getApiServicesHealth]: the health endpoints, then the lookup of the
    asset QUBIC as a last check. *)
Definition getApiServicesHealth (request : string -> Resp (option JsVal))
    (assetRequest : string -> Resp (option RawAsset)) : Health :=
  match tryHealthEndpoints request apiHealthEndpoints with
  | Some h => h
  | None =>
      match getAssetById assetRequest "QUBIC" with
      | Some _ => mkHealth (JBool true) "api-services" (Some "asset-endpoint-fallback"%string) false
      | None => mkHealth (JBool false) "api-services" (Some "asset-endpoint-fallback"%string) false
      end
  end.

(** [getFullHealthStatus]: the overall status and the two results. *)
Definition getFullHealthStatus (request : string -> Resp (option JsVal))
    (assetRequest : string -> Resp (option RawAsset)) : JsVal * (Health * Health) :=
  let mainRpc := getHealthCheck request in
  let apiServices := getApiServicesHealth request assetRequest in
  (jsAndVal (hc_status mainRpc) (hc_status apiServices), (mainRpc, apiServices)).

(** [HealthController.getHealth]. *)
Definition getHealth (request : string -> Resp (option JsVal))
    (assetRequest : string -> Resp (option RawAsset))
  : HttpAnswer (JsVal * (Health * Health)) :=
  let healthStatus := getFullHealthStatus request assetRequest in
  if jsTruthy (fst healthStatus) then Answer200 healthStatus else Answer503 healthStatus.

(** [HealthController.getMainRpcHealth]. *)
Definition getMainRpcHealth (request : string -> Resp (option JsVal)) : HttpAnswer Health :=
  let health := getHealthCheck request in
  if jsTruthy (hc_status health) then Answer200 health else Answer503 health.

(** The endpoint answers with a body. *)
Definition answers {A : Type} (request : string -> Resp (option A)) (endpoint : string) : Prop :=
  exists body, request endpoint = Ok (Some body).

(** *** The rate limiter of app.js *)

Definition RATE_LIMIT_WINDOW : Z := 60 * 1000.
Definition RATE_LIMIT : nat := 100.

(** [requestCounts]: the timestamps kept for each address. *)
Definition RequestCounts := gmap string (list Z).

(** [timestamp > now - RATE_LIMIT_WINDOW]. *)
Definition inWindow (now timestamp : Z) : bool := now - RATE_LIMIT_WINDOW <? timestamp.

(** The middleware on a request of [ip] at time [now]: the store it leaves
    and whether it calls [next()] ([false] is the answer 429). *)
Definition rateLimiter (requestCounts : RequestCounts) (ip : string) (now : Z)
  : RequestCounts * bool :=
  let stamps := List.filter (inWindow now) (default [] (requestCounts !! ip)) in
  if (RATE_LIMIT <=? length stamps)%nat
  then (<[ip := stamps]> requestCounts, false)
  else (<[ip := stamps ++ [now]]> requestCounts, true).

(** A run of the middleware over the requests [(ip, now)] in arrival
    order, from the store of a fresh process; beside the store, the log of
    the requests it let through, most recent first. *)
Definition serveStep (st : RequestCounts * list (string * Z)) (r : string * Z)
  : RequestCounts * list (string * Z) :=
  let (requestCounts, passed) := rateLimiter (fst st) (fst r) (snd r) in
  (requestCounts, if passed then r :: snd st else snd st).

Definition serve (requests : list (string * Z)) : RequestCounts * list (string * Z) :=
  fold_left serveStep requests (∅, []).

(** The times at which requests of [ip] in a log were let through. *)
Definition stampsOf (ip : string) (log : list (string * Z)) : list Z :=
  map snd (List.filter (fun r => (fst r =? ip)%string) log).

(** [t - RATE_LIMIT_WINDOW < s <= t]. *)
Definition within (t s : Z) : bool := inWindow t s && (s <=? t).

(** The transaction has a type that the type table knows. *)
Definition knownType (txn : RawTxn) : bool :=
  match txn_type txn with
  | Some ty => match _mapEventType ty with Some _ => true | None => false end
  | None => false
  end.

(** An upstream whose answers carry none of the fields the client reads. *)
Definition bareWorld : World :=
  mkWorld (Ok None) (Ok None) (fun _ _ _ => Ok None) (fun _ => Ok None) (fun _ => true).

(** ** Description of what the upstream lists *)







(** The turn of an epoch: the head is 100, the current epoch 7 lists
    nothing yet, and page 0 of epoch 6 lists the ticks 99 and 98. *)
Definition epochTurnWorld : World :=
  mkWorld (Ok (Some 100)) (Ok (Some 7))
          (fun e p _ =>
             if (e =? 6) && (p =? 0)
             then Ok (Some [listedTick 98; listedTick 99])
             else Ok (Some []))
          (fun _ => Ok (Some []))
          (fun _ => true).

(** ** Properties of the sort *)

Section JsSortFacts.
Context {A : Type} (cmp : A -> A -> Z).

Lemma jsInsert_perm (x : A) (l : list A) : Permutation (x :: l) (jsInsert cmp x l).
Proof.
  induction l as [|y rest IH]; simpl.
  - apply Permutation_refl.
  - destruct (cmp x y <=? 0).
    + apply Permutation_refl.
    + eapply Permutation_trans; [apply perm_swap|].
      apply perm_skip. exact IH.
Qed.

Lemma jsSort_perm (l : list A) : Permutation l (jsSort cmp l).
Proof.
  induction l as [|x rest IH]; simpl.
  - apply perm_nil.
  - eapply Permutation_trans; [|apply jsInsert_perm].
    apply perm_skip. exact IH.
Qed.

Lemma jsSort_length (l : list A) : length (jsSort cmp l) = length l.
Proof. symmetry. apply Permutation_length, jsSort_perm. Qed.

Lemma jsSort_In (x : A) (l : list A) : In x (jsSort cmp l) <-> In x l.
Proof.
  split; intro H.
  - eapply Permutation_in; [apply Permutation_sym, jsSort_perm|exact H].
  - eapply Permutation_in; [apply jsSort_perm|exact H].
Qed.

Lemma jsSort_nil_inv (l : list A) : jsSort cmp l = [] -> l = [].
Proof.
  intro H. apply (f_equal (@length A)) in H.
  rewrite jsSort_length in H. destruct l; [reflexivity|discriminate].
Qed.

(** Adjacent elements of the result are in order, for every relation
    that the comparator decides and that relates one way or the other. *)
Section Ordered.
Context (R : A -> A -> Prop).
Hypothesis cmp_le : forall x y, cmp x y <= 0 -> R x y.
Hypothesis cmp_gt : forall x y, ~ cmp x y <= 0 -> R y x.

Lemma jsInsert_HdRel (a x : A) (l : list A) :
  R a x -> HdRel R a l -> HdRel R a (jsInsert cmp x l).
Proof.
  intros Hax Hal. destruct l as [|y rest]; simpl.
  - constructor. exact Hax.
  - destruct (cmp x y <=? 0); constructor.
    + exact Hax.
    + inversion Hal; assumption.
Qed.

Lemma jsInsert_Sorted (x : A) (l : list A) :
  Sorted R l -> Sorted R (jsInsert cmp x l).
Proof.
  induction 1 as [|y rest Hs IH Hhd]; simpl.
  - repeat constructor.
  - destruct (Z.leb_spec (cmp x y) 0) as [Hle|Hgt].
    + constructor; [constructor; assumption|].
      constructor. apply cmp_le. exact Hle.
    + constructor; [exact IH|].
      apply jsInsert_HdRel; [|exact Hhd].
      apply cmp_gt. lia.
Qed.

Lemma jsSort_Sorted (l : list A) : Sorted R (jsSort cmp l).
Proof.
  induction l as [|x rest IH]; simpl.
  - constructor.
  - apply jsInsert_Sorted. exact IH.
Qed.
End Ordered.

(** Stability: the elements of a class whose members compare as equal
    keep their order. *)
Section Stable.
Context (p : A -> bool).
Hypothesis same_class : forall x y, p x = true -> p y = true -> cmp x y <= 0.

Lemma jsInsert_filter (x : A) (l : list A) :
  List.filter p (jsInsert cmp x l) = List.filter p (x :: l).
Proof.
  induction l as [|y rest IH]; simpl.
  - reflexivity.
  - destruct (Z.leb_spec (cmp x y) 0) as [Hle|Hgt]; simpl.
    + reflexivity.
    + rewrite IH. simpl.
      destruct (p x) eqn:Hpx, (p y) eqn:Hpy; try reflexivity.
      specialize (same_class x y Hpx Hpy). lia.
Qed.

Lemma jsSort_filter (l : list A) :
  List.filter p (jsSort cmp l) = List.filter p l.
Proof.
  induction l as [|x rest IH]; simpl.
  - reflexivity.
  - rewrite jsInsert_filter. simpl. rewrite IH. reflexivity.
Qed.
End Stable.
End JsSortFacts.

(** ** Tick normalisation *)

(** C10 at a failing input, the raw tick [{ tickNumber: 0, number: 5 }].
    The literal of [normalizeTickData] computes [t.tickNumber || t.number],
    which is 5, but the spread of the raw tick that ends the literal
    writes the raw 0 back: the record bears tick number 0.  The callers
    disagree about the tick as a result: the paging loops store the record
    under 5, the key [tick.tickNumber || tick.number], whereas
    [getRecentValidTicks] stores it under 0, the key
    [normalizedTick.tickNumber]; and the public lookup [getLatestTick]
    hands out the record with tick number 0. *)
Theorem normalizeTickData_zero_kept :
  (exists r,
     normalizeTickData 1000 (Some (mkRawTick (Some 0) (Some 5) None None)) = Some r /\
     tickNumber r = Some 0 /\
     jsOr (Some 0) (Some 5) = Some 5 /\
     tickNumber r <> jsOr (Some 0) (Some 5) /\
     ticks (snd (cacheAndPush 1000 [mkRawTick (Some 0) (Some 5) None None] [] emptyCache))
       !! Some 5 = Some r /\
     ticks (snd (cacheAndPush 1000 [mkRawTick (Some 0) (Some 5) None None] [] emptyCache))
       !! Some 0 = None /\
     ticks (snd (pushNormalized 1000 [mkRawTick (Some 0) (Some 5) None None] [] emptyCache))
       !! Some 0 = Some r /\
     ticks (snd (pushNormalized 1000 [mkRawTick (Some 0) (Some 5) None None] [] emptyCache))
       !! Some 5 = None) /\
  tickNumber (fst (getLatestTick genesisWorld 5000 emptyCache)) = Some 0.
Proof.
  split; [|vm_compute; reflexivity].
  eexists. split; [reflexivity|].
  split; [reflexivity|]. split; [reflexivity|]. split; [discriminate|].
  repeat split; vm_compute; reflexivity.
Qed.

(** What [normalizeTickData] returns: [null] for a missing argument only;
    for a raw tick that has a [tickNumber] property the record keeps that
    value, [0] included, because the spread of the raw tick overrides the
    literal; for a raw tick without the property the record takes the
    [number] field.  The paging loops store the record under
    [tick.tickNumber || tick.number]. *)
Lemma normalizeTickData_tickNumber (now : Z) (t : RawTick) (c : Cache) :
  normalizeTickData now None = None /\
  normalizeTickData now (Some t) = Some (normalizeTick now t) /\
  tickNumber (normalizeTick now t) =
    match raw_tickNumber t with
    | Some v => Some v
    | None => raw_number t
    end /\
  ticks (snd (cacheAndPush now [t] [] c)) !! jsOr (raw_tickNumber t) (raw_number t)
    = Some (normalizeTick now t).
Proof.
  repeat split.
  - unfold normalizeTick, spreadOver, jsOr. simpl.
    destruct (raw_tickNumber t); reflexivity.
  - simpl. unfold rawKey. apply lookup_insert_eq.
Qed.

(** ** Transactions of a tick *)

(** C7, as stated, on an upstream whose transaction endpoint fails: the
    call returns an empty list instead of failing. *)
Lemma getTransactionsForTick_failure_returns_empty :
  tickTransactionsResp silentWorld (Some 42) = Failed 503 /\
  fst (getTransactionsForTick silentWorld (Some 42) emptyCache) = Returned [] /\
  forall s, fst (getTransactionsForTick silentWorld (Some 42) emptyCache) <> Thrown s.
Proof.
  repeat split. intros s. vm_compute. discriminate.
Qed.

(** C7, amended: [getTransactionsForTick] never fails.  It returns the
    cached list when there is one; otherwise the transactions of the
    upstream answer - an empty list when the answer has none - which it
    stores under the tick, so that the next call is served from the
    cache; and, when the upstream call fails, an empty list, leaving the
    cache as it was. *)
Theorem getTransactionsForTick_total (w : World) (n : option Z) (c : Cache) :
  (exists l, fst (getTransactionsForTick w n c) = Returned l) /\
  (forall l, transactions c !! n = Some l ->
     getTransactionsForTick w n c = (Returned l, c)) /\
  (forall l, transactions c !! n = None -> tickTransactionsResp w n = Ok (Some l) ->
     getTransactionsForTick w n c = (Returned l, setTransactions n l c) /\
     transactions (snd (getTransactionsForTick w n c)) !! n = Some l) /\
  (transactions c !! n = None -> tickTransactionsResp w n = Ok None ->
     getTransactionsForTick w n c = (Returned [], setTransactions n [] c) /\
     transactions (snd (getTransactionsForTick w n c)) !! n = Some []) /\
  (forall s, transactions c !! n = None -> tickTransactionsResp w n = Failed s ->
     getTransactionsForTick w n c = (Returned [], c) /\
     transactions (snd (getTransactionsForTick w n c)) !! n = None).
Proof.
  unfold getTransactionsForTick. split; [|split; [|split; [|split]]].
  - destruct (transactions c !! n); [eexists; reflexivity|].
    destruct (tickTransactionsResp w n); eexists; reflexivity.
  - intros l ->. reflexivity.
  - intros l Hc Hresp. rewrite Hc, Hresp. split; [reflexivity|].
    cbn [snd]. unfold setTransactions. cbn [transactions]. apply lookup_insert_eq.
  - intros Hc Hresp. rewrite Hc, Hresp. split; [reflexivity|].
    cbn [snd]. unfold setTransactions. cbn [transactions]. apply lookup_insert_eq.
  - intros st Hc Hresp. rewrite Hc, Hresp. split; [reflexivity|exact Hc].
Qed.

Lemma getTransactionsForTick_total_witness :
  (exists l, fst (getTransactionsForTick silentWorld (Some 42) emptyCache) = Returned l) /\
  getTransactionsForTick silentWorld (Some 42) emptyCache = (Returned [], emptyCache) /\
  getTransactionsForTick bareWorld (Some 42) emptyCache
    = (Returned [], setTransactions (Some 42) [] emptyCache).
Proof.
  pose proof (getTransactionsForTick_total silentWorld (Some 42) emptyCache)
    as (Hex & _ & _ & _ & Hfail).
  pose proof (getTransactionsForTick_total bareWorld (Some 42) emptyCache)
    as (_ & _ & _ & Hnone & _).
  split; [exact Hex|].
  split; [apply (Hfail 503); reflexivity|].
  apply Hnone; reflexivity.
Defined.

(** ** Lookup by number *)

(** C9, as stated, on an upstream that lists no tick: the first call
    returns a placeholder and stores nothing, so the second call builds a
    new placeholder, whose timestamp is the time of the second call. *)
Lemma getTickByNumber_placeholder_not_repeated :
  let r1 := getTickByNumber silentWorld 1000 5 emptyCache in
  let r2 := getTickByNumber silentWorld 2000 5 (snd r1) in
  ticks (snd r1) !! Some 5 = None /\
  timestamp (fst r1) = 1000 /\
  timestamp (fst r2) = 2000 /\
  fst r2 <> fst r1.
Proof.
  vm_compute. repeat split. discriminate.
Qed.

(** C9, amended: when the first call of [getTickByNumber n] finds a tick -
    in the cache, as an exact match or as a nearest match - it leaves the
    record in the cache under [n], and a second call returns the same
    record and the same cache, whatever the upstream and the clock are by
    then.  (A first call that finds nothing returns a placeholder that is
    not cached.) *)
Theorem getTickByNumber_repeat (w1 w2 : World) (now1 now2 : Z) (n : Z) (c : Cache) :
  (ticks c !! Some n <> None \/
   searchTick w1 now1 (fst (getCurrentEpoch w1 now1 c)) n <> None) ->
  ticks (snd (getTickByNumber w1 now1 n c)) !! Some n = Some (fst (getTickByNumber w1 now1 n c)) /\
  getTickByNumber w2 now2 n (snd (getTickByNumber w1 now1 n c)) = getTickByNumber w1 now1 n c.
Proof.
  intros Hfound.
  assert (Hcached :
    ticks (snd (getTickByNumber w1 now1 n c)) !! Some n = Some (fst (getTickByNumber w1 now1 n c))).
  { unfold getTickByNumber.
    destruct (ticks c !! Some n) as [t|] eqn:Hc; [exact Hc|].
    destruct (getCurrentEpoch w1 now1 c) as [cur c1] eqn:Hcur. simpl in Hfound.
    destruct (searchTick w1 now1 cur n) as [t|] eqn:Hs.
    - simpl. apply lookup_insert_eq.
    - destruct Hfound as [H|H]; congruence. }
  split; [exact Hcached|].
  destruct (getTickByNumber w1 now1 n c) as [t c1] eqn:Hr. simpl in *.
  unfold getTickByNumber at 1. rewrite Hcached. reflexivity.
Qed.

Lemma getTickByNumber_repeat_witness :
  searchTick nearestOnlyWorld 1000 (fst (getCurrentEpoch nearestOnlyWorld 1000 emptyCache)) 1005
    <> None /\
  getTickByNumber silentWorld 2000 1005 (snd (getTickByNumber nearestOnlyWorld 1000 1005 emptyCache))
    = getTickByNumber nearestOnlyWorld 1000 1005 emptyCache.
Proof.
  assert (H : searchTick nearestOnlyWorld 1000
                (fst (getCurrentEpoch nearestOnlyWorld 1000 emptyCache)) 1005 <> None)
    by (vm_compute; discriminate).
  split; [exact H|].
  apply (getTickByNumber_repeat nearestOnlyWorld silentWorld 1000 2000 1005 emptyCache).
  right. exact H.
Defined.

(** ** Order of the events *)

Lemma byBlockThenIndex_le (a b : Event) :
  byBlockThenIndex a b <= 0 <-> keyLe (eventKey a) (eventKey b).
Proof.
  unfold byBlockThenIndex, keyLe, eventKey. simpl.
  destruct (Z.eqb_spec (blockNumber (block a)) (blockNumber (block b))); simpl; lia.
Qed.

Lemma byBlockThenIndex_gt (a b : Event) :
  ~ byBlockThenIndex a b <= 0 -> keyLe (eventKey b) (eventKey a).
Proof.
  unfold byBlockThenIndex, keyLe, eventKey. simpl.
  destruct (Z.eqb_spec (blockNumber (block a)) (blockNumber (block b))); simpl; lia.
Qed.

Lemma byBlockThenIndex_same_key (k : Z * Z) (a b : Event) :
  hasKey k a = true -> hasKey k b = true -> byBlockThenIndex a b <= 0.
Proof.
  unfold hasKey, byBlockThenIndex. intros Ha Hb.
  apply andb_prop in Ha as [Ha1 Ha2]. apply andb_prop in Hb as [Hb1 Hb2].
  apply Z.eqb_eq in Ha1, Ha2, Hb1, Hb2.
  destruct (Z.eqb_spec (blockNumber (block a)) (blockNumber (block b))); simpl; lia.
Qed.

Lemma validRange_accepted (a b : Z) :
  validRange a b ->
  (a <? 0) || (b <? 0) = false /\ (b <? a) = false /\ (MAX_BLOCK_RANGE <? b - a + 1) = false.
Proof.
  unfold validRange. intros (H0 & Hab & Hmax).
  repeat split.
  - apply orb_false_iff. split; apply Z.ltb_ge; lia.
  - apply Z.ltb_ge. lia.
  - apply Z.ltb_ge. lia.
Qed.

(** What an accepted request answers: the sorted events collected for
    the range. *)
Lemma getEvents_accepted (w : World) (now a b : Z) (c : Cache) :
  validRange a b ->
  fst (getEvents w now a b c) = Json200 (jsSort byBlockThenIndex (eventsBeforeSort w now a b c)).
Proof.
  intros Hv. apply validRange_accepted in Hv as (H1 & H2 & H3).
  unfold getEvents, eventsBeforeSort. rewrite H1, H2, H3.
  destruct (getTicksInBlockRange w now a b None c) as [ticksInRange c1].
  destruct ticksInRange as [|t rest]; [reflexivity|].
  destruct (collectEvents w now (t :: rest) [] c1) as [allEvents c2]. reflexivity.
Qed.

(** C5: for every accepted range request the events returned are sorted
    ascending by (blockNumber, eventIndex) - each event's key is at most
    the key of the event that follows it - and events with equal keys keep
    the order in which they were collected. *)
Theorem getEvents_sorted (w : World) (now a b : Z) (c : Cache) (evs : list Event) :
  validRange a b ->
  fst (getEvents w now a b c) = Json200 evs ->
  Sorted (fun e1 e2 => keyLe (eventKey e1) (eventKey e2)) evs /\
  Permutation (eventsBeforeSort w now a b c) evs /\
  forall k, List.filter (hasKey k) evs = List.filter (hasKey k) (eventsBeforeSort w now a b c).
Proof.
  intros Hv Hres. rewrite (getEvents_accepted w now a b c Hv) in Hres.
  injection Hres as <-.
  split; [|split].
  - apply jsSort_Sorted.
    + intros x y. apply byBlockThenIndex_le.
    + intros x y. apply byBlockThenIndex_gt.
  - apply jsSort_perm.
  - intros k. apply jsSort_filter. apply byBlockThenIndex_same_key.
Qed.

Lemma getEvents_sorted_witness :
  validRange 1000 1005 /\
  fst (getEvents threeTickWorld 5000 1000 1005 emptyCache)
    = Json200 [ mkEvent (mkBlock 1000 1000) RandomId 1 1 swap;
                mkEvent (mkBlock 1000 1000) RandomId 2 2 swap;
                mkEvent (mkBlock 1004 1004) RandomId 1 1 swap ] /\
  Sorted (fun e1 e2 => keyLe (eventKey e1) (eventKey e2))
         [ mkEvent (mkBlock 1000 1000) RandomId 1 1 swap;
           mkEvent (mkBlock 1000 1000) RandomId 2 2 swap;
           mkEvent (mkBlock 1004 1004) RandomId 1 1 swap ].
Proof.
  assert (Hv : validRange 1000 1005) by (unfold validRange, MAX_BLOCK_RANGE; lia).
  assert (Hr : fst (getEvents threeTickWorld 5000 1000 1005 emptyCache)
    = Json200 [ mkEvent (mkBlock 1000 1000) RandomId 1 1 swap;
                mkEvent (mkBlock 1000 1000) RandomId 2 2 swap;
                mkEvent (mkBlock 1004 1004) RandomId 1 1 swap ]) by (vm_compute; reflexivity).
  split; [exact Hv|]. split; [exact Hr|].
  exact (proj1 (getEvents_sorted threeTickWorld 5000 1000 1005 emptyCache _ Hv Hr)).
Defined.

(** ** The latest safe tick *)

Lemma find_hasTickNumber (n : Z) (l : list Tick) (t : Tick) :
  find (hasTickNumber n) l = Some t -> tickNumber t = Some n.
Proof.
  intros H. apply find_some in H as [_ H].
  unfold hasTickNumber, strictEqZ in H.
  destruct (tickNumber t) as [z|]; [|discriminate].
  apply Z.eqb_eq in H. congruence.
Qed.

Lemma filter_head_holds {A : Type} (p : A -> bool) (l : list A) (x : A) (rest : list A) :
  List.filter p l = x :: rest -> p x = true /\ In x l.
Proof.
  intros H.
  assert (Hin : In x (List.filter p l)) by (rewrite H; left; reflexivity).
  apply filter_In in Hin. tauto.
Qed.

Lemma existsb_filter_nonempty {A : Type} (p : A -> bool) (l : list A) :
  existsb p l = true -> List.filter p l <> [].
Proof.
  intros H Hnil. apply existsb_exists in H as (x & Hin & Hp).
  assert (Hx : In x (List.filter p l)) by (apply filter_In; tauto).
  rewrite Hnil in Hx. exact Hx.
Qed.

(** The selection returns a tick at or below the safe number as soon as
    the collected ticks hold one. *)
Lemma selectSafeTick_older (w : World) (now cur safe : Z) (recent : list Tick) :
  existsb (fun t => leNum (tickNumber t) safe) recent = true ->
  exists t n, selectSafeTick w now cur safe recent = Some t /\
              tickNumber t = Some n /\ n <= safe.
Proof.
  intros Hex. unfold selectSafeTick.
  destruct (find (hasTickNumber safe) recent) as [t|] eqn:Hfind.
  - exists t, safe. apply find_hasTickNumber in Hfind. repeat split; [exact Hfind|lia].
  - destruct (List.filter (fun t => leNum (tickNumber t) safe) recent) as [|older rest] eqn:Hf.
    + exfalso. exact (existsb_filter_nonempty _ _ Hex Hf).
    + apply filter_head_holds in Hf as [Hle _].
      unfold leNum in Hle. destruct (tickNumber older) as [z|] eqn:Hz; [|discriminate].
      exists older, z. repeat split; [exact Hz|]. apply Z.leb_le. exact Hle.
Qed.

Lemma selectSafeTick_nothing (w : World) (now cur safe : Z) :
  newestOfPreviousEpoch w now (cur - 1) = None ->
  selectSafeTick w now cur safe [] = None.
Proof. intros H. unfold selectSafeTick. simpl. exact H. Qed.

(** [getLatestTick] when the head query answers a non-zero number. *)
Lemma getLatestTick_head (w : World) (now : Z) (c : Cache) (H : Z) :
  latestTickResp w = Ok (Some H) -> H <> 0 ->
  fst (getLatestTick w now c) =
    let safe := Z.max 0 (H - LATEST_BLOCK_SAFETY_BUFFER) in
    let cur := fst (getCurrentEpoch w now c) in
    let recent := fst (collectRecentTicks w now cur safe (snd (getCurrentEpoch w now c))) in
    match selectSafeTick w now cur safe recent with
    | Some t => t
    | None => mkTick (Some safe) now (Some cur) None None
    end.
Proof.
  intros Hhead Hnz. unfold getLatestTick. rewrite Hhead.
  destruct (Z.eqb_spec H 0) as [|_]; [contradiction|].
  destruct (getCurrentEpoch w now c) as [cur c1]. simpl.
  destruct (collectRecentTicks w now cur (Z.max 0 (H - LATEST_BLOCK_SAFETY_BUFFER)) c1)
    as [recent c2]. simpl.
  destruct (selectSafeTick w now cur (Z.max 0 (H - LATEST_BLOCK_SAFETY_BUFFER)) recent);
    reflexivity.
Qed.

(** The block of the handler when the first probe succeeds. *)
Lemma getLatestBlock_first_probe (w : World) (now : Z) (c : Cache) (b : Block) :
  tickTransactionsProbe w (tickNumber (fst (getLatestTick w now c))) = true ->
  fst (getLatestBlock w now c) = Json200 b ->
  truthy (tickNumber (fst (getLatestTick w now c))) = true /\
  b = transformTickToBlock now (fst (getLatestTick w now c)).
Proof.
  unfold getLatestBlock, latestBlockTick.
  destruct (getLatestTick w now c) as [t c1]. simpl.
  intros Hprobe.
  destruct (truthy (tickNumber t)); simpl; [|discriminate].
  rewrite Hprobe. simpl. intros Hb. injection Hb as <-. split; reflexivity.
Qed.

Lemma blockNumber_truthy (now : Z) (t : Tick) (n : Z) :
  tickNumber t = Some n -> truthy (tickNumber t) = true ->
  blockNumber (transformTickToBlock now t) = n.
Proof.
  intros Hn Ht. unfold transformTickToBlock, jsOr. simpl. rewrite Ht, Hn.
  rewrite Hn in Ht. simpl in *. destruct (n =? 0); [discriminate|reflexivity].
Qed.

(** C1 at a failing input, an epoch that has only just begun: the head is
    100, the safe number is 90, every listed tick is newer, and the
    selection returns the oldest listed tick, 95, where the branches
    before it keep to the safe number; the handler reports block 95. *)
Theorem getLatestTick_oldest_recent_above_buffer :
  latestTickResp youngEpochWorld = Ok (Some 100) /\
  tickNumber (fst (getLatestTick youngEpochWorld 5000 emptyCache)) = Some 95 /\
  fst (getLatestBlock youngEpochWorld 5000 emptyCache) = Json200 (mkBlock 95 95) /\
  ~ 95 <= 100 - LATEST_BLOCK_SAFETY_BUFFER.
Proof.
  repeat split; try (vm_compute; reflexivity).
  unfold LATEST_BLOCK_SAFETY_BUFFER. lia.
Qed.

(** The same selection at the turn of an epoch: the current epoch lists
    nothing yet, the newest tick of the previous epoch is 99, and the
    selection returns it without a look at the safe number, 90. *)
Lemma getLatestTick_previous_epoch_above_buffer :
  latestTickResp epochTurnWorld = Ok (Some 100) /\
  fst (collectRecentTicks epochTurnWorld 5000 7 90 emptyCache) = [] /\
  tickNumber (fst (getLatestTick epochTurnWorld 5000 emptyCache)) = Some 99 /\
  fst (getLatestBlock epochTurnWorld 5000 emptyCache) = Json200 (mkBlock 99 99) /\
  ~ 99 <= 100 - LATEST_BLOCK_SAFETY_BUFFER.
Proof.
  repeat split; try (vm_compute; reflexivity).
  unfold LATEST_BLOCK_SAFETY_BUFFER. lia.
Qed.

(** The branches that keep to the safe number: for a head [H <> 0],
    [getLatestTick] returns a tick numbered at most [max(0, H - 10)]
    whenever the ticks it collected from the current epoch hold a tick
    numbered at most [max(0, H - 10)] (the exact and the nearest-older
    branch), and also when it found no tick at all (the basic record,
    numbered [max(0, H - 10)]); the handler reports that number when its
    first probe succeeds. *)
Lemma getLatestTick_within_buffer (w : World) (now : Z) (c : Cache) (H : Z) :
  latestTickResp w = Ok (Some H) -> H <> 0 ->
  let safe := Z.max 0 (H - LATEST_BLOCK_SAFETY_BUFFER) in
  let cur := fst (getCurrentEpoch w now c) in
  let recent := fst (collectRecentTicks w now cur safe (snd (getCurrentEpoch w now c))) in
  (existsb (fun t => leNum (tickNumber t) safe) recent = true \/
   (recent = [] /\ newestOfPreviousEpoch w now (cur - 1) = None)) ->
  (exists n, tickNumber (fst (getLatestTick w now c)) = Some n /\ n <= safe) /\
  (forall b,
     tickTransactionsProbe w (tickNumber (fst (getLatestTick w now c))) = true ->
     fst (getLatestBlock w now c) = Json200 b ->
     blockNumber b <= safe).
Proof.
  intros Hhead Hnz safe cur recent Hpath.
  assert (Hn : exists n, tickNumber (fst (getLatestTick w now c)) = Some n /\ n <= safe).
  { rewrite (getLatestTick_head w now c H Hhead Hnz). cbv zeta.
    fold safe. fold cur. fold recent.
    destruct Hpath as [Hex|[Hnil Hprev]].
    - destruct (selectSafeTick_older w now cur safe recent Hex) as (t & n & -> & Ht & Hle).
      exists n. split; assumption.
    - rewrite Hnil, (selectSafeTick_nothing w now cur safe Hprev).
      exists safe. split; [reflexivity|lia]. }
  split; [exact Hn|].
  intros b Hprobe Hb.
  destruct (getLatestBlock_first_probe w now c b Hprobe Hb) as [Htr ->].
  destruct Hn as (n & Ht & Hle).
  rewrite (blockNumber_truthy now _ n Ht Htr). exact Hle.
Qed.

Lemma getLatestTick_within_buffer_witness :
  latestTickResp headListedWorld = Ok (Some 100) /\
  100 <> 0 /\
  tickNumber (fst (getLatestTick headListedWorld 5000 emptyCache)) = Some 90 /\
  exists n, tickNumber (fst (getLatestTick headListedWorld 5000 emptyCache)) = Some n /\
            n <= Z.max 0 (100 - LATEST_BLOCK_SAFETY_BUFFER).
Proof.
  split; [reflexivity|]. split; [discriminate|]. split; [vm_compute; reflexivity|].
  apply (getLatestTick_within_buffer headListedWorld 5000 emptyCache 100).
  - reflexivity.
  - discriminate.
  - left. vm_compute. reflexivity.
Defined.

(** ** The probe of the latest block *)

Lemma pushNormalized_spec (now : Z) (l : list RawTick) (acc : list Tick) (c : Cache) :
  fst (pushNormalized now l acc c) = acc ++ map (normalizeTick now) l.
Proof.
  revert acc c. induction l as [|t rest IH]; intros acc c; simpl.
  - rewrite app_nil_r. reflexivity.
  - rewrite IH, <- app_assoc. reflexivity.
Qed.

Lemma firstn_length_le {A : Type} (n : nat) (l : list A) : (length (firstn n l) <= n)%nat.
Proof. rewrite length_firstn. lia. Qed.

(** The loop of the previous-epoch branch keeps a prefix of the sorted
    ticks; an iteration runs only while its index is below what is still
    wanted, so the ticks kept number about half of [count]. *)
Lemma pushWhileWanted_spec (now count : Z) (l : list RawTick) :
  forall (i : Z) (acc : list Tick) (c : Cache),
  exists k : nat,
    fst (pushWhileWanted now count i l acc c) = acc ++ map (normalizeTick now) (firstn k l) /\
    (k <= length l)%nat /\
    (k = O \/ i + Z.of_nat k - 1 < count - Z.of_nat (length acc) - (Z.of_nat k - 1)) /\
    (Z.of_nat k = Z.of_nat (length l) \/
     ~ i + Z.of_nat k < count - Z.of_nat (length acc) - Z.of_nat k).
Proof.
  induction l as [|t rest IH]; intros i acc c; cbn [pushWhileWanted].
  - exists O. cbn. rewrite app_nil_r.
    split; [reflexivity|]. split; [lia|]. split; [left; reflexivity|left; reflexivity].
  - destruct (Z.ltb_spec i (count - Z.of_nat (length acc))) as [Hlt|Hge].
    + destruct (IH (i + 1) (acc ++ [normalizeTick now t])
                   (setTick (tickNumber (normalizeTick now t)) (normalizeTick now t) c))
        as (k & Hfst & Hk & Hlast & Hstop).
      exists (S k). rewrite Hfst, <- app_assoc. cbn [firstn map app length].
      rewrite length_app in Hlast, Hstop. cbn [length] in Hlast, Hstop.
      split; [reflexivity|]. split; [lia|]. split; [right; lia|lia].
    + exists O. cbn [firstn map Z.of_nat]. rewrite app_nil_r.
      split; [reflexivity|]. split; [lia|]. split; [left; reflexivity|right; lia].
Qed.

(** At most [count] ticks come back. *)
Lemma getRecentValidTicks_length (w : World) (now : Z) (count : Z) (c : Cache) :
  (length (fst (getRecentValidTicks w now count c)) <= Z.to_nat count)%nat.
Proof.
  unfold getRecentValidTicks.
  destruct (getCurrentEpoch w now c) as [cur c0].
  destruct (epochTicksResp w cur 0 500) as [[[|t rest]|]|st]; simpl; try lia.
  - destruct (pushNormalized now _ [] c0) as [v c1] eqn:Hp. simpl.
    rewrite jsSort_length.
    change v with (fst (v, c1)). rewrite <- Hp, pushNormalized_spec. simpl.
    rewrite length_map. apply firstn_length_le.
  - destruct (0 <? cur); simpl; [|lia].
    destruct (epochTicksResp w (cur - 1) 0 500) as [[l|]|st']; simpl; try lia.
    destruct (pushWhileWanted_spec now count (jsSort byRawKeyDesc l) 0 [] c0)
      as (k & Hfst & Hk & Hlast & _).
    destruct (pushWhileWanted now count 0 (jsSort byRawKeyDesc l) [] c0) as [v c1].
    cbn [fst] in *. rewrite jsSort_length. subst v. cbn [app].
    rewrite length_map, length_firstn. cbn [length] in Hlast. lia.
Qed.

(** When the listing of the current epoch fails, the ticks taken from the
    previous epoch number at most half of [count], rounded up: three for
    the five the latest-block handler asks for. *)
Lemma getRecentValidTicks_previous_epoch_half (w : World) (now : Z) (count : Z) (c : Cache)
    (st : Z) :
  epochTicksResp w (fst (getCurrentEpoch w now c)) 0 500 = Failed st ->
  2 * Z.of_nat (length (fst (getRecentValidTicks w now count c))) <= Z.max 0 (count + 1).
Proof.
  unfold getRecentValidTicks.
  destruct (getCurrentEpoch w now c) as [cur c0]. cbn [fst]. intros ->.
  destruct (0 <? cur); simpl; [|lia].
  destruct (epochTicksResp w (cur - 1) 0 500) as [[l|]|st']; simpl; try lia.
  destruct (pushWhileWanted_spec now count (jsSort byRawKeyDesc l) 0 [] c0)
    as (k & Hfst & Hk & Hlast & _).
  destruct (pushWhileWanted now count 0 (jsSort byRawKeyDesc l) [] c0) as [v c1].
  cbn [fst] in *. rewrite jsSort_length. subst v. cbn [app].
  rewrite length_map, length_firstn. cbn [length] in Hlast. lia.
Qed.

Lemma byTickNumberDesc_gt (a b : Tick) :
  ~ byTickNumberDesc a b <= 0 -> byTickNumberDesc b a <= 0.
Proof.
  unfold byTickNumberDesc, cmpResult, numSub.
  destruct (tickNumber a), (tickNumber b); lia.
Qed.

(** The ticks come back most recent first. *)
Lemma getRecentValidTicks_sorted (w : World) (now : Z) (count : Z) (c : Cache) :
  Sorted (fun a b => byTickNumberDesc a b <= 0) (fst (getRecentValidTicks w now count c)).
Proof.
  unfold getRecentValidTicks.
  destruct (getCurrentEpoch w now c) as [cur c0].
  destruct (match epochTicksResp w cur 0 500 with
            | Ok (Some (t :: rest)) => _ | Ok _ => _ | Failed _ => _ end) as [v c1].
  simpl. apply jsSort_Sorted.
  - intros x y Hxy. exact Hxy.
  - intros x y. apply byTickNumberDesc_gt.
Qed.

(** The loop over the safer ticks stops at the first tick whose probe
    succeeds. *)
Lemma firstProbed_Some (w : World) (l : list Tick) (t : Tick) :
  firstProbed w l = Some t ->
  tickTransactionsProbe w (tickNumber t) = true /\
  exists before after,
    l = before ++ t :: after /\
    Forall (fun x => tickTransactionsProbe w (tickNumber x) = false) before.
Proof.
  induction l as [|x rest IH]; simpl; [discriminate|].
  destruct (tickTransactionsProbe w (tickNumber x)) eqn:Hx.
  - intros Heq. injection Heq as <-. split; [exact Hx|].
    exists [], rest. split; [reflexivity|constructor].
  - intros Hrest. destruct (IH Hrest) as (Ht & before & after & -> & Hall).
    split; [exact Ht|].
    exists (x :: before), after. split; [reflexivity|].
    constructor; assumption.
Qed.

Lemma firstProbed_None (w : World) (l : list Tick) :
  firstProbed w l = None ->
  Forall (fun x => tickTransactionsProbe w (tickNumber x) = false) l.
Proof.
  induction l as [|x rest IH]; simpl; [constructor|].
  destruct (tickTransactionsProbe w (tickNumber x)) eqn:Hx; [discriminate|].
  intros Hrest. constructor; [exact Hx|apply IH; exact Hrest].
Qed.

(** C3 at a failing input, an upstream whose first page lists the head
    itself: the candidate 90 fails its probe, the list of "safer" ticks is
    100, 99, 98, 97, 96 - the highest numbers of the page, the head
    included - and the handler returns block 100, the head, which is
    neither older than the head nor within the safety buffer. *)
Theorem getLatestBlock_fallback_reaches_head :
  latestTickResp headListedWorld = Ok (Some 100) /\
  tickNumber (fst (getLatestTick headListedWorld 5000 emptyCache)) = Some 90 /\
  tickTransactionsProbe headListedWorld (Some 90) = false /\
  map tickNumber (fst (getRecentValidTicks headListedWorld 5000 5
                         (snd (getLatestTick headListedWorld 5000 emptyCache))))
    = [Some 100; Some 99; Some 98; Some 97; Some 96] /\
  fst (getLatestBlock headListedWorld 5000 emptyCache) = Json200 (mkBlock 100 100) /\
  ~ 100 < 100.
Proof.
  repeat split; try (vm_compute; reflexivity). lia.
Qed.

(** What the handler does keep: it sends a block only after a probe has
    succeeded, the probe of the path built from [tickNumber] of the tick
    whose block it sends (the block number itself is
    [tickNumber || number]).  It probes the candidate of [getLatestTick]
    first; when that probe fails it probes the ticks of
    [getRecentValidTicks(5)] in order - at most five, most recent first -
    and sends the first one whose probe succeeds; when none succeeds it
    answers with status 500. *)
Lemma getLatestBlock_probed (w : World) (now : Z) (c : Cache) :
  let candidate := fst (getLatestTick w now c) in
  let saferTicks := fst (getRecentValidTicks w now 5 (snd (getLatestTick w now c))) in
  (length saferTicks <= 5)%nat /\
  Sorted (fun a b => byTickNumberDesc a b <= 0) saferTicks /\
  match fst (latestBlockTick w now c) with
  | Json200 t =>
      fst (getLatestBlock w now c) = Json200 (transformTickToBlock now t) /\
      tickTransactionsProbe w (tickNumber t) = true /\
      (t = candidate \/
       (tickTransactionsProbe w (tickNumber candidate) = false /\
        exists before after,
          saferTicks = before ++ t :: after /\
          Forall (fun x => tickTransactionsProbe w (tickNumber x) = false) before))
  | Status500 =>
      fst (getLatestBlock w now c) = Status500 /\
      (truthy (tickNumber candidate) = false \/
       (tickTransactionsProbe w (tickNumber candidate) = false /\
        Forall (fun x => tickTransactionsProbe w (tickNumber x) = false) saferTicks))
  | Status400 => False
  end.
Proof.
  intros candidate saferTicks.
  split; [apply (getRecentValidTicks_length w now 5)|].
  split; [apply getRecentValidTicks_sorted|].
  unfold getLatestBlock, latestBlockTick.
  subst candidate saferTicks.
  destruct (getLatestTick w now c) as [cand c1]. simpl.
  destruct (truthy (tickNumber cand)); simpl; [|split; [reflexivity|left; reflexivity]].
  destruct (tickTransactionsProbe w (tickNumber cand)) eqn:Hprobe; simpl.
  - split; [reflexivity|]. split; [exact Hprobe|left; reflexivity].
  - destruct (getRecentValidTicks w now 5 c1) as [safer c2]. simpl.
    destruct (firstProbed w safer) as [t|] eqn:Hfirst; simpl.
    + apply firstProbed_Some in Hfirst as (Ht & before & after & Hsplit & Hall).
      split; [reflexivity|]. split; [exact Ht|].
      right. split; [reflexivity|]. exists before, after. split; assumption.
    + split; [reflexivity|]. right. split; [reflexivity|].
      apply firstProbed_None. exact Hfirst.
Qed.

(** ** The range collector *)

(** C2 at a failing input.  The range is 1000..1010; no page lists a tick of
    the range; the middle-block lookup of [getTickByNumber 1005] answers
    with the nearest tick a previous epoch offers, 7000; the handler
    returns the event of tick 7000, whose block number lies outside the
    range. *)
Theorem getEvents_middle_fallback_out_of_range :
  validRange 1000 1010 /\
  fst (collectRangePages nearestOnlyWorld 5000 5 1000 1010 None emptyCache) = [] /\
  map tickNumber (fst (getTicksInBlockRange nearestOnlyWorld 5000 1000 1010 None emptyCache))
    = [Some 7000] /\
  fst (getEvents nearestOnlyWorld 5000 1000 1010 emptyCache)
    = Json200 [mkEvent (mkBlock 7000 7000) RandomId 1 1 swap] /\
  ~ (1000 <= 7000 <= 1010).
Proof.
  split; [unfold validRange, MAX_BLOCK_RANGE; lia|].
  repeat split; try (vm_compute; reflexivity). lia.
Qed.

(** C6 at a failing input (the input of C2).  No page of any epoch lists a
    tick between 1000 and 1010, yet the Range Collector returns a tick,
    7000, and the handler returns an event.  On an upstream that lists
    nothing at all the collector returns the placeholder of the middle
    block, 1005. *)
Theorem getEvents_empty_range_not_empty :
  (forall ep page size,
     match epochTicksResp nearestOnlyWorld ep page size with
     | Ok (Some l) => List.filter (inRange 1000 1010) l = []
     | _ => True
     end) /\
  rangeCandidates nearestOnlyWorld 5000 5 1000 1010 = [] /\
  fst (getTicksInBlockRange nearestOnlyWorld 5000 1000 1010 None emptyCache) <> [] /\
  fst (getEvents nearestOnlyWorld 5000 1000 1010 emptyCache) <> Json200 [] /\
  fst (getTicksInBlockRange silentWorld 5000 1000 1010 None emptyCache)
    = [mkTick (Some 1005) 5000 None None None].
Proof.
  split; [|split; [vm_compute; reflexivity|]].
  - intros ep page size. simpl.
    destruct ((ep =? 4) && (page =? 2)); reflexivity.
  - split; [vm_compute; discriminate|].
    split; [vm_compute; discriminate|vm_compute; reflexivity].
Qed.

(** *** The collector reads its pages in order and keeps every listing *)

Lemma cappedApp_full {A : Type} (cap : Z) (acc l : list A) :
  cap <= Z.of_nat (length acc) -> cappedApp cap acc l = acc.
Proof.
  intros H. unfold cappedApp.
  replace (Z.to_nat (cap - Z.of_nat (length acc))) with O by lia.
  simpl. apply app_nil_r.
Qed.

Lemma firstn_cappedApp {A : Type} (cap : Z) (l : list A) :
  firstn (Z.to_nat cap) l = cappedApp cap [] l.
Proof. unfold cappedApp. simpl. rewrite Z.sub_0_r. reflexivity. Qed.

Lemma cappedApp_nil {A : Type} (cap : Z) (acc : list A) : cappedApp cap acc [] = acc.
Proof. unfold cappedApp. rewrite firstn_nil. apply app_nil_r. Qed.

Lemma cappedApp_app {A : Type} (cap : Z) (acc l1 l2 : list A) :
  cappedApp cap (cappedApp cap acc l1) l2 = cappedApp cap acc (l1 ++ l2).
Proof.
  unfold cappedApp.
  rewrite <- app_assoc. f_equal.
  rewrite firstn_app. f_equal. f_equal.
  rewrite length_app, length_firstn. lia.
Qed.

Lemma cappedApp_cons {A : Type} (cap : Z) (acc : list A) (x : A) (l : list A) :
  Z.of_nat (length acc) < cap ->
  cappedApp cap acc (x :: l) = cappedApp cap (acc ++ [x]) l.
Proof.
  intros H. unfold cappedApp.
  replace (Z.to_nat (cap - Z.of_nat (length acc)))
    with (S (Z.to_nat (cap - Z.of_nat (length (acc ++ [x])))))
    by (rewrite length_app; simpl; lia).
  simpl. rewrite <- app_assoc. reflexivity.
Qed.

Lemma pushInRange_spec (now cap : Z) (l : list RawTick) (acc : list Tick) (c : Cache) :
  fst (pushInRange now cap l acc c) = cappedApp cap acc (map (normalizeTick now) l).
Proof.
  revert acc c. induction l as [|t rest IH]; intros acc c; simpl.
  - rewrite cappedApp_nil. reflexivity.
  - destruct (Z.leb_spec cap (Z.of_nat (length acc))) as [Hfull|Hroom].
    + rewrite cappedApp_full by exact Hfull. reflexivity.
    + rewrite IH. symmetry. apply cappedApp_cons. exact Hroom.
Qed.

Lemma collectPage_spec (w : World) (now ep page a b cap : Z) (acc : list Tick) (c : Cache) :
  fst (collectPage w now ep page a b cap acc c)
    = cappedApp cap acc (pageCandidates w now a b ep page).
Proof.
  unfold collectPage, pageCandidates.
  destruct (epochTicksResp w ep page 500) as [[l|]|st];
    try (rewrite cappedApp_nil; reflexivity).
  apply pushInRange_spec.
Qed.

Lemma rangePagesLoop_spec (k : nat) (w : World) (now ep a b cap toPage page : Z)
    (acc : list Tick) (c : Cache) :
  (k <> O -> page + Z.of_nat k - 1 <= toPage) ->
  fst (rangePagesLoop k w now ep a b cap toPage page acc c)
    = cappedApp cap acc (flat_map (pageCandidates w now a b ep) (countFrom k page)).
Proof.
  revert page acc c. induction k as [|k IH]; intros page acc c Hlast.
  - simpl. rewrite cappedApp_nil. reflexivity.
  - cbn [rangePagesLoop countFrom flat_map].
    replace (page <=? toPage) with true by (symmetry; apply Z.leb_le; lia).
    cbn [andb].
    destruct (Z.ltb_spec (Z.of_nat (length acc)) cap) as [Hroom|Hfull].
    + destruct (collectPage w now ep page a b cap acc c) as [acc' c'] eqn:Hpage.
      rewrite IH by lia.
      change acc' with (fst (acc', c')). rewrite <- Hpage, collectPage_spec.
      apply cappedApp_app.
    + rewrite cappedApp_full by exact Hfull. reflexivity.
Qed.

Lemma rangeEpochsLoop_spec (k : nat) (w : World) (now cur a b cap : Z) (off : Z)
    (acc : list Tick) (c : Cache) :
  fst (rangeEpochsLoop k w now cur a b cap (a / 500) (b / 500)
                       (Z.min 10 (b / 500 - a / 500 + 1)) off acc c)
    = cappedApp cap acc
        (flat_map (fun epochOffset =>
                     if cur - epochOffset <? 0 then []
                     else epochCandidates w now a b (cur - epochOffset))
                  (countFrom k off)).
Proof.
  revert off acc c. induction k as [|k IH]; intros off acc c.
  - simpl. rewrite cappedApp_nil. reflexivity.
  - cbn [rangeEpochsLoop countFrom flat_map].
    destruct (Z.ltb_spec (Z.of_nat (length acc)) cap) as [Hroom|Hfull].
    + destruct (cur - off <? 0).
      * rewrite IH. reflexivity.
      * destruct (rangePagesLoop _ w now (cur - off) a b cap (b / 500) (a / 500) acc c)
          as [acc' c'] eqn:Hpages.
        rewrite IH.
        change acc' with (fst (acc', c')). rewrite <- Hpages.
        rewrite rangePagesLoop_spec by (generalize (a / 500) (b / 500); lia).
        apply cappedApp_app.
    + rewrite cappedApp_full by exact Hfull. reflexivity.
Qed.

(** The paged part of the collector returns the first [actualMaxResults]
    candidates, repeats included. *)
Lemma collectRangePages_spec (w : World) (now cur a b : Z) (maxResults : option Z) (c : Cache) :
  fst (collectRangePages w now cur a b maxResults c)
    = firstn (Z.to_nat (actualMax maxResults (b - a + 1))) (rangeCandidates w now cur a b).
Proof.
  unfold collectRangePages, rangeCandidates.
  set (cap := actualMax maxResults (b - a + 1)).
  destruct (rangePagesLoop _ w now cur a b cap (b / 500) (a / 500) [] c)
    as [acc c1] eqn:Hpages.
  assert (Hacc : acc = cappedApp cap [] (epochCandidates w now a b cur)).
  { change acc with (fst (acc, c1)). rewrite <- Hpages.
    apply rangePagesLoop_spec. generalize (a / 500) (b / 500). lia. }
  rewrite (firstn_cappedApp cap), <- cappedApp_app, <- Hacc.
  destruct (Z.ltb_spec (Z.of_nat (length acc)) cap) as [Hroom|Hfull].
  - apply rangeEpochsLoop_spec.
  - rewrite cappedApp_full by exact Hfull. reflexivity.
Qed.

Lemma firstn_nonempty {A : Type} (n : nat) (l : list A) :
  n <> O -> l <> [] -> firstn n l <> [].
Proof. destruct n, l; simpl; congruence. Qed.

(** With at least one candidate the collector returns the kept candidates
    sorted by number; the middle-block lookup is not reached. *)
Lemma getTicksInBlockRange_candidates (w : World) (now a b : Z) (c : Cache) :
  a <= b ->
  rangeCandidates w now (fst (getCurrentEpoch w now c)) a b <> [] ->
  fst (getTicksInBlockRange w now a b None c)
    = jsSort byTickNumberAsc
        (firstn (Z.to_nat (b - a + 1))
                (rangeCandidates w now (fst (getCurrentEpoch w now c)) a b)).
Proof.
  intros Hab Hcands. unfold getTicksInBlockRange.
  destruct (getCurrentEpoch w now c) as [cur c0]. simpl in *.
  destruct (collectRangePages w now cur a b None c0) as [validTicks c1] eqn:Hpages.
  assert (Hv : validTicks = firstn (Z.to_nat (b - a + 1)) (rangeCandidates w now cur a b)).
  { change validTicks with (fst (validTicks, c1)). rewrite <- Hpages.
    apply collectRangePages_spec. }
  destruct validTicks as [|t rest].
  - exfalso. symmetry in Hv. revert Hv. apply firstn_nonempty; [lia|exact Hcands].
  - rewrite <- Hv. reflexivity.
Qed.

(** *** The events of the collected ticks *)

Lemma getTransactionsForTick_seen (w : World) (n : option Z) (c : Cache) :
  fst (getTransactionsForTick w n c) = Returned (transactionsSeen w c n) /\
  forall m, transactionsSeen w (snd (getTransactionsForTick w n c)) m = transactionsSeen w c m.
Proof.
  unfold getTransactionsForTick, transactionsSeen.
  destruct (transactions c !! n) as [cached|] eqn:Hc; simpl.
  - split; [reflexivity|]. intros m. reflexivity.
  - destruct (tickTransactionsResp w n) as [body|st] eqn:Hresp; simpl.
    + split; [destruct body; reflexivity|].
      intros m. destruct (decide (n = m)) as [<-|Hne].
      * rewrite lookup_insert_eq, Hc, Hresp. destruct body; reflexivity.
      * rewrite lookup_insert_ne by exact Hne. reflexivity.
    + split; [reflexivity|]. intros m. reflexivity.
Qed.

Lemma collectEvents_spec (w : World) (now : Z) (l : list Tick) (acc : list Event) (c : Cache) :
  fst (collectEvents w now l acc c)
    = acc ++ flat_map (fun t => transformTransactionsToEvents now
                                  (transactionsSeen w c (tickNumber t)) t) l.
Proof.
  revert acc c. induction l as [|t rest IH]; intros acc c; simpl.
  - rewrite app_nil_r. reflexivity.
  - destruct (getTransactionsForTick_seen w (tickNumber t) c) as [Hret Hseen].
    destruct (getTransactionsForTick w (tickNumber t) c) as [[txns|st] c'];
      simpl in Hret, Hseen; [|discriminate].
    injection Hret as ->.
    rewrite IH, <- app_assoc. f_equal. f_equal.
    apply flat_map_ext. intros x. rewrite Hseen. reflexivity.
Qed.

Lemma transformTransactionsToEvents_block (now : Z) (txns : list RawTxn) (t : Tick) (e : Event) :
  In e (transformTransactionsToEvents now txns t) -> block e = transformTickToBlock now t.
Proof.
  induction txns as [|txn rest IH]; simpl; [tauto|].
  destruct (transformTransaction now t txn) as [e'|] eqn:Htx; [|exact IH].
  intros [<-|Hin]; [|apply IH; exact Hin].
  unfold transformTransaction in Htx.
  destruct (txn_type txn) as [ty|]; [|discriminate].
  destruct (ty =? "")%string; [discriminate|].
  destruct (_mapEventType ty); [|discriminate].
  injection Htx as <-. reflexivity.
Qed.

(** Events of one block with distinct indexes have distinct keys. *)
Lemma NoDup_keys_of_block (bn : Z) (l : list Event) :
  (forall e, In e l -> blockNumber (block e) = bn) ->
  List.NoDup (map eventIndex l) -> List.NoDup (map eventKey l).
Proof.
  induction l as [|e rest IH]; simpl; intros Hbn Hnd; [constructor|].
  inversion Hnd as [|? ? Hnotin Hrest]; subst.
  constructor.
  - intros Hin. apply Hnotin.
    apply in_map_iff in Hin as (e' & Hkey & Hin').
    apply in_map_iff. exists e'. split; [|exact Hin'].
    unfold eventKey in Hkey. congruence.
  - apply IH; [|exact Hrest]. intros e' He'. apply Hbn. right. exact He'.
Qed.

(** Ticks with distinct block numbers, each with distinct event indexes,
    give events with distinct keys. *)
Lemma NoDup_event_keys (now : Z) (txnsOf : Tick -> list RawTxn) (l : list Tick) :
  List.NoDup (map (fun t => blockNumber (transformTickToBlock now t)) l) ->
  (forall t, In t l ->
     List.NoDup (map eventIndex (transformTransactionsToEvents now (txnsOf t) t))) ->
  List.NoDup (map eventKey (flat_map (fun t => transformTransactionsToEvents now (txnsOf t) t) l)).
Proof.
  induction l as [|t rest IH]; simpl; intros Hblocks Hidx; [constructor|].
  inversion Hblocks as [|? ? Hnotin Hrest]; subst.
  rewrite map_app. apply List.NoDup_app.
  - apply (NoDup_keys_of_block (blockNumber (transformTickToBlock now t))).
    + intros e He. rewrite (transformTransactionsToEvents_block now _ t e He). reflexivity.
    + apply Hidx. left. reflexivity.
  - apply IH; [exact Hrest|]. intros t' Ht'. apply Hidx. right. exact Ht'.
  - intros k Hk1 Hk2.
    apply in_map_iff in Hk1 as (e1 & <- & He1).
    apply in_map_iff in Hk2 as (e2 & Hkey & He2).
    apply in_flat_map in He2 as (t' & Ht' & He2).
    apply Hnotin. apply in_map_iff. exists t'. split; [|exact Ht'].
    pose proof (transformTransactionsToEvents_block now _ t' e2 He2) as Hb2.
    pose proof (transformTransactionsToEvents_block now _ t e1 He1) as Hb1.
    change (blockNumber (transformTickToBlock now t')
            = blockNumber (transformTickToBlock now t)).
    rewrite <- Hb2, <- Hb1. unfold eventKey in Hkey. congruence.
Qed.

(** C4, as stated, on an upstream that lists tick 1003 on page 2 of the
    current and of the previous epoch: the collector returns the tick
    twice, and the handler returns its event twice, with the same key. *)
Lemma getEvents_repeated_tick_repeats_key :
  validRange 1000 1010 /\
  map tickNumber (fst (getTicksInBlockRange repeatedTickWorld 5000 1000 1010 None emptyCache))
    = [Some 1003; Some 1003] /\
  fst (getEvents repeatedTickWorld 5000 1000 1010 emptyCache)
    = Json200 [mkEvent (mkBlock 1003 1003) RandomId 1 1 swap;
               mkEvent (mkBlock 1003 1003) RandomId 1 1 swap] /\
  ~ List.NoDup (map eventKey [mkEvent (mkBlock 1003 1003) RandomId 1 1 swap;
                              mkEvent (mkBlock 1003 1003) RandomId 1 1 swap]).
Proof.
  split; [unfold validRange, MAX_BLOCK_RANGE; lia|].
  split; [vm_compute; reflexivity|].
  split; [vm_compute; reflexivity|].
  intros Hnd. inversion Hnd as [|? ? Hnotin _]; subst.
  apply Hnotin. left. reflexivity.
Qed.

(** C4, amended: the Range Collector does not deduplicate.  When the pages
    it reads list a tick of the range, it returns the first [b - a + 1]
    listings of in-range ticks in reading order, sorted by number, one
    entry per listing, so a tick listed on pages of two epochs is returned
    twice.  The events of the request have pairwise distinct keys when
    the kept listings have pairwise distinct block numbers and the events
    of each kept tick have pairwise distinct event indexes. *)
Theorem getEvents_keeps_every_listing (w : World) (now a b : Z) (c : Cache) :
  validRange a b ->
  let cur := fst (getCurrentEpoch w now c) in
  let kept := firstn (Z.to_nat (b - a + 1)) (rangeCandidates w now cur a b) in
  let c1 := snd (getTicksInBlockRange w now a b None c) in
  rangeCandidates w now cur a b <> [] ->
  fst (getTicksInBlockRange w now a b None c) = jsSort byTickNumberAsc kept /\
  (List.NoDup (map (fun t => blockNumber (transformTickToBlock now t)) kept) ->
   (forall t, In t kept ->
      List.NoDup (map eventIndex
                    (transformTransactionsToEvents now
                       (transactionsSeen w c1 (tickNumber t)) t))) ->
   forall evs, fst (getEvents w now a b c) = Json200 evs -> List.NoDup (map eventKey evs)).
Proof.
  intros Hv cur kept c1 Hcands.
  assert (Hticks : fst (getTicksInBlockRange w now a b None c) = jsSort byTickNumberAsc kept).
  { apply getTicksInBlockRange_candidates; [destruct Hv; lia|exact Hcands]. }
  split; [exact Hticks|].
  intros Hblocks Hidx evs Hevs.
  rewrite (getEvents_accepted w now a b c Hv) in Hevs. injection Hevs as <-.
  eapply Permutation_NoDup.
  { apply Permutation_map. apply jsSort_perm. }
  unfold eventsBeforeSort. subst c1.
  destruct (getTicksInBlockRange w now a b None c) as [ticksInRange c1]. simpl in *.
  rewrite collectEvents_spec. simpl. subst ticksInRange.
  apply (NoDup_event_keys now (fun t => transactionsSeen w c1 (tickNumber t))).
  - eapply Permutation_NoDup; [|exact Hblocks].
    apply Permutation_map. apply jsSort_perm.
  - intros t Ht. apply Hidx. apply (jsSort_In byTickNumberAsc). exact Ht.
Qed.

Lemma getEvents_keeps_every_listing_witness :
  validRange 1000 1005 /\
  map tickNumber (rangeCandidates threeTickWorld 5000 5 1000 1005)
    = [Some 1004; Some 1000; Some 1002] /\
  map tickNumber (fst (getTicksInBlockRange threeTickWorld 5000 1000 1005 None emptyCache))
    = [Some 1000; Some 1002; Some 1004] /\
  forall evs,
    fst (getEvents threeTickWorld 5000 1000 1005 emptyCache) = Json200 evs ->
    List.NoDup (map eventKey evs).
Proof.
  assert (Hv : validRange 1000 1005) by (unfold validRange, MAX_BLOCK_RANGE; lia).
  assert (Hc : rangeCandidates threeTickWorld 5000
                 (fst (getCurrentEpoch threeTickWorld 5000 emptyCache)) 1000 1005 <> [])
    by (vm_compute; discriminate).
  destruct (getEvents_keeps_every_listing threeTickWorld 5000 1000 1005 emptyCache Hv Hc)
    as [_ Hkeys].
  split; [exact Hv|].
  split; [vm_compute; reflexivity|].
  split; [vm_compute; reflexivity|].
  apply Hkeys.
  - vm_compute. repeat constructor; simpl; intuition discriminate.
  - intros t Ht. vm_compute in Ht.
    destruct Ht as [<-|[<-|[<-|[]]]]; vm_compute;
      repeat constructor; simpl; intuition discriminate.
Defined.

(** ** Lookup by timestamp *)

(** *** The listing of an epoch is read in finitely many requests *)

Lemma epochPagesLoop_terminates (w : World) (now ep bound : Z) (maxTicks : option Z) :
  listingEnds w bound ep ->
  forall (fuel : nat) (page emptyPageCount : Z) (allTicks : list Tick) (c : Cache),
    0 <= emptyPageCount <= 5 ->
    7 * Z.max 0 (bound - page) + (6 - emptyPageCount) < Z.of_nat fuel ->
    exists r, epochPagesLoop fuel w now ep maxTicks page emptyPageCount allTicks c = Some r.
Proof.
  intros Hends. induction fuel as [|fuel IH]; intros page ec allTicks c Hec Hfuel; [lia|].
  cbn [epochPagesLoop].
  destruct (negb (belowMax (length allTicks) maxTicks)); [eexists; reflexivity|].
  pose proof (Hends page) as Hpage.
  destruct (epochTicksResp w ep page 500) as [[[|t rest]|]|st].
  - destruct (3 <=? ec + 1) eqn:H3; [eexists; reflexivity|].
    apply Z.leb_gt in H3. apply IH; lia.
  - destruct (cacheAndPush now (t :: rest) allTicks c) as [allTicks' c'].
    destruct (Z.ltb_spec (Z.of_nat (length (t :: rest))) 500) as [Hshort|Hfull];
      [eexists; reflexivity|].
    assert (page < bound) by (destruct (Z.lt_ge_cases page bound); [assumption|];
                              specialize (Hpage ltac:(lia)); lia).
    apply IH; lia.
  - destruct (3 <=? ec + 1) eqn:H3; [eexists; reflexivity|].
    apply Z.leb_gt in H3. apply IH; lia.
  - destruct (st =? 429); [|eexists; reflexivity].
    destruct (6 <=? ec + 1) eqn:H6; [eexists; reflexivity|].
    apply Z.leb_gt in H6. apply IH; lia.
Qed.


(** *** What a listing depends on, and what reading it changes *)

Lemma cacheAndPush_spec (now : Z) (l : list RawTick) (acc : list Tick) (c : Cache) :
  fst (cacheAndPush now l acc c) = acc ++ map (normalizeTick now) l /\
  epochData (snd (cacheAndPush now l acc c)) = epochData c.
Proof.
  revert acc c. induction l as [|t rest IH]; intros acc c; simpl.
  - rewrite app_nil_r. split; reflexivity.
  - destruct (IH (acc ++ [normalizeTick now t]) (setTick (rawKey t) (normalizeTick now t) c))
      as [Hl Hc].
    rewrite Hl, Hc, <- app_assoc. split; reflexivity.
Qed.





(** *** The first match of a listing sorted newest first *)




(** *** The scan over the epochs *)

Section TimestampScan.
Context (w : World) (now ts cur bound : Z) (fuel : nat) (c : Cache).
Hypothesis bound_nonneg : 0 <= bound.
Hypothesis listings_end : forall ep, listingEnds w bound ep.
Hypothesis enough_fuel : 7 * bound + 7 <= Z.of_nat fuel.


End TimestampScan.

Lemma threeTickWorld_listings_end (ep : Z) : listingEnds threeTickWorld 0 ep.
Proof.
  intros page _. simpl.
  destruct ((ep =? 5) && (page =? 2)); simpl; lia.
Qed.

(** *** What the paging loop reads from a well-paged upstream *)


Section ReadsAll.
Context (w : World) (now ep last : Z).
Hypothesis full_before : forall page, 0 <= page < last ->
  exists pg, epochTicksResp w ep page 500 = Ok (Some pg) /\ 500 <= Z.of_nat (length pg).
Hypothesis nothing_after : forall page, last < page ->
  match epochTicksResp w ep page 500 with
  | Ok (Some (_ :: _)) => False
  | _ => True
  end.



End ReadsAll.



(** *** The status snapshot survives the scan *)






(** *** The latest safe tick does not depend on the cached ticks *)





(** *** The lookup by timestamp *)





(** ** Ticks picked up from the pages lie in the range *)

Lemma In_firstn {A : Type} (n : nat) (l : list A) (x : A) : In x (firstn n l) -> In x l.
Proof.
  revert l. induction n as [|n IH]; intros [|y l]; simpl; try tauto.
  intros [->|H]; [left; reflexivity|right; apply IH; exact H].
Qed.

Lemma normalizeTick_block_inRange (now a b : Z) (r : RawTick) :
  inRange a b r = true ->
  a <= blockNumber (transformTickToBlock now (normalizeTick now r)) <= b.
Proof.
  unfold inRange, rawKey, transformTickToBlock, normalizeTick, spreadOver, jsOr,
         geNum, leNum, jsOrZ, truthy. simpl.
  intros H. apply andb_prop in H as [Hge Hle].
  destruct (raw_tickNumber r) as [v|], (raw_number r) as [m|]; simpl in *;
    repeat match goal with
           | |- context [?x =? 0] => destruct (Z.eqb_spec x 0); simpl in *
           | H : context [?x =? 0] |- _ => destruct (Z.eqb_spec x 0); simpl in *
           end;
    try discriminate; try lia.
Qed.

Lemma rangeCandidates_inRange (w : World) (now cur a b : Z) (t : Tick) :
  In t (rangeCandidates w now cur a b) ->
  a <= blockNumber (transformTickToBlock now t) <= b.
Proof.
  assert (Hpage : forall ep page, In t (pageCandidates w now a b ep page) ->
                    a <= blockNumber (transformTickToBlock now t) <= b).
  { intros ep page. unfold pageCandidates.
    destruct (epochTicksResp w ep page 500) as [[l|]|st]; simpl; try tauto.
    intros Hin. apply in_map_iff in Hin as (r & <- & Hr).
    apply filter_In in Hr as [_ Hr]. apply normalizeTick_block_inRange. exact Hr. }
  assert (Hepoch : forall ep, In t (epochCandidates w now a b ep) ->
                     a <= blockNumber (transformTickToBlock now t) <= b).
  { intros ep Hin. apply in_flat_map in Hin as (page & _ & Hin). exact (Hpage ep page Hin). }
  unfold rangeCandidates. intros Hin. apply in_app_or in Hin as [Hin|Hin].
  - exact (Hepoch cur Hin).
  - apply in_flat_map in Hin as (off & _ & Hin).
    destruct (cur - off <? 0); [contradiction|]. exact (Hepoch _ Hin).
Qed.

(** When the pages list a tick of the range, every event returned lies in
    the range: the events outside the range come from the middle-block
    lookup only. *)
Lemma getEvents_in_range_when_listed (w : World) (now a b : Z) (c : Cache)
    (evs : list Event) (e : Event) :
  validRange a b ->
  rangeCandidates w now (fst (getCurrentEpoch w now c)) a b <> [] ->
  fst (getEvents w now a b c) = Json200 evs ->
  In e evs ->
  a <= blockNumber (block e) <= b.
Proof.
  intros Hv Hcands Hevs He.
  rewrite (getEvents_accepted w now a b c Hv) in Hevs. injection Hevs as <-.
  apply (proj1 (jsSort_In byBlockThenIndex e _)) in He.
  unfold eventsBeforeSort in He.
  pose proof (getTicksInBlockRange_candidates w now a b c ltac:(destruct Hv; lia) Hcands)
    as Hticks.
  destruct (getTicksInBlockRange w now a b None c) as [ticksInRange c1]. simpl in Hticks.
  rewrite collectEvents_spec in He. simpl in He.
  apply in_flat_map in He as (t & Ht & He).
  rewrite (transformTransactionsToEvents_block now _ t e He).
  apply (rangeCandidates_inRange w now (fst (getCurrentEpoch w now c))).
  rewrite Hticks in Ht. apply (proj1 (jsSort_In byTickNumberAsc t _)) in Ht.
  apply In_firstn in Ht. exact Ht.
Qed.

(** * Further properties of the engine *)

(** ** The status snapshot *)

(** X1: a status answer with a non-zero epoch is kept for 30 seconds: a
    call that finds no fresh snapshot stores the epoch with the time of the
    call, and every call less than 30000 ms later returns that epoch
    without looking at the upstream.  A failed status request answers 152
    and stores nothing. *)
Theorem getCurrentEpoch_snapshot_reused (w1 w2 : World) (now1 now2 : Z) (c : Cache) (e : Z) :
  (status c = None \/ 30000 <= now1 - statusTimestamp c) ->
  (statusResp w1 = Ok (Some e) -> e <> 0 -> now2 - now1 < 30000 ->
     getCurrentEpoch w1 now1 c = (e, setStatus e now1 c) /\
     getCurrentEpoch w2 now2 (setStatus e now1 c) = (e, setStatus e now1 c)) /\
  (forall s, statusResp w1 = Failed s -> getCurrentEpoch w1 now1 c = (152, c)).
Proof.
  intros Hstale.
  assert (Hfetch : getCurrentEpoch w1 now1 c = fetchCurrentEpoch w1 now1 c).
  { unfold getCurrentEpoch. destruct (status c) as [e0|]; [|reflexivity].
    destruct Hstale as [Hn|Hold]; [discriminate|].
    destruct (Z.ltb_spec (now1 - statusTimestamp c) 30000); [lia|reflexivity]. }
  split.
  - intros Hresp Hnz Hsoon. rewrite Hfetch. unfold fetchCurrentEpoch. rewrite Hresp.
    destruct (Z.eqb_spec e 0); [contradiction|]. split; [reflexivity|].
    unfold getCurrentEpoch, setStatus, zOr. simpl.
    destruct (Z.ltb_spec (now2 - now1) 30000); [|lia].
    destruct (Z.eqb_spec e 0); [contradiction|reflexivity].
  - intros s Hresp. rewrite Hfetch. unfold fetchCurrentEpoch. rewrite Hresp. reflexivity.
Qed.

Lemma getCurrentEpoch_snapshot_reused_witness :
  (status emptyCache = None \/ 30000 <= 1000 - statusTimestamp emptyCache) /\
  getCurrentEpoch silentWorld 20000 (snd (getCurrentEpoch threeTickWorld 1000 emptyCache))
    = (5, setStatus 5 1000 emptyCache).
Proof.
  assert (H : status emptyCache = None \/ 30000 <= 1000 - statusTimestamp emptyCache)
    by (left; reflexivity).
  split; [exact H|].
  destruct (getCurrentEpoch_snapshot_reused threeTickWorld silentWorld 1000 20000 emptyCache 5 H)
    as [Hok _].
  destruct Hok as [H1 H2]; [reflexivity|discriminate|lia|].
  rewrite H1. exact H2.
Defined.

(** ** The transaction cache *)

(** X2: once the transactions of a tick have been fetched they are
    served from the cache: after a call whose upstream request did not
    fail, a second call returns the same list and the same cache whatever
    the upstream answers by then.  After a failed request nothing is
    stored, and the next call asks the upstream again. *)
Theorem getTransactionsForTick_served_from_cache (w1 w2 : World) (n : option Z) (c : Cache) :
  ((forall s, tickTransactionsResp w1 n <> Failed s) ->
   getTransactionsForTick w2 n (snd (getTransactionsForTick w1 n c))
     = getTransactionsForTick w1 n c) /\
  (forall s, transactions c !! n = None -> tickTransactionsResp w1 n = Failed s ->
   getTransactionsForTick w2 n (snd (getTransactionsForTick w1 n c))
     = getTransactionsForTick w2 n c).
Proof.
  split.
  - intros Hok. unfold getTransactionsForTick at 2 3.
    destruct (transactions c !! n) as [cached|] eqn:Hc.
    + simpl. unfold getTransactionsForTick. rewrite Hc. reflexivity.
    + destruct (tickTransactionsResp w1 n) as [body|s]; [|exfalso; exact (Hok s eq_refl)].
      simpl. unfold getTransactionsForTick, setTransactions. simpl.
      rewrite lookup_insert_eq. reflexivity.
  - intros s Hc Hfail. unfold getTransactionsForTick at 2. rewrite Hc, Hfail. reflexivity.
Qed.

Lemma getTransactionsForTick_served_from_cache_witness :
  (forall s, tickTransactionsResp threeTickWorld (Some 1000) <> Failed s) /\
  getTransactionsForTick silentWorld (Some 1000)
    (snd (getTransactionsForTick threeTickWorld (Some 1000) emptyCache))
    = getTransactionsForTick threeTickWorld (Some 1000) emptyCache /\
  fst (getTransactionsForTick threeTickWorld (Some 1000) emptyCache)
    = Returned [swapTxn 2; swapTxn 1].
Proof.
  assert (H : forall s, tickTransactionsResp threeTickWorld (Some 1000) <> Failed s)
    by (intros s; simpl; discriminate).
  split; [exact H|]. split; [|reflexivity].
  exact (proj1 (getTransactionsForTick_served_from_cache threeTickWorld silentWorld
                  (Some 1000) emptyCache) H).
Defined.

(** ** The listing of an epoch *)


Lemma epochPagesLoop_listed (w : World) (now ep : Z) (maxTicks : option Z) (fuel : nat) :
  forall (page ec : Z) (allTicks : list Tick) (c : Cache) (l : list Tick) (c1 : Cache),
    epochPagesLoop fuel w now ep maxTicks page ec allTicks c = Some (l, c1) ->
    forall t, In t l -> In t allTicks \/ listedInEpoch w now 500 ep t.
Proof.
  induction fuel as [|fuel IH]; intros page ec allTicks c l c1; cbn [epochPagesLoop].
  - destruct (negb (belowMax (length allTicks) maxTicks)); [|discriminate].
    intros Heq. injection Heq as <- <-. tauto.
  - destruct (negb (belowMax (length allTicks) maxTicks)).
    { intros Heq. injection Heq as <- <-. tauto. }
    destruct (epochTicksResp w ep page 500) as [[[|r rest]|]|st] eqn:Hresp.
    + destruct (3 <=? ec + 1).
      * intros Heq. injection Heq as <- <-. tauto.
      * apply IH.
    + destruct (cacheAndPush_spec now (r :: rest) allTicks c) as [Hl _].
      destruct (cacheAndPush now (r :: rest) allTicks c) as [a1 c'].
      simpl in Hl. subst a1.
      assert (Hnew : forall t, In t (allTicks ++ map (normalizeTick now) (r :: rest)) ->
                       In t allTicks \/ listedInEpoch w now 500 ep t).
      { intros t Ht. apply in_app_or in Ht as [Ht|Ht]; [left; exact Ht|right].
        apply in_map_iff in Ht as (raw & <- & Hraw).
        exists page, (r :: rest), raw. repeat split; assumption. }
      destruct (Z.of_nat (length (r :: rest)) <? 500).
      * intros Heq. injection Heq as <- <-. exact Hnew.
      * intros Hloop t Ht.
        destruct (IH _ _ _ _ _ _ Hloop t Ht) as [Hin|Hlisted]; [apply Hnew; exact Hin|].
        right. exact Hlisted.
    + destruct (3 <=? ec + 1).
      * intros Heq. injection Heq as <- <-. tauto.
      * apply IH.
    + destruct (st =? 429).
      * destruct (6 <=? ec + 1).
        -- intros Heq. injection Heq as <- <-. tauto.
        -- apply IH.
      * intros Heq. injection Heq as <- <-. tauto.
Qed.

(** X3: the listing [getAllTicksFromEpoch] returns is stored as the
    epoch's listing; a listing that is not empty is never read again: every
    later call for the epoch returns it unchanged, whatever the upstream
    lists by then.  A listing read from the upstream is sorted most recent
    first by tick number and holds only normalised ticks that a page of
    that epoch lists. *)
Theorem getAllTicksFromEpoch_listing_kept (fuel : nat) (w : World) (now ep : Z)
    (maxTicks : option Z) (c : Cache) (l : list Tick) (c1 : Cache) :
  getAllTicksFromEpoch fuel w now ep maxTicks c = Some (l, c1) ->
  epochData c1 !! ep = Some l /\
  (l <> [] -> forall fuel2 w2 now2 maxTicks2,
     getAllTicksFromEpoch fuel2 w2 now2 ep maxTicks2 c1 = Some (l, c1)) /\
  ((epochData c !! ep = None \/ epochData c !! ep = Some []) ->
   Sorted (fun a b => byTickNumberDesc a b <= 0) l /\
   forall t, In t l -> listedInEpoch w now 500 ep t).
Proof.
  intros Hread.
  assert (Hstored : epochData c1 !! ep = Some l).
  { unfold getAllTicksFromEpoch in Hread.
    destruct (epochData c !! ep) as [[|t cached]|] eqn:Hc.
    - destruct (epochPagesLoop fuel w now ep maxTicks 0 0 [] c) as [[a c']|]; [|discriminate].
      injection Hread as <- <-. simpl. apply lookup_insert_eq.
    - injection Hread as <- <-. exact Hc.
    - destruct (epochPagesLoop fuel w now ep maxTicks 0 0 [] c) as [[a c']|]; [|discriminate].
      injection Hread as <- <-. simpl. apply lookup_insert_eq. }
  split; [exact Hstored|]. split.
  - intros Hne fuel2 w2 now2 maxTicks2. unfold getAllTicksFromEpoch. rewrite Hstored.
    destruct l; [contradiction|reflexivity].
  - intros Hfresh. unfold getAllTicksFromEpoch in Hread.
    assert (Hloop : exists a c', epochPagesLoop fuel w now ep maxTicks 0 0 [] c = Some (a, c') /\
                                 l = jsSort byTickNumberDesc a).
    { destruct Hfresh as [Hc|Hc]; rewrite Hc in Hread;
        destruct (epochPagesLoop fuel w now ep maxTicks 0 0 [] c) as [[a c']|];
        try discriminate; injection Hread as <- <-; exists a, c'; split; reflexivity. }
    destruct Hloop as (a & c' & Hloop & ->). split.
    + apply jsSort_Sorted; [intros x y Hxy; exact Hxy|intros x y; apply byTickNumberDesc_gt].
    + intros t Ht. apply (proj1 (jsSort_In byTickNumberDesc t a)) in Ht.
      destruct (epochPagesLoop_listed w now ep maxTicks fuel _ _ _ _ _ _ Hloop t Ht)
        as [[]|Hlisted].
      exact Hlisted.
Qed.

Lemma getAllTicksFromEpoch_listing_kept_witness :
  exists l c1,
    getAllTicksFromEpoch 7 threeTickWorld 5000 5 None emptyCache = Some (l, c1) /\
    map tickNumber l = [Some 1004; Some 1002; Some 1000] /\
    getAllTicksFromEpoch 0 silentWorld 9000 5 (Some 1000) c1 = Some (l, c1).
Proof.
  destruct (getAllTicksFromEpoch 7 threeTickWorld 5000 5 None emptyCache) as [[l c1]|] eqn:Hread;
    [|vm_compute in Hread; discriminate].
  exists l, c1. split; [reflexivity|].
  assert (Hl : map tickNumber l = [Some 1004; Some 1002; Some 1000]).
  { assert (H : option_map (fun p => map tickNumber (fst p))
                  (getAllTicksFromEpoch 7 threeTickWorld 5000 5 None emptyCache)
                = Some [Some 1004; Some 1002; Some 1000]) by (vm_compute; reflexivity).
    rewrite Hread in H. simpl in H. injection H as H. exact H. }
  split; [exact Hl|].
  destruct (getAllTicksFromEpoch_listing_kept 7 threeTickWorld 5000 5 None emptyCache l c1 Hread)
    as (_ & Hkept & _).
  apply Hkept. intros ->. discriminate.
Defined.

(** X4: on an upstream whose listing of the epoch ends by page [bound],
    [getAllTicksFromEpoch] returns after at most [7 * bound + 7] page
    requests, whatever the limit [maxTicks] and the cache are. *)
Theorem getAllTicksFromEpoch_request_bound (w : World) (now ep bound : Z)
    (maxTicks : option Z) (fuel : nat) (c : Cache) :
  0 <= bound -> listingEnds w bound ep -> 7 * bound + 7 <= Z.of_nat fuel ->
  exists l c1, getAllTicksFromEpoch fuel w now ep maxTicks c = Some (l, c1).
Proof.
  intros Hb Hends Hfuel. unfold getAllTicksFromEpoch.
  destruct (epochPagesLoop_terminates w now ep bound maxTicks Hends fuel 0 0 [] c)
    as [[l c1] Hloop]; [lia|lia|].
  rewrite Hloop.
  destruct (epochData c !! ep) as [[|t cached]|]; eexists; eexists; reflexivity.
Qed.

Lemma getAllTicksFromEpoch_request_bound_witness :
  0 <= 0 /\ listingEnds threeTickWorld 0 5 /\ 7 * 0 + 7 <= Z.of_nat 7 /\
  exists l c1, getAllTicksFromEpoch 7 threeTickWorld 5000 5 (Some 1000) emptyCache = Some (l, c1).
Proof.
  split; [lia|]. split; [apply threeTickWorld_listings_end|]. split; [simpl; lia|].
  apply (getAllTicksFromEpoch_request_bound threeTickWorld 5000 5 0 (Some 1000) 7 emptyCache);
    [lia|apply threeTickWorld_listings_end|simpl; lia].
Defined.

Lemma fold_numMin_bounds (rest : list (option Z)) :
  forall acc, (forall x, In x rest -> x <> None) ->
    exists m, fold_left numMin rest (Some acc) = Some m /\
              (m = acc \/ In (Some m) rest) /\ m <= acc /\
              forall z, In (Some z) rest -> m <= z.
Proof.
  induction rest as [|x rest IH]; intros acc Hdef; simpl.
  - exists acc. repeat split; [left; reflexivity|lia|tauto].
  - destruct x as [z|]; [|exfalso; apply (Hdef None); [left; reflexivity|reflexivity]].
    simpl. destruct (IH (Z.min acc z)) as (m & Hfold & Hin & Hle & Hall).
    { intros y Hy. apply Hdef. right. exact Hy. }
    exists m. split; [exact Hfold|]. split; [|split].
    + destruct Hin as [->|Hin]; [|right; right; exact Hin].
      destruct (Z.min_spec acc z) as [[_ ->]|[_ ->]]; [left; reflexivity|right; left; reflexivity].
    + lia.
    + intros y [Hy|Hy]; [injection Hy as ->; lia|apply Hall; exact Hy].
Qed.

Lemma fold_numMax_bounds (rest : list (option Z)) :
  forall acc, (forall x, In x rest -> x <> None) ->
    exists m, fold_left numMax rest (Some acc) = Some m /\
              (m = acc \/ In (Some m) rest) /\ acc <= m /\
              forall z, In (Some z) rest -> z <= m.
Proof.
  induction rest as [|x rest IH]; intros acc Hdef; simpl.
  - exists acc. repeat split; [left; reflexivity|lia|tauto].
  - destruct x as [z|]; [|exfalso; apply (Hdef None); [left; reflexivity|reflexivity]].
    simpl. destruct (IH (Z.max acc z)) as (m & Hfold & Hin & Hle & Hall).
    { intros y Hy. apply Hdef. right. exact Hy. }
    exists m. split; [exact Hfold|]. split; [|split].
    + destruct Hin as [->|Hin]; [|right; right; exact Hin].
      destruct (Z.max_spec acc z) as [[_ ->]|[_ ->]]; [right; left; reflexivity|left; reflexivity].
    + lia.
    + intros y [Hy|Hy]; [injection Hy as ->; lia|apply Hall; exact Hy].
Qed.

Lemma mathMin_bounds (xs : list (option Z)) :
  xs <> [] -> (forall x, In x xs -> x <> None) ->
  exists m, mathMin xs = Some m /\ In (Some m) xs /\ forall z, In (Some z) xs -> m <= z.
Proof.
  destruct xs as [|x rest]; [congruence|]. intros _ Hdef.
  destruct x as [z0|]; [|exfalso; apply (Hdef None); [left; reflexivity|reflexivity]].
  destruct (fold_numMin_bounds rest z0) as (m & Hfold & Hin & Hle & Hall).
  { intros y Hy. apply Hdef. right. exact Hy. }
  exists m. split; [exact Hfold|]. split.
  - destruct Hin as [->|Hin]; [left; reflexivity|right; exact Hin].
  - intros z [Hz|Hz]; [injection Hz as ->; exact Hle|apply Hall; exact Hz].
Qed.

Lemma mathMax_bounds (xs : list (option Z)) :
  xs <> [] -> (forall x, In x xs -> x <> None) ->
  exists m, mathMax xs = Some m /\ In (Some m) xs /\ forall z, In (Some z) xs -> z <= m.
Proof.
  destruct xs as [|x rest]; [congruence|]. intros _ Hdef.
  destruct x as [z0|]; [|exfalso; apply (Hdef None); [left; reflexivity|reflexivity]].
  destruct (fold_numMax_bounds rest z0) as (m & Hfold & Hin & Hle & Hall).
  { intros y Hy. apply Hdef. right. exact Hy. }
  exists m. split; [exact Hfold|]. split.
  - destruct Hin as [->|Hin]; [left; reflexivity|right; exact Hin].
  - intros z [Hz|Hz]; [injection Hz as ->; exact Hle|apply Hall; exact Hz].
Qed.

(** X5: when [getAllTicksFromEpoch] reads a non-empty listing whose
    ticks all carry a number, the tick range it stores for the epoch is the
    pair of the smallest and the largest tick number of the listing: both
    occur in the listing and every tick of the listing lies between
    them. *)
Theorem getAllTicksFromEpoch_range (fuel : nat) (w : World) (now ep : Z)
    (maxTicks : option Z) (c : Cache) (l : list Tick) (c1 : Cache) :
  (epochData c !! ep = None \/ epochData c !! ep = Some []) ->
  getAllTicksFromEpoch fuel w now ep maxTicks c = Some (l, c1) ->
  l <> [] ->
  (forall t, In t l -> tickNumber t <> None) ->
  exists lo hi,
    epochRanges c1 !! ep = Some (Some lo, Some hi) /\
    (forall t n, In t l -> tickNumber t = Some n -> lo <= n <= hi) /\
    (exists t, In t l /\ tickNumber t = Some lo) /\
    (exists t, In t l /\ tickNumber t = Some hi).
Proof.
  intros Hfresh Hread Hne Hdef. unfold getAllTicksFromEpoch in Hread.
  assert (Hloop : exists a c', l = jsSort byTickNumberDesc a /\
            c1 = setEpochData ep (jsSort byTickNumberDesc a)
                   (match a with
                    | [] => c'
                    | _ :: _ => setEpochRange ep (mathMin (map tickNumber a),
                                                  mathMax (map tickNumber a)) c'
                    end)).
  { destruct Hfresh as [Hc|Hc]; rewrite Hc in Hread;
      destruct (epochPagesLoop fuel w now ep maxTicks 0 0 [] c) as [[a c']|];
      try discriminate; injection Hread as <- <-; exists a, c'; split; reflexivity. }
  destruct Hloop as (a & c' & -> & ->).
  assert (Hin : forall t, In t a <-> In t (jsSort byTickNumberDesc a))
    by (intros t; symmetry; apply jsSort_In).
  destruct a as [|t0 a']; [exfalso; apply Hne; reflexivity|].
  set (a := t0 :: a') in *.
  assert (Hnums : forall x, In x (map tickNumber a) -> x <> None).
  { intros x Hx. apply in_map_iff in Hx as (t & <- & Ht). apply Hdef, Hin, Ht. }
  destruct (mathMin_bounds (map tickNumber a)) as (lo & Hmin & Hlo & Hlow);
    [discriminate|exact Hnums|].
  destruct (mathMax_bounds (map tickNumber a)) as (hi & Hmax & Hhi & Hhigh);
    [discriminate|exact Hnums|].
  exists lo, hi. split; [|split; [|split]].
  - subst a. unfold setEpochData, setEpochRange. cbn [epochRanges].
    rewrite lookup_insert_eq, Hmin, Hmax. reflexivity.
  - intros t n Ht Hn. apply Hin in Ht.
    assert (Hmem : In (Some n) (map tickNumber a))
      by (apply in_map_iff; exists t; split; assumption).
    split; [apply Hlow|apply Hhigh]; exact Hmem.
  - apply in_map_iff in Hlo as (t & Ht & Hta). exists t. split; [apply Hin; exact Hta|exact Ht].
  - apply in_map_iff in Hhi as (t & Ht & Hta). exists t. split; [apply Hin; exact Hta|exact Ht].
Qed.

Lemma getAllTicksFromEpoch_range_witness :
  exists l c1,
    getAllTicksFromEpoch 7 threeTickWorld 5000 5 None emptyCache = Some (l, c1) /\
    exists lo hi, epochRanges c1 !! 5 = Some (Some lo, Some hi) /\
      forall t n, In t l -> tickNumber t = Some n -> lo <= n <= hi.
Proof.
  destruct (getAllTicksFromEpoch 7 threeTickWorld 5000 5 None emptyCache) as [[l c1]|] eqn:Hread;
    [|vm_compute in Hread; discriminate].
  exists l, c1. split; [reflexivity|].
  assert (Hl : l = map (normalizeTick 5000) [listedTick 1004; listedTick 1002; listedTick 1000]).
  { assert (H : option_map fst (getAllTicksFromEpoch 7 threeTickWorld 5000 5 None emptyCache)
                = Some (map (normalizeTick 5000)
                          [listedTick 1004; listedTick 1002; listedTick 1000]))
      by (vm_compute; reflexivity).
    rewrite Hread in H. simpl in H. injection H as H. exact H. }
  destruct (getAllTicksFromEpoch_range 7 threeTickWorld 5000 5 None emptyCache l c1)
    as (lo & hi & Hrange & Hbounds & _).
  - left. reflexivity.
  - exact Hread.
  - rewrite Hl. discriminate.
  - intros t Ht. rewrite Hl in Ht. simpl in Ht.
    destruct Ht as [<-|[<-|[<-|[]]]]; discriminate.
  - exists lo, hi. split; [exact Hrange|exact Hbounds].
Defined.

(** ** Lookup by number: where the answer comes from *)

Lemma find_listed (w : World) (now ep page n : Z) (pg : list RawTick) (r : RawTick) :
  epochTicksResp w ep page DEFAULT_PAGE_SIZE = Ok (Some pg) ->
  find (hasRawKey n) pg = Some r ->
  listedInEpoch w now 500 ep (normalizeTick now r).
Proof.
  intros Hresp Hfind. apply find_some in Hfind as [Hin _].
  exists page, pg, r. repeat split; assumption.
Qed.

Lemma findOnPage_listed (w : World) (now ep page n : Z) (t : Tick) :
  findOnPage w now ep page n = Some t -> listedInEpoch w now 500 ep t.
Proof.
  unfold findOnPage.
  destruct (epochTicksResp w ep page DEFAULT_PAGE_SIZE) as [[pg|]|st] eqn:Hresp;
    try discriminate.
  destruct (find (hasRawKey n) pg) as [r|] eqn:Hfind; [|discriminate].
  simpl. intros Heq. injection Heq as <-. exact (find_listed w now ep page n pg r Hresp Hfind).
Qed.

Lemma tryEarlierPages_listed (k : nat) (w : World) (now ep est off n : Z) (t : Tick) :
  tryEarlierPages k w now ep est off n = Some t -> listedInEpoch w now 500 ep t.
Proof.
  revert off. induction k as [|k IH]; intros off; simpl; [discriminate|].
  destruct (findOnPage w now ep (Z.max 0 (est - off)) n) as [t'|] eqn:Hpage.
  - intros Heq. injection Heq as <-. exact (findOnPage_listed _ _ _ _ _ _ Hpage).
  - apply IH.
Qed.

Lemma tryLaterPages_listed (k : nat) (w : World) (now ep est off n : Z) (t : Tick) :
  tryLaterPages k w now ep est off n = Some t -> listedInEpoch w now 500 ep t.
Proof.
  revert off. induction k as [|k IH]; intros off; simpl; [discriminate|].
  destruct (findOnPage w now ep (est + off) n) as [t'|] eqn:Hpage.
  - intros Heq. injection Heq as <-. exact (findOnPage_listed _ _ _ _ _ _ Hpage).
  - apply IH.
Qed.

Lemma findInCurrentEpoch_listed (w : World) (now cur est n : Z) (t : Tick) :
  findInCurrentEpoch w now cur est n = Some t -> listedInEpoch w now 500 cur t.
Proof.
  unfold findInCurrentEpoch.
  destruct (epochTicksResp w cur est DEFAULT_PAGE_SIZE) as [[pg|]|st] eqn:Hresp;
    try discriminate.
  destruct (find (hasRawKey n) pg) as [r|] eqn:Hfind.
  - intros Heq. injection Heq as <-. exact (find_listed w now cur est n pg r Hresp Hfind).
  - destruct pg as [|r0 pg']; [discriminate|].
    destruct (ltBound n (mathMin (map rawKey (r0 :: pg')))).
    + destruct (tryEarlierPages 5 w now cur est 1 n) as [t'|] eqn:Hearlier.
      * intros Heq. injection Heq as <-. exact (tryEarlierPages_listed _ _ _ _ _ _ _ _ Hearlier).
      * destruct (gtBound n (mathMax (map rawKey (r0 :: pg')))); [|discriminate].
        apply tryLaterPages_listed.
    + destruct (gtBound n (mathMax (map rawKey (r0 :: pg')))); [|discriminate].
      apply tryLaterPages_listed.
Qed.

Lemma nearestInPage_In (target : Z) (l : list RawTick) :
  forall nearest nd, In (nearestInPage target l nearest nd) (nearest :: l).
Proof.
  induction l as [|x rest IH]; intros nearest nd; simpl; [left; reflexivity|].
  destruct (ltNaN (distanceTo target x) nd).
  - destruct (IH x (distanceTo target x)) as [<-|Hin]; [right; left; reflexivity|].
    right. right. exact Hin.
  - destruct (IH nearest nd) as [<-|Hin]; [left; reflexivity|].
    right. right. exact Hin.
Qed.

Lemma updateBestMatch_In (target : Z) (l : list RawTick) :
  forall best bd r,
    fst (updateBestMatch target l best bd) = Some r -> best = Some r \/ In r l.
Proof.
  induction l as [|x rest IH]; intros best bd r; simpl; [tauto|].
  destruct (closerThan (distanceTo target x) bd); intros H; apply IH in H.
  - destruct H as [H|H]; [injection H as ->; right; left; reflexivity|right; right; exact H].
  - destruct H as [H|H]; [left; exact H|right; right; exact H].
Qed.

Lemma binarySearchLoop_listed (w : World) (now ep target : Z) (k : nat) :
  forall low high best bd t,
    (forall r, best = Some r -> listedInEpoch w now 500 ep (normalizeTick now r)) ->
    binarySearchLoop k w now ep target low high best bd = Some t ->
    listedInEpoch w now 500 ep t.
Proof.
  induction k as [|k IH]; intros low high best bd t Hbest; cbn [binarySearchLoop].
  - destruct best as [r|]; simpl; [|discriminate].
    intros Heq. injection Heq as <-. apply Hbest. reflexivity.
  - assert (Hend : normalizeTickData now best = Some t -> listedInEpoch w now 500 ep t).
    { destruct best as [r|]; simpl; [|discriminate].
      intros Heq. injection Heq as <-. apply Hbest. reflexivity. }
    destruct (epochTicksResp w ep ((low + high) / 2) DEFAULT_PAGE_SIZE)
      as [[[|r0 pg]|]|st] eqn:Hresp.
    + destruct (_ <? low); [exact Hend|apply IH; exact Hbest].
    + destruct (withinBounds target _ _).
      * destruct (find (hasRawKey target) (r0 :: pg)) as [exact|] eqn:Hfind.
        -- intros Heq. injection Heq as <-.
           exact (find_listed w now ep _ target _ exact Hresp Hfind).
        -- intros Heq. injection Heq as <-.
           exists ((low + high) / 2), (r0 :: pg),
                  (nearestInPage target (r0 :: pg) r0 (distanceTo target r0)).
           split; [exact Hresp|]. split; [|reflexivity].
           destruct (nearestInPage_In target (r0 :: pg) r0 (distanceTo target r0)) as [<-|Hin];
             [left; reflexivity|exact Hin].
      * destruct (updateBestMatch target (r0 :: pg) best bd) as [best' bd'] eqn:Hupd.
        assert (Hbest' : forall r, best' = Some r ->
                           listedInEpoch w now 500 ep (normalizeTick now r)).
        { intros r ->.
          destruct (updateBestMatch_In target (r0 :: pg) best bd r) as [Hold|Hnew];
            [rewrite Hupd; reflexivity|apply Hbest; exact Hold|].
          exists ((low + high) / 2), (r0 :: pg), r. repeat split; assumption. }
        destruct (ltBound target _) ; cbv beta iota.
        -- destruct (_ <? _).
           ++ destruct best' as [r|]; simpl; [|discriminate].
              intros Heq. injection Heq as <-. apply Hbest'. reflexivity.
           ++ apply IH. exact Hbest'.
        -- destruct (_ <? _).
           ++ destruct best' as [r|]; simpl; [|discriminate].
              intros Heq. injection Heq as <-. apply Hbest'. reflexivity.
           ++ apply IH. exact Hbest'.
    + destruct (_ <? low); [exact Hend|apply IH; exact Hbest].
    + destruct (Z.odd (low + high)); cbv beta iota;
        (destruct (_ <? _); [exact Hend|apply IH; exact Hbest]).
Qed.

(** X6: [findNearestTickWithBinarySearch] never invents a tick: what it
    returns is the normalisation of a tick that one of the pages of the
    searched epoch lists. *)
Theorem findNearestTickWithBinarySearch_listed (w : World) (now ep target : Z) (t : Tick) :
  findNearestTickWithBinarySearch w now ep target = Some t ->
  listedInEpoch w now 500 ep t.
Proof.
  unfold findNearestTickWithBinarySearch. apply binarySearchLoop_listed.
  intros r Hr. discriminate.
Qed.

Lemma findNearestTickWithBinarySearch_listed_witness :
  findNearestTickWithBinarySearch nearestOnlyWorld 5000 4 1005
    = Some (normalizeTick 5000 (listedTick 7000)) /\
  listedInEpoch nearestOnlyWorld 5000 500 4 (normalizeTick 5000 (listedTick 7000)).
Proof.
  assert (H : findNearestTickWithBinarySearch nearestOnlyWorld 5000 4 1005
              = Some (normalizeTick 5000 (listedTick 7000))) by (vm_compute; reflexivity).
  split; [exact H|].
  exact (findNearestTickWithBinarySearch_listed nearestOnlyWorld 5000 4 1005 _ H).
Defined.

Lemma nearestInPage_closest (target : Z) (l : list RawTick) :
  forall nearest kn,
    rawKey nearest = Some kn ->
    (forall x, In x l -> rawKey x <> None) ->
    exists kr,
      rawKey (nearestInPage target l nearest (distanceTo target nearest)) = Some kr /\
      Z.abs (kr - target) <= Z.abs (kn - target) /\
      forall x kx, In x l -> rawKey x = Some kx -> Z.abs (kr - target) <= Z.abs (kx - target).
Proof.
  induction l as [|x rest IH]; intros nearest kn Hkn Hdef; simpl.
  - exists kn. repeat split; [exact Hkn|lia|tauto].
  - destruct (rawKey x) as [kx|] eqn:Hkx;
      [|exfalso; apply (Hdef x); [left; reflexivity|exact Hkx]].
    assert (Hrest : forall y, In y rest -> rawKey y <> None)
      by (intros y Hy; apply Hdef; right; exact Hy).
    assert (Hdx : distanceTo target x = Some (Z.abs (kx - target)))
      by (unfold distanceTo; rewrite Hkx; reflexivity).
    assert (Hdn : distanceTo target nearest = Some (Z.abs (kn - target)))
      by (unfold distanceTo; rewrite Hkn; reflexivity).
    destruct (ltNaN (distanceTo target x) (distanceTo target nearest)) eqn:Hcmp;
      rewrite Hdx, Hdn in Hcmp; simpl in Hcmp.
    + apply Z.ltb_lt in Hcmp.
      destruct (IH x kx Hkx Hrest) as (kr & Hr & Hle & Hall).
      exists kr. split; [exact Hr|]. split; [lia|].
      intros y ky [->|Hy] Hky; [rewrite Hkx in Hky; injection Hky as <-; exact Hle|].
      apply (Hall y ky Hy Hky).
    + apply Z.ltb_ge in Hcmp.
      destruct (IH nearest kn Hkn Hrest) as (kr & Hr & Hle & Hall).
      exists kr. split; [exact Hr|]. split; [exact Hle|].
      intros y ky [->|Hy] Hky; [rewrite Hkx in Hky; injection Hky as <-; lia|].
      apply (Hall y ky Hy Hky).
Qed.

(** X7: the scan that picks the nearest tick of a page returns a tick of
    the page, and no tick of the page is closer to the target, when every
    tick of the page carries a number. *)
Theorem nearestInPage_is_nearest (target : Z) (r0 : RawTick) (pg : list RawTick) :
  (forall x, In x (r0 :: pg) -> rawKey x <> None) ->
  let r := nearestInPage target (r0 :: pg) r0 (distanceTo target r0) in
  In r (r0 :: pg) /\
  exists kr, rawKey r = Some kr /\
    forall x kx, In x (r0 :: pg) -> rawKey x = Some kx ->
      Z.abs (kr - target) <= Z.abs (kx - target).
Proof.
  intros Hdef r. split.
  - destruct (nearestInPage_In target (r0 :: pg) r0 (distanceTo target r0)) as [H|H];
      [left; exact H|exact H].
  - destruct (rawKey r0) as [k0|] eqn:Hk0;
      [|exfalso; apply (Hdef r0); [left; reflexivity|exact Hk0]].
    destruct (nearestInPage_closest target (r0 :: pg) r0 k0 Hk0 Hdef) as (kr & Hr & _ & Hall).
    exists kr. split; [exact Hr|exact Hall].
Qed.

Lemma nearestInPage_is_nearest_witness :
  rawKey (nearestInPage 1005 [listedTick 1000; listedTick 1004; listedTick 1009]
            (listedTick 1000) (distanceTo 1005 (listedTick 1000))) = Some 1004 /\
  exists kr,
    rawKey (nearestInPage 1005 [listedTick 1000; listedTick 1004; listedTick 1009]
              (listedTick 1000) (distanceTo 1005 (listedTick 1000))) = Some kr /\
    forall x kx, In x [listedTick 1000; listedTick 1004; listedTick 1009] ->
      rawKey x = Some kx -> Z.abs (kr - 1005) <= Z.abs (kx - 1005).
Proof.
  split; [reflexivity|].
  apply (nearestInPage_is_nearest 1005 (listedTick 1000) [listedTick 1004; listedTick 1009]).
  intros x [<-|[<-|[<-|[]]]]; discriminate.
Defined.

Lemma tryPreviousEpochs_listed (k : nat) (w : World) (now cur est n : Z) :
  forall off t,
    tryPreviousEpochs k w now cur est off n = Some t ->
    exists ep, cur - (off + Z.of_nat k - 1) <= ep <= cur - off /\ 0 <= ep /\
               listedInEpoch w now 500 ep t.
Proof.
  induction k as [|k IH]; intros off t; cbn [tryPreviousEpochs]; [discriminate|].
  assert (Hnext : tryPreviousEpochs k w now cur est (off + 1) n = Some t ->
                  exists ep, cur - (off + Z.of_nat (S k) - 1) <= ep <= cur - off /\ 0 <= ep /\
                             listedInEpoch w now 500 ep t).
  { intros H. destruct (IH (off + 1) t H) as (ep & Hep & Hpos & Hl).
    exists ep. split; [lia|]. split; assumption. }
  destruct (Z.ltb_spec (cur - off) 0) as [Hneg|Hpos]; [exact Hnext|].
  destruct (epochTicksResp w (cur - off) est DEFAULT_PAGE_SIZE) as [[pg|]|st] eqn:Hresp;
    try exact Hnext.
  destruct (find (hasRawKey n) pg) as [r|] eqn:Hfind.
  - intros Heq. injection Heq as <-. exists (cur - off). split; [lia|]. split; [lia|].
    exact (find_listed w now (cur - off) est n pg r Hresp Hfind).
  - destruct pg as [|r0 pg']; [exact Hnext|].
    destruct (findNearestTickWithBinarySearch w now (cur - off) n) as [nearest|] eqn:Hnear;
      [|exact Hnext].
    intros Heq. injection Heq as <-. exists (cur - off). split; [lia|]. split; [lia|].
    unfold findNearestTickWithBinarySearch in Hnear.
    apply (binarySearchLoop_listed w now (cur - off) n 8 0 1000 None None); [|exact Hnear].
    intros r Hr. discriminate.
Qed.

(** X8: [getTickByNumber] answers with one of three records: the record
    the cache holds under the requested number; the normalisation of a
    tick that a page of the current epoch or of one of the five previous
    epochs lists, which it stores under the requested number; or a
    placeholder that bears the requested number and the time of the call
    and is not stored. *)
Theorem getTickByNumber_provenance (w : World) (now n : Z) (c : Cache) :
  let t := fst (getTickByNumber w now n c) in
  let c' := snd (getTickByNumber w now n c) in
  let cur := fst (getCurrentEpoch w now c) in
  (ticks c !! Some n = Some t /\ c' = c) \/
  (ticks c !! Some n = None /\ ticks c' !! Some n = Some t /\
   exists ep, cur - 5 <= ep <= cur /\ (ep = cur \/ 0 <= ep) /\ listedInEpoch w now 500 ep t) \/
  (ticks c !! Some n = None /\ ticks c' !! Some n = None /\
   t = mkTick (Some n) now None None None).
Proof.
  unfold getTickByNumber.
  destruct (ticks c !! Some n) as [t0|] eqn:Hc; [left; split; reflexivity|].
  right.
  assert (Hticks : ticks (snd (getCurrentEpoch w now c)) = ticks c).
  { unfold getCurrentEpoch, fetchCurrentEpoch.
    destruct (status c); [destruct (_ <? 30000); [reflexivity|]|];
      destruct (statusResp w) as [[e|]|s]; try reflexivity; destruct (e =? 0); reflexivity. }
  destruct (getCurrentEpoch w now c) as [cur c1]. simpl in *.
  destruct (searchTick w now cur n) as [t|] eqn:Hsearch; simpl.
  - left. split; [reflexivity|]. split; [apply lookup_insert_eq|].
    unfold searchTick in Hsearch.
    destruct (findInCurrentEpoch w now cur (n / DEFAULT_PAGE_SIZE) n) as [t'|] eqn:Hcur.
    + injection Hsearch as <-. exists cur. split; [lia|]. split; [left; reflexivity|].
      exact (findInCurrentEpoch_listed _ _ _ _ _ _ Hcur).
    + destruct (tryPreviousEpochs_listed 5 w now cur _ n 1 t Hsearch) as (ep & Hep & Hpos & Hl).
      exists ep. split; [lia|]. split; [right; exact Hpos|exact Hl].
  - right. split; [reflexivity|]. split; [rewrite Hticks; exact Hc|reflexivity].
Qed.

Lemma rawKey_blockNumber (now n : Z) (r : RawTick) :
  rawKey r = Some n -> blockNumber (transformTickToBlock now (normalizeTick now r)) = n.
Proof.
  unfold rawKey, transformTickToBlock, normalizeTick, spreadOver, jsOr, jsOrZ, truthy. simpl.
  destruct (raw_tickNumber r) as [v|], (raw_number r) as [m|]; simpl;
    repeat match goal with
           | |- context [?x =? 0] => destruct (Z.eqb_spec x 0); simpl
           end;
    intros H; try discriminate; try (injection H as <-); try congruence; try lia.
Qed.

Lemma find_exists {A : Type} (p : A -> bool) (l : list A) :
  (exists x, In x l /\ p x = true) -> exists r, find p l = Some r /\ p r = true.
Proof.
  induction l as [|y rest IH]; intros (x & Hin & Hp); [contradiction|]. simpl.
  destruct (p y) eqn:Hy; [exists y; split; [reflexivity|exact Hy]|].
  apply IH. destruct Hin as [->|Hin]; [congruence|]. exists x. split; assumption.
Qed.

(** X9: when the requested number is not cached and the estimated page
    of the current epoch lists a tick with that number, [getTickByNumber]
    returns that exact tick - its block number is the requested number -
    and stores it under the number. *)
Theorem getTickByNumber_exact (w : World) (now n : Z) (c : Cache) (pg : list RawTick) :
  ticks c !! Some n = None ->
  epochTicksResp w (fst (getCurrentEpoch w now c)) (n / DEFAULT_PAGE_SIZE) DEFAULT_PAGE_SIZE
    = Ok (Some pg) ->
  (exists raw, In raw pg /\ rawKey raw = Some n) ->
  exists raw,
    In raw pg /\ rawKey raw = Some n /\
    fst (getTickByNumber w now n c) = normalizeTick now raw /\
    blockNumber (transformTickToBlock now (fst (getTickByNumber w now n c))) = n /\
    ticks (snd (getTickByNumber w now n c)) !! Some n = Some (normalizeTick now raw).
Proof.
  intros Hc Hresp (raw & Hin & Hkey).
  destruct (find_exists (hasRawKey n) pg) as (r & Hfind & Hr).
  { exists raw. split; [exact Hin|]. unfold hasRawKey. rewrite Hkey. simpl. apply Z.eqb_refl. }
  assert (Hrk : rawKey r = Some n).
  { unfold hasRawKey, strictEqZ in Hr. destruct (rawKey r) as [z|]; [|discriminate].
    apply Z.eqb_eq in Hr. congruence. }
  exists r. split; [apply (find_some _ _ Hfind)|]. split; [exact Hrk|].
  unfold getTickByNumber. rewrite Hc.
  destruct (getCurrentEpoch w now c) as [cur c1]. simpl in Hresp.
  unfold searchTick, findInCurrentEpoch. rewrite Hresp, Hfind. simpl.
  split; [reflexivity|]. split; [|apply lookup_insert_eq].
  apply (rawKey_blockNumber now n r Hrk).
Qed.

Lemma getTickByNumber_exact_witness :
  ticks emptyCache !! Some 1002 = None /\
  fst (getTickByNumber threeTickWorld 5000 1002 emptyCache)
    = normalizeTick 5000 (listedTick 1002) /\
  exists raw,
    In raw [listedTick 1004; listedTick 1000; listedTick 1002] /\ rawKey raw = Some 1002 /\
    fst (getTickByNumber threeTickWorld 5000 1002 emptyCache) = normalizeTick 5000 raw /\
    blockNumber (transformTickToBlock 5000 (fst (getTickByNumber threeTickWorld 5000 1002 emptyCache)))
      = 1002 /\
    ticks (snd (getTickByNumber threeTickWorld 5000 1002 emptyCache)) !! Some 1002
      = Some (normalizeTick 5000 raw).
Proof.
  split; [reflexivity|]. split; [vm_compute; reflexivity|].
  apply (getTickByNumber_exact threeTickWorld 5000 1002 emptyCache).
  - reflexivity.
  - vm_compute. reflexivity.
  - exists (listedTick 1002). split; [right; right; left; reflexivity|reflexivity].
Defined.

(** ** The range collector: order, size and cache *)

Lemma byTickNumberAsc_gt (a b : Tick) :
  ~ byTickNumberAsc a b <= 0 -> byTickNumberAsc b a <= 0.
Proof.
  unfold byTickNumberAsc, cmpResult, numSub.
  destruct (tickNumber a), (tickNumber b); lia.
Qed.

(** X10: the ticks [getTicksInBlockRange] returns are sorted ascending by
    tick number, and there are at most [min(maxResults, toBlock - fromBlock
    + 1)] of them, or one when that bound is smaller than one and the
    middle-block lookup supplies a tick. *)
Theorem getTicksInBlockRange_sorted_bounded (w : World) (now a b : Z)
    (maxResults : option Z) (c : Cache) :
  let l := fst (getTicksInBlockRange w now a b maxResults c) in
  Sorted (fun x y => byTickNumberAsc x y <= 0) l /\
  Z.of_nat (length l) <= Z.max 1 (actualMax maxResults (b - a + 1)).
Proof.
  unfold getTicksInBlockRange.
  destruct (getCurrentEpoch w now c) as [cur c0].
  pose proof (collectRangePages_spec w now cur a b maxResults c0) as Hpages.
  destruct (collectRangePages w now cur a b maxResults c0) as [validTicks c1].
  simpl in Hpages.
  destruct validTicks as [|t rest].
  - destruct (b - a + 1 <=? 1000).
    + destruct (getTickByNumber w now ((a + b) / 2) c1) as [middleTick c'].
      destruct (error middleTick); simpl.
      * split; [constructor|lia].
      * split; [repeat constructor|lia].
    + simpl. split; [constructor|lia].
  - cbv beta iota zeta. cbn [fst]. split.
    + apply jsSort_Sorted; [intros x y Hxy; exact Hxy|intros x y; apply byTickNumberAsc_gt].
    + rewrite jsSort_length, Hpages.
      pose proof (firstn_length_le (Z.to_nat (actualMax maxResults (b - a + 1)))
                    (rangeCandidates w now cur a b)).
      lia.
Qed.

(** X11: for a range of more than 1000 blocks of which the target pages
    list no tick, [getTicksInBlockRange] returns the empty list - the
    middle-block lookup is not tried - and the events handler answers with
    an empty list of events. *)
Theorem getTicksInBlockRange_large_range_empty (w : World) (now a b : Z) (c : Cache) :
  validRange a b ->
  1000 < b - a + 1 ->
  rangeCandidates w now (fst (getCurrentEpoch w now c)) a b = [] ->
  fst (getTicksInBlockRange w now a b None c) = [] /\
  fst (getEvents w now a b c) = Json200 [].
Proof.
  intros Hv Hlarge Hnone.
  assert (Hticks : fst (getTicksInBlockRange w now a b None c) = []).
  { unfold getTicksInBlockRange.
    destruct (getCurrentEpoch w now c) as [cur c0]. simpl in Hnone.
    pose proof (collectRangePages_spec w now cur a b None c0) as Hpages.
    destruct (collectRangePages w now cur a b None c0) as [validTicks c1].
    simpl in Hpages. rewrite Hnone, firstn_nil in Hpages. subst validTicks.
    destruct (Z.leb_spec (b - a + 1) 1000); [lia|reflexivity]. }
  split; [exact Hticks|].
  rewrite (getEvents_accepted w now a b c Hv). unfold eventsBeforeSort.
  destruct (getTicksInBlockRange w now a b None c) as [l c1]. simpl in Hticks. subst l.
  reflexivity.
Qed.

Lemma getTicksInBlockRange_large_range_empty_witness :
  validRange 10000 12000 /\ 1000 < 12000 - 10000 + 1 /\
  fst (getTicksInBlockRange nearestOnlyWorld 5000 10000 12000 None emptyCache) = [] /\
  fst (getEvents nearestOnlyWorld 5000 10000 12000 emptyCache) = Json200 [].
Proof.
  assert (Hv : validRange 10000 12000) by (unfold validRange, MAX_BLOCK_RANGE; lia).
  split; [exact Hv|]. split; [lia|].
  apply (getTicksInBlockRange_large_range_empty nearestOnlyWorld 5000 10000 12000 emptyCache);
    [exact Hv|lia|vm_compute; reflexivity].
Defined.


Lemma storedByNumber_push (acc : list Tick) (c : Cache) (n : Tick) :
  storedByNumber acc c -> storedByNumber (acc ++ [n]) (setTick (tickNumber n) n c).
Proof.
  intros Hinv t Ht. simpl.
  destruct (decide (tickNumber n = tickNumber t)) as [Heq|Hne].
  - exists n. split; [rewrite <- Heq; apply lookup_insert_eq|exact Heq].
  - rewrite lookup_insert_ne by exact Hne.
    apply in_app_or in Ht as [Ht|[<-|[]]]; [apply Hinv; exact Ht|contradiction].
Qed.

Lemma pushInRange_stored (now cap : Z) (l : list RawTick) :
  forall acc c, storedByNumber acc c ->
    storedByNumber (fst (pushInRange now cap l acc c)) (snd (pushInRange now cap l acc c)).
Proof.
  induction l as [|r rest IH]; intros acc c Hinv; simpl; [exact Hinv|].
  destruct (cap <=? Z.of_nat (length acc)); [exact Hinv|].
  apply IH. apply storedByNumber_push. exact Hinv.
Qed.

Lemma collectPage_stored (w : World) (now ep page a b cap : Z) (acc : list Tick) (c : Cache) :
  storedByNumber acc c ->
  storedByNumber (fst (collectPage w now ep page a b cap acc c))
                 (snd (collectPage w now ep page a b cap acc c)).
Proof.
  intros Hinv. unfold collectPage.
  destruct (epochTicksResp w ep page 500) as [[l|]|st]; try exact Hinv.
  apply pushInRange_stored. exact Hinv.
Qed.

Lemma rangePagesLoop_stored (k : nat) (w : World) (now ep a b cap toPage : Z) :
  forall page acc c, storedByNumber acc c ->
    storedByNumber (fst (rangePagesLoop k w now ep a b cap toPage page acc c))
                   (snd (rangePagesLoop k w now ep a b cap toPage page acc c)).
Proof.
  induction k as [|k IH]; intros page acc c Hinv; cbn [rangePagesLoop]; [exact Hinv|].
  destruct ((page <=? toPage) && (Z.of_nat (length acc) <? cap)); [|exact Hinv].
  pose proof (collectPage_stored w now ep page a b cap acc c Hinv) as Hpage.
  destruct (collectPage w now ep page a b cap acc c) as [acc' c']. apply IH. exact Hpage.
Qed.

Lemma rangeEpochsLoop_stored (k : nat) (w : World) (now cur a b cap fp tp pc : Z) :
  forall off acc c, storedByNumber acc c ->
    storedByNumber (fst (rangeEpochsLoop k w now cur a b cap fp tp pc off acc c))
                   (snd (rangeEpochsLoop k w now cur a b cap fp tp pc off acc c)).
Proof.
  induction k as [|k IH]; intros off acc c Hinv; cbn [rangeEpochsLoop]; [exact Hinv|].
  destruct (Z.of_nat (length acc) <? cap); [|exact Hinv].
  destruct (cur - off <? 0); [apply IH; exact Hinv|].
  pose proof (rangePagesLoop_stored (Z.to_nat pc) w now (cur - off) a b cap tp fp acc c Hinv)
    as Hpages.
  destruct (rangePagesLoop (Z.to_nat pc) w now (cur - off) a b cap tp fp acc c) as [acc' c'].
  apply IH. exact Hpages.
Qed.

Lemma collectRangePages_stored (w : World) (now cur a b : Z) (maxResults : option Z) (c : Cache) :
  storedByNumber (fst (collectRangePages w now cur a b maxResults c))
                 (snd (collectRangePages w now cur a b maxResults c)).
Proof.
  unfold collectRangePages.
  pose proof (rangePagesLoop_stored
                (Z.to_nat (Z.min 10 (b / 500 - a / 500 + 1))) w now cur a b
                (actualMax maxResults (b - a + 1)) (b / 500) (a / 500) [] c) as Hpages.
  destruct (rangePagesLoop _ w now cur a b _ (b / 500) (a / 500) [] c) as [acc c1].
  assert (Hinv : storedByNumber acc c1) by (apply Hpages; intros t []).
  destruct (Z.of_nat (length acc) <? actualMax maxResults (b - a + 1)); [|exact Hinv].
  apply rangeEpochsLoop_stored. exact Hinv.
Qed.

(** X12: a tick that [getTicksInBlockRange] picks up from the pages is
    stored in the tick cache under its number, so a later
    [getTickByNumber] for that number is answered from the cache - with a
    record of that number, without a request and without a change of the
    cache - whatever the upstream lists by then. *)
Theorem getTicksInBlockRange_then_getTickByNumber (w w2 : World) (now now2 a b : Z)
    (c : Cache) (t : Tick) (n : Z) :
  a <= b ->
  rangeCandidates w now (fst (getCurrentEpoch w now c)) a b <> [] ->
  In t (fst (getTicksInBlockRange w now a b None c)) ->
  tickNumber t = Some n ->
  let c' := snd (getTicksInBlockRange w now a b None c) in
  exists t',
    getTickByNumber w2 now2 n c' = (t', c') /\ tickNumber t' = Some n.
Proof.
  intros Hab Hcands Ht Hn c'. subst c'.
  unfold getTicksInBlockRange in *.
  destruct (getCurrentEpoch w now c) as [cur c0]. simpl in Hcands.
  pose proof (collectRangePages_spec w now cur a b None c0) as Hpages.
  pose proof (collectRangePages_stored w now cur a b None c0) as Hstored.
  destruct (collectRangePages w now cur a b None c0) as [validTicks c1].
  simpl in Hpages, Hstored.
  destruct validTicks as [|t0 rest].
  - exfalso. symmetry in Hpages. revert Hpages.
    apply firstn_nonempty; [simpl; lia|exact Hcands].
  - cbv beta iota zeta in Ht. cbn [fst snd] in *. cbv beta iota zeta.
    apply (proj1 (jsSort_In byTickNumberAsc t _)) in Ht.
    destruct (Hstored t Ht) as (t' & Hlook & Hnum).
    exists t'. rewrite Hn in Hlook, Hnum. split; [|exact Hnum].
    unfold getTickByNumber. rewrite Hlook. reflexivity.
Qed.

Lemma getTicksInBlockRange_then_getTickByNumber_witness :
  1000 <= 1005 /\
  exists t',
    getTickByNumber silentWorld 9000 1002
      (snd (getTicksInBlockRange threeTickWorld 5000 1000 1005 None emptyCache))
    = (t', snd (getTicksInBlockRange threeTickWorld 5000 1000 1005 None emptyCache)) /\
    tickNumber t' = Some 1002.
Proof.
  split; [lia|].
  apply (getTicksInBlockRange_then_getTickByNumber threeTickWorld silentWorld 5000 9000
           1000 1005 emptyCache (normalizeTick 5000 (listedTick 1002)) 1002).
  - lia.
  - vm_compute. discriminate.
  - vm_compute. right. left. reflexivity.
  - reflexivity.
Defined.

(** X13: when one of the pages read for an accepted range lists a tick of
    the range, the events handler answers 200 and every event of the answer
    has a block number within [fromBlock, toBlock]: blocks outside the range
    can enter through the middle-block lookup only, which runs when the
    pages list nothing. *)
Theorem getEvents_listed_events_in_range (w : World) (now a b : Z) (c : Cache) :
  validRange a b ->
  rangeCandidates w now (fst (getCurrentEpoch w now c)) a b <> [] ->
  exists evs,
    fst (getEvents w now a b c) = Json200 evs /\
    Forall (fun e => a <= blockNumber (block e) <= b) evs.
Proof.
  intros Hv Hcands. exists (jsSort byBlockThenIndex (eventsBeforeSort w now a b c)).
  pose proof (getEvents_accepted w now a b c Hv) as Hevs.
  split; [exact Hevs|]. apply List.Forall_forall. intros e He.
  exact (getEvents_in_range_when_listed w now a b c _ e Hv Hcands Hevs He).
Qed.

Lemma getEvents_listed_events_in_range_witness :
  validRange 1000 1005 /\
  exists evs,
    fst (getEvents threeTickWorld 5000 1000 1005 emptyCache) = Json200 evs /\
    Forall (fun e => 1000 <= blockNumber (block e) <= 1005) evs.
Proof.
  assert (Hv : validRange 1000 1005) by (unfold validRange, MAX_BLOCK_RANGE; lia).
  split; [exact Hv|].
  apply (getEvents_listed_events_in_range threeTickWorld 5000 1000 1005 emptyCache Hv).
  vm_compute. discriminate.
Defined.

(** ** The handlers at their edges *)

(** X14: when the head request fails, or answers without a head number
    or with the number 0, the latest-block handler answers with status 500
    and leaves the cache as it was. *)
Theorem getLatestBlock_without_head (w : World) (now : Z) (c : Cache) :
  (latestTickResp w = Ok None \/ latestTickResp w = Ok (Some 0) \/
   exists s, latestTickResp w = Failed s) ->
  getLatestBlock w now c = (Status500, c).
Proof.
  intros Hhead. unfold getLatestBlock, latestBlockTick, getLatestTick.
  destruct Hhead as [->|[->|[s ->]]]; reflexivity.
Qed.

Lemma getLatestBlock_without_head_witness :
  (latestTickResp downWorld = Ok None \/ latestTickResp downWorld = Ok (Some 0) \/
   exists s, latestTickResp downWorld = Failed s) /\
  getLatestBlock downWorld 5000 emptyCache = (Status500, emptyCache).
Proof.
  assert (H : latestTickResp downWorld = Ok None \/ latestTickResp downWorld = Ok (Some 0) \/
              exists s, latestTickResp downWorld = Failed s)
    by (right; right; exists 503; reflexivity).
  split; [exact H|]. exact (getLatestBlock_without_head downWorld 5000 emptyCache H).
Defined.

(** X15: the events handler answers with status 400, without a request to
    the upstream and without a change of the cache, exactly for the ranges
    that are negative, inverted or longer than 100000 blocks; every other
    range is answered with a list of events. *)
Theorem getEvents_validation (w : World) (now a b : Z) (c : Cache) :
  (~ validRange a b -> getEvents w now a b c = (Status400, c)) /\
  (validRange a b -> exists evs, fst (getEvents w now a b c) = Json200 evs).
Proof.
  split.
  - intros Hinvalid. unfold getEvents.
    destruct (Z.ltb_spec a 0) as [Ha|Ha]; [reflexivity|].
    destruct (Z.ltb_spec b 0) as [Hb|Hb]; [reflexivity|]. simpl.
    destruct (Z.ltb_spec b a) as [Hba|Hba]; [reflexivity|].
    destruct (Z.ltb_spec MAX_BLOCK_RANGE (b - a + 1)) as [Hmax|Hmax]; [reflexivity|].
    exfalso. apply Hinvalid. unfold validRange. lia.
  - intros Hv. eexists. apply (getEvents_accepted w now a b c Hv).
Qed.

Lemma getEvents_validation_witness :
  ~ validRange 5 3 /\
  getEvents threeTickWorld 5000 5 3 emptyCache = (Status400, emptyCache) /\
  getEvents threeTickWorld 5000 0 100000 emptyCache = (Status400, emptyCache) /\
  validRange 1 100000 /\
  exists evs, fst (getEvents threeTickWorld 5000 1 100000 emptyCache) = Json200 evs.
Proof.
  assert (H1 : ~ validRange 5 3) by (unfold validRange; lia).
  assert (H2 : ~ validRange 0 100000) by (unfold validRange, MAX_BLOCK_RANGE; lia).
  assert (H3 : validRange 1 100000) by (unfold validRange, MAX_BLOCK_RANGE; lia).
  split; [exact H1|].
  split; [exact (proj1 (getEvents_validation threeTickWorld 5000 5 3 emptyCache) H1)|].
  split; [exact (proj1 (getEvents_validation threeTickWorld 5000 0 100000 emptyCache) H2)|].
  split; [exact H3|].
  exact (proj2 (getEvents_validation threeTickWorld 5000 1 100000 emptyCache) H3).
Defined.

(** ** From transactions to events *)

Lemma transformTransaction_fields (now : Z) (tickData : Tick) (txn : RawTxn) (e : Event) :
  transformTransaction now tickData txn = Some e <->
  exists ty, txn_type txn = Some ty /\ _mapEventType ty = Some (eventType e) /\
             e = mkEvent (transformTickToBlock now tickData) (txnIdOf txn)
                         (jsOrZ (txn_index txn) 0) (jsOrZ (txn_eventIndex txn) 0) (eventType e).
Proof.
  unfold transformTransaction. split.
  - destruct (txn_type txn) as [ty|]; [|discriminate].
    destruct (ty =? "")%string; [discriminate|].
    destruct (_mapEventType ty) as [et|] eqn:Hmap; [|discriminate].
    intros Heq. injection Heq as <-. exists ty. repeat split. exact Hmap.
  - intros (ty & -> & Hmap & ->).
    destruct (String.eqb_spec ty "") as [->|_]; [discriminate|].
    rewrite Hmap. reflexivity.
Qed.

Lemma transformTransactionsToEvents_length (now : Z) (txns : list RawTxn) (tickData : Tick) :
  (length (transformTransactionsToEvents now txns tickData) <= length txns)%nat.
Proof.
  induction txns as [|txn rest IH]; simpl; [lia|].
  destruct (transformTransaction now tickData txn); simpl; lia.
Qed.

Lemma transformTransactionsToEvents_In (now : Z) (txns : list RawTxn) (tickData : Tick)
    (e : Event) :
  In e (transformTransactionsToEvents now txns tickData) <->
  exists txn, In txn txns /\ transformTransaction now tickData txn = Some e.
Proof.
  induction txns as [|txn rest IH]; simpl.
  - split; [tauto|intros (x & [] & _)].
  - destruct (transformTransaction now tickData txn) as [e'|] eqn:Htx; simpl.
    + rewrite IH. split.
      * intros [<-|(x & Hx & Hxe)]; [exists txn; split; [left; reflexivity|exact Htx]|].
        exists x. split; [right; exact Hx|exact Hxe].
      * intros (x & [<-|Hx] & Hxe); [left; congruence|].
        right. exists x. split; assumption.
    + rewrite IH. split.
      * intros (x & Hx & Hxe). exists x. split; [right; exact Hx|exact Hxe].
      * intros (x & [<-|Hx] & Hxe); [congruence|]. exists x. split; assumption.
Qed.

(** The id of an event, read off the transaction: its [id], else its
    [txId], else a random string. *)
Lemma txnIdOf_cases (txn : RawTxn) :
  (forall s, txn_id txn = Some s -> s <> ""%string -> txnIdOf txn = GivenId s) /\
  (forall s, strTruthy (txn_id txn) = false -> txn_txId txn = Some s -> s <> ""%string ->
     txnIdOf txn = GivenId s) /\
  (strTruthy (txn_id txn) = false -> strTruthy (txn_txId txn) = false ->
     txnIdOf txn = RandomId).
Proof.
  unfold txnIdOf, strTruthy. repeat split.
  - intros s -> Hs. destruct (String.eqb_spec s ""); [contradiction|reflexivity].
  - intros s Hid -> Hs.
    destruct (txn_id txn) as [i|];
      [destruct (i =? "")%string; [|discriminate]|];
      destruct (String.eqb_spec s ""); try contradiction; reflexivity.
  - intros Hid Htx.
    destruct (txn_id txn) as [i|];
      [destruct (i =? "")%string; [|discriminate]|];
      (destruct (txn_txId txn) as [j|]; [destruct (j =? "")%string; [|discriminate]|]);
      reflexivity.
Qed.


(** X16: [transformTransactionsToEvents] yields exactly one event for
    every transaction whose type the type table knows and none for the
    others.  Every event stems from such a transaction: it carries the
    block of the tick, the event type of the table, the transaction's
    indexes (0 when missing) and, as its id, the [id] of the transaction,
    else its [txId], else a random string.  Every transaction with a known
    type has its event in the result. *)
Theorem transformTransactionsToEvents_sound_complete (now : Z) (txns : list RawTxn)
    (tickData : Tick) :
  length (transformTransactionsToEvents now txns tickData)
    = length (List.filter knownType txns) /\
  (length (transformTransactionsToEvents now txns tickData) <= length txns)%nat /\
  (forall e, In e (transformTransactionsToEvents now txns tickData) ->
     exists txn ty,
       In txn txns /\ txn_type txn = Some ty /\ _mapEventType ty = Some (eventType e) /\
       block e = transformTickToBlock now tickData /\
       txnIndex e = jsOrZ (txn_index txn) 0 /\
       eventIndex e = jsOrZ (txn_eventIndex txn) 0 /\
       (forall s, txn_id txn = Some s -> s <> ""%string -> txnId e = GivenId s) /\
       (forall s, strTruthy (txn_id txn) = false -> txn_txId txn = Some s -> s <> ""%string ->
          txnId e = GivenId s) /\
       (strTruthy (txn_id txn) = false -> strTruthy (txn_txId txn) = false ->
          txnId e = RandomId)) /\
  (forall txn ty et, In txn txns -> txn_type txn = Some ty -> _mapEventType ty = Some et ->
     exists e,
       In e (transformTransactionsToEvents now txns tickData) /\
       block e = transformTickToBlock now tickData /\
       eventType e = et /\
       txnIndex e = jsOrZ (txn_index txn) 0 /\
       eventIndex e = jsOrZ (txn_eventIndex txn) 0 /\
       (forall s, txn_id txn = Some s -> s <> ""%string -> txnId e = GivenId s) /\
       (forall s, strTruthy (txn_id txn) = false -> txn_txId txn = Some s -> s <> ""%string ->
          txnId e = GivenId s) /\
       (strTruthy (txn_id txn) = false -> strTruthy (txn_txId txn) = false ->
          txnId e = RandomId)).
Proof.
  split; [|split; [apply transformTransactionsToEvents_length|split]].
  - induction txns as [|txn rest IH]; [reflexivity|].
    cbn [transformTransactionsToEvents List.filter].
    unfold knownType at 1, transformTransaction.
    destruct (txn_type txn) as [ty|]; [|exact IH].
    destruct (String.eqb_spec ty "") as [->|_]; [exact IH|].
    destruct (_mapEventType ty); [cbn [length]; rewrite IH; reflexivity|exact IH].
  - intros e He. apply transformTransactionsToEvents_In in He as (txn & Hin & Htx).
    apply transformTransaction_fields in Htx as (ty & Hty & Hmap & He).
    destruct (txnIdOf_cases txn) as (Hid & Htxid & Hrand).
    exists txn, ty. rewrite He. cbn [block txnIndex eventIndex txnId eventType].
    repeat split; assumption.
  - intros txn ty et Hin Hty Hmap.
    destruct (txnIdOf_cases txn) as (Hid & Htxid & Hrand).
    exists (mkEvent (transformTickToBlock now tickData) (txnIdOf txn)
                    (jsOrZ (txn_index txn) 0) (jsOrZ (txn_eventIndex txn) 0) et).
    cbn [block txnIndex eventIndex txnId eventType].
    repeat split; try assumption.
    apply transformTransactionsToEvents_In. exists txn. split; [exact Hin|].
    apply transformTransaction_fields. exists ty. repeat split; assumption.
Qed.

Lemma transformTransactionsToEvents_sound_complete_witness :
  In (mkRawTxn (Some "SWAP"%string) (Some ""%string) (Some "0xb7"%string) (Some 2) None)
     [mkRawTxn (Some "SWAP"%string) (Some ""%string) (Some "0xb7"%string) (Some 2) None;
      mkRawTxn (Some "TRANSFER"%string) (Some "0xc1"%string) None None None;
      swapTxn 1] /\
  transformTransactionsToEvents 5000
    [mkRawTxn (Some "SWAP"%string) (Some ""%string) (Some "0xb7"%string) (Some 2) None;
     mkRawTxn (Some "TRANSFER"%string) (Some "0xc1"%string) None None None;
     swapTxn 1]
    (normalizeTick 5000 (listedTick 1000))
  = [mkEvent (mkBlock 1000 1000) (GivenId "0xb7") 2 0 swap;
     mkEvent (mkBlock 1000 1000) RandomId 1 1 swap] /\
  exists e,
    In e (transformTransactionsToEvents 5000
            [mkRawTxn (Some "SWAP"%string) (Some ""%string) (Some "0xb7"%string) (Some 2) None;
             mkRawTxn (Some "TRANSFER"%string) (Some "0xc1"%string) None None None;
             swapTxn 1]
            (normalizeTick 5000 (listedTick 1000))) /\
    eventType e = swap /\ txnIndex e = 2.
Proof.
  assert (Hin : In (mkRawTxn (Some "SWAP"%string) (Some ""%string) (Some "0xb7"%string)
                             (Some 2) None)
                  [mkRawTxn (Some "SWAP"%string) (Some ""%string) (Some "0xb7"%string)
                            (Some 2) None;
                   mkRawTxn (Some "TRANSFER"%string) (Some "0xc1"%string) None None None;
                   swapTxn 1])
    by (left; reflexivity).
  split; [exact Hin|]. split; [vm_compute; reflexivity|].
  destruct (transformTransactionsToEvents_sound_complete 5000
              [mkRawTxn (Some "SWAP"%string) (Some ""%string) (Some "0xb7"%string)
                        (Some 2) None;
               mkRawTxn (Some "TRANSFER"%string) (Some "0xc1"%string) None None None;
               swapTxn 1]
              (normalizeTick 5000 (listedTick 1000))) as (_ & _ & _ & Hcomplete).
  destruct (Hcomplete _ "SWAP"%string swap Hin eq_refl eq_refl)
    as (e & He & _ & Het & Hidx & _).
  exists e. repeat split; assumption.
Defined.

(** X17: the events of an accepted request are, up to their order, the
    events of the transactions of the ticks the Range Collector returned,
    tick by tick: no other event is returned and none of these is left
    out; there are at most as many events as these ticks have
    transactions. *)
Theorem getEvents_events_of_ticks (w : World) (now a b : Z) (c : Cache) (evs : list Event) :
  validRange a b ->
  fst (getEvents w now a b c) = Json200 evs ->
  let ticksInRange := fst (getTicksInBlockRange w now a b None c) in
  let c1 := snd (getTicksInBlockRange w now a b None c) in
  Permutation evs
    (flat_map (fun t => transformTransactionsToEvents now
                          (transactionsSeen w c1 (tickNumber t)) t) ticksInRange) /\
  (length evs
   <= length (flat_map (fun t => transactionsSeen w c1 (tickNumber t)) ticksInRange))%nat.
Proof.
  intros Hv Hevs ticksInRange c1.
  rewrite (getEvents_accepted w now a b c Hv) in Hevs. injection Hevs as <-.
  unfold eventsBeforeSort. subst ticksInRange c1.
  destruct (getTicksInBlockRange w now a b None c) as [l c1]. simpl.
  rewrite collectEvents_spec. simpl.
  split; [apply Permutation_sym, jsSort_perm|].
  rewrite jsSort_length.
  induction l as [|t rest IH]; simpl; [lia|].
  rewrite !length_app.
  pose proof (transformTransactionsToEvents_length now
                (transactionsSeen w c1 (tickNumber t)) t).
  lia.
Qed.

Lemma getEvents_events_of_ticks_witness :
  validRange 1000 1005 /\
  exists evs,
    fst (getEvents threeTickWorld 5000 1000 1005 emptyCache) = Json200 evs /\
    length evs = 3%nat /\
    Permutation evs
      (flat_map (fun t => transformTransactionsToEvents 5000
                   (transactionsSeen threeTickWorld
                      (snd (getTicksInBlockRange threeTickWorld 5000 1000 1005 None emptyCache))
                      (tickNumber t)) t)
         (fst (getTicksInBlockRange threeTickWorld 5000 1000 1005 None emptyCache))).
Proof.
  assert (Hv : validRange 1000 1005) by (unfold validRange, MAX_BLOCK_RANGE; lia).
  split; [exact Hv|].
  pose proof (getEvents_accepted threeTickWorld 5000 1000 1005 emptyCache Hv) as Hevs.
  set (evs := jsSort byBlockThenIndex
                (eventsBeforeSort threeTickWorld 5000 1000 1005 emptyCache)) in *.
  exists evs. split; [exact Hevs|]. split.
  - vm_compute. reflexivity.
  - exact (proj1 (getEvents_events_of_ticks threeTickWorld 5000 1000 1005 emptyCache evs Hv Hevs)).
Defined.

(** * Resource lookups *)

(** ** The exchange *)

Lemma strOr_nonempty (s : option string) (d : string) : d <> ""%string -> strOr s d <> ""%string.
Proof.
  intros Hd. unfold strOr. destruct s as [x|]; [|exact Hd].
  destruct (String.eqb_spec x ""); [exact Hd|assumption].
Qed.

Lemma strOr_keep (x d : string) : x <> ""%string -> strOr (Some x) d = x.
Proof. intros Hx. unfold strOr. destruct (String.eqb_spec x ""); [contradiction|reflexivity]. Qed.

Lemma tryExchangeEndpoints_spec (request : string -> Resp (option RawExchange))
    (endpoints : list string) :
  match tryExchangeEndpoints request endpoints with
  | Some exchange =>
      exists before endpoint after exchangeData,
        endpoints = before ++ endpoint :: after /\
        Forall (noExchangeAt request) before /\
        request endpoint = Ok (Some exchangeData) /\
        ex_factoryAddress exchangeData = Some (factoryAddress exchange) /\
        factoryAddress exchange <> ""%string /\
        name exchange = strOr (ex_name exchangeData) "Qubic DEX" /\
        logoURL exchange = strOr (ex_logoURL exchangeData) "https://qubic.org/logo.png"
  | None => Forall (noExchangeAt request) endpoints
  end.
Proof.
  induction endpoints as [|endpoint rest IH]; simpl; [constructor|].
  assert (Hskip : noExchangeAt request endpoint ->
    match tryExchangeEndpoints request rest with
    | Some exchange =>
        exists before endpoint0 after exchangeData,
          endpoint :: rest = before ++ endpoint0 :: after /\
          Forall (noExchangeAt request) before /\
          request endpoint0 = Ok (Some exchangeData) /\
          ex_factoryAddress exchangeData = Some (factoryAddress exchange) /\
          factoryAddress exchange <> ""%string /\
          name exchange = strOr (ex_name exchangeData) "Qubic DEX" /\
          logoURL exchange = strOr (ex_logoURL exchangeData) "https://qubic.org/logo.png"
    | None => Forall (noExchangeAt request) (endpoint :: rest)
    end).
  { intros Hno. destruct (tryExchangeEndpoints request rest) as [exchange|].
    - destruct IH as (before & e0 & after & d & -> & Hall & Hreq & Hfa & Hne & Hname & Hlogo).
      exists (endpoint :: before), e0, after, d.
      repeat split; try assumption. constructor; assumption.
    - constructor; assumption. }
  destruct (request endpoint) as [[exchangeData|]|st] eqn:Hreq;
    try (apply Hskip; unfold noExchangeAt; rewrite Hreq; exact I).
  destruct (ex_factoryAddress exchangeData) as [fa|] eqn:Hfa;
    [|apply Hskip; unfold noExchangeAt; rewrite Hreq, Hfa; reflexivity].
  destruct (String.eqb_spec fa "") as [->|Hne];
    [apply Hskip; unfold noExchangeAt; rewrite Hreq, Hfa; reflexivity|].
  exists [], endpoint, rest, exchangeData. simpl.
  repeat split; try assumption; try reflexivity. constructor.
Qed.

(** X18: the /exchange handler answers 400 exactly when the [id] parameter
    is missing or empty; otherwise it asks the four exchange paths in
    order and answers 200 with the data of the first path whose answer has
    a non-empty factory address - that address unchanged, the name and
    the logo of the answer or their defaults, never empty - and 404 when
    no path has such an answer.  It never makes an exchange up. *)
Theorem getExchange_answers (request : string -> Resp (option RawExchange))
    (id : option string) :
  match getExchange request id with
  | Answer400 => id = None \/ id = Some ""%string
  | Answer404 =>
      exists i, id = Some i /\ i <> ""%string /\
                Forall (noExchangeAt request) (exchangeEndpoints i)
  | Answer200 exchange =>
      exists i before endpoint after exchangeData,
        id = Some i /\ i <> ""%string /\
        exchangeEndpoints i = before ++ endpoint :: after /\
        Forall (noExchangeAt request) before /\
        request endpoint = Ok (Some exchangeData) /\
        ex_factoryAddress exchangeData = Some (factoryAddress exchange) /\
        factoryAddress exchange <> ""%string /\
        name exchange = strOr (ex_name exchangeData) "Qubic DEX" /\
        logoURL exchange = strOr (ex_logoURL exchangeData) "https://qubic.org/logo.png" /\
        name exchange <> ""%string /\ logoURL exchange <> ""%string
  | Answer503 _ => False
  | Answer500 => False
  end.
Proof.
  unfold getExchange. destruct id as [i|]; [|left; reflexivity].
  destruct (String.eqb_spec i "") as [->|Hi]; [right; reflexivity|].
  unfold getExchangeById.
  pose proof (tryExchangeEndpoints_spec request (exchangeEndpoints i)) as Hspec.
  destruct (tryExchangeEndpoints request (exchangeEndpoints i)) as [exchange|].
  - destruct Hspec as (before & endpoint & after & d & Hsplit & Hall & Hreq & Hfa & Hne
                       & Hname & Hlogo).
    assert (Hn : name exchange <> ""%string)
      by (rewrite Hname; apply strOr_nonempty; discriminate).
    assert (Hl : logoURL exchange <> ""%string)
      by (rewrite Hlogo; apply strOr_nonempty; discriminate).
    exists i, before, endpoint, after, d. unfold transformExchangeToExchange.
    cbn [factoryAddress name logoURL].
    rewrite (strOr_keep _ _ Hn), (strOr_keep _ _ Hl).
    repeat split; assumption.
  - exists i. repeat split; assumption.
Qed.

(** ** The asset *)

Lemma substring_nonempty (n : nat) (s : string) : s <> ""%string -> substring 0 (S n) s <> ""%string.
Proof. destruct s as [|a rest]; [congruence|]. simpl. discriminate. Qed.

Lemma toUpperCase_nonempty (s : string) : s <> ""%string -> toUpperCase s <> ""%string.
Proof. destruct s as [|a rest]; [congruence|]. simpl. discriminate. Qed.

Lemma zOr_jsOrZ (a : option Z) : zOr (jsOrZ a 0) 0 = jsOrZ a 0.
Proof.
  unfold zOr, jsOrZ. destruct a as [z|]; [|reflexivity].
  destruct (z =? 0) eqn:Hz; [reflexivity|]. rewrite Hz. reflexivity.
Qed.

Lemma assetOfData_nonempty (i : string) (assetData : RawAsset) :
  i <> ""%string ->
  asset_name (assetOfData i assetData) <> ""%string /\
  asset_symbol (assetOfData i assetData) <> ""%string /\
  asset_totalSupply (assetOfData i assetData) <> ""%string /\
  asset_circulatingSupply (assetOfData i assetData) <> ""%string.
Proof.
  intros Hi. cbn [assetOfData asset_name asset_symbol asset_totalSupply asset_circulatingSupply].
  repeat split; apply strOr_nonempty; try discriminate.
  apply toUpperCase_nonempty, substring_nonempty, Hi.
Qed.

(** The handler's transformer finds nothing to fill in. *)
Lemma transformAssetToAsset_assetOfData (i : string) (assetData : RawAsset) :
  i <> ""%string -> transformAssetToAsset (assetOfData i assetData) = assetOfData i assetData.
Proof.
  intros Hi. destruct (assetOfData_nonempty i assetData Hi) as (Hn & Hs & Ht & Hc).
  unfold transformAssetToAsset.
  rewrite (strOr_keep _ _ Hn), (strOr_keep _ _ Hs), (strOr_keep _ _ Ht), (strOr_keep _ _ Hc).
  cbn [assetOfData asset_holdersCount]. rewrite zOr_jsOrZ. reflexivity.
Qed.

Lemma tryAssetEndpoints_app (request : string -> Resp (option RawAsset)) (a b : list string) :
  tryAssetEndpoints request (a ++ b) =
  match tryAssetEndpoints request a with
  | Some asset => Some asset
  | None => tryAssetEndpoints request b
  end.
Proof.
  induction a as [|endpoint rest IH]; [reflexivity|]. cbn [app tryAssetEndpoints].
  destruct (request endpoint) as [[assetData|]|]; try exact IH.
  destruct (as_id assetData) as [i|]; try exact IH.
  destruct (i =? "")%string; [exact IH|reflexivity].
Qed.

Lemma tryAssetEndpoints_spec (request : string -> Resp (option RawAsset))
    (endpoints : list string) :
  match tryAssetEndpoints request endpoints with
  | Some asset =>
      exists before endpoint after assetData upstreamId,
        endpoints = before ++ endpoint :: after /\
        Forall (noAssetAt request) before /\
        request endpoint = Ok (Some assetData) /\
        as_id assetData = Some upstreamId /\
        upstreamId <> ""%string /\
        asset = assetOfData upstreamId assetData
  | None => Forall (noAssetAt request) endpoints
  end.
Proof.
  induction endpoints as [|endpoint rest IH]; cbn [tryAssetEndpoints]; [constructor|].
  assert (Hskip : noAssetAt request endpoint ->
    match tryAssetEndpoints request rest with
    | Some asset =>
        exists before endpoint0 after assetData upstreamId,
          endpoint :: rest = before ++ endpoint0 :: after /\
          Forall (noAssetAt request) before /\
          request endpoint0 = Ok (Some assetData) /\
          as_id assetData = Some upstreamId /\
          upstreamId <> ""%string /\
          asset = assetOfData upstreamId assetData
    | None => Forall (noAssetAt request) (endpoint :: rest)
    end).
  { intros Hno. destruct (tryAssetEndpoints request rest) as [asset|].
    - destruct IH as (before & e & after & d & u & Heq & Hb & Hr & Hid & Hu & Ha).
      exists (endpoint :: before), e, after, d, u. rewrite Heq.
      repeat split; try assumption. constructor; assumption.
    - constructor; assumption. }
  unfold noAssetAt in Hskip at 1.
  destruct (request endpoint) as [[assetData|]|] eqn:Hreq; try (apply Hskip; exact I).
  destruct (as_id assetData) as [i|] eqn:Hid; [|apply Hskip; reflexivity].
  destruct (String.eqb_spec i "") as [Hi|Hi].
  - apply Hskip. subst i. reflexivity.
  - exists [], endpoint, rest, assetData, i. repeat split; try assumption. constructor.
Qed.

(** X19: the /asset handler answers 400 exactly when the id parameter is
    missing or empty, 404 exactly when none of the eight upstream paths (four
    asset paths, then four identity paths) answers with a record that has a
    non-empty id, and otherwise 200 with the record built from the first
    such answer.  That record carries the id of the upstream answer (which
    is not compared with the requested id), its name, symbol and supplies
    are never empty, and the handler's transformer returns it unchanged. *)
Theorem getAsset_answers (request : string -> Resp (option RawAsset)) (id : option string) :
  match getAsset request id with
  | Answer400 => id = None \/ id = Some ""%string
  | Answer404 =>
      exists i, id = Some i /\ i <> ""%string /\
        Forall (noAssetAt request) (assetEndpoints i ++ identityEndpoints i)
  | Answer200 asset =>
      exists i before endpoint after assetData upstreamId,
        id = Some i /\ i <> ""%string /\
        assetEndpoints i ++ identityEndpoints i = before ++ endpoint :: after /\
        Forall (noAssetAt request) before /\
        request endpoint = Ok (Some assetData) /\
        as_id assetData = Some upstreamId /\
        upstreamId <> ""%string /\
        asset = assetOfData upstreamId assetData /\
        asset_id asset = upstreamId /\
        asset_name asset <> ""%string /\
        asset_symbol asset <> ""%string /\
        asset_totalSupply asset <> ""%string /\
        asset_circulatingSupply asset <> ""%string
  | Answer503 _ => False
  | Answer500 => False
  end.
Proof.
  unfold getAsset. destruct id as [i|]; [|left; reflexivity].
  destruct (String.eqb_spec i "") as [Hi|Hi]; [right; subst; reflexivity|].
  assert (Hget : getAssetById request i =
                 tryAssetEndpoints request (assetEndpoints i ++ identityEndpoints i)).
  { unfold getAssetById. rewrite tryAssetEndpoints_app. reflexivity. }
  rewrite Hget.
  pose proof (tryAssetEndpoints_spec request (assetEndpoints i ++ identityEndpoints i)) as Hspec.
  destruct (tryAssetEndpoints request (assetEndpoints i ++ identityEndpoints i)) as [asset|].
  - destruct Hspec as (before & e & after & d & u & Heq & Hb & Hr & Hid & Hu & Ha).
    subst asset. rewrite (transformAssetToAsset_assetOfData u d Hu).
    destruct (assetOfData_nonempty u d Hu) as (Hn & Hs & Ht & Hc).
    exists i, before, e, after, d, u. repeat split; assumption.
  - exists i. repeat split; assumption.
Qed.

(** ** The health checks *)

Lemma jsOrVal_truthy (st : JsVal) : jsTruthy (jsOrVal st (JBool true)) = true.
Proof. unfold jsOrVal. destruct (jsTruthy st) eqn:H; [exact H|reflexivity]. Qed.

Lemma getHealthCheck_spec (request : string -> Resp (option JsVal)) :
  (answers request "/v1/healthcheck" /\
   jsTruthy (hc_status (getHealthCheck request)) = true /\
   hc_error (getHealthCheck request) = false) \/
  (~ answers request "/v1/healthcheck" /\
   hc_status (getHealthCheck request) = JBool false /\
   hc_error (getHealthCheck request) = true).
Proof.
  unfold getHealthCheck, answers.
  destruct (request "/v1/healthcheck"%string) as [[st|]|] eqn:Hreq.
  - left. split; [exists st; reflexivity|]. split; [apply jsOrVal_truthy|reflexivity].
  - right. split; [intros [b Hb]; discriminate|]. split; reflexivity.
  - right. split; [intros [b Hb]; discriminate|]. split; reflexivity.
Qed.

Lemma tryHealthEndpoints_spec (request : string -> Resp (option JsVal))
    (endpoints : list string) :
  match tryHealthEndpoints request endpoints with
  | Some h =>
      exists before endpoint after,
        endpoints = before ++ endpoint :: after /\
        Forall (fun e => ~ answers request e) before /\
        answers request endpoint /\
        hc_endpoint h = Some endpoint /\
        jsTruthy (hc_status h) = true
  | None => Forall (fun e => ~ answers request e) endpoints
  end.
Proof.
  induction endpoints as [|endpoint rest IH]; cbn [tryHealthEndpoints]; [constructor|].
  assert (Hskip : ~ answers request endpoint ->
    match tryHealthEndpoints request rest with
    | Some h =>
        exists before endpoint0 after,
          endpoint :: rest = before ++ endpoint0 :: after /\
          Forall (fun e => ~ answers request e) before /\
          answers request endpoint0 /\
          hc_endpoint h = Some endpoint0 /\
          jsTruthy (hc_status h) = true
    | None => Forall (fun e => ~ answers request e) (endpoint :: rest)
    end).
  { intros Hno. destruct (tryHealthEndpoints request rest) as [h|].
    - destruct IH as (before & e & after & Heq & Hb & Ha & He & Ht).
      exists (endpoint :: before), e, after. rewrite Heq.
      repeat split; try assumption. constructor; assumption.
    - constructor; assumption. }
  unfold answers in Hskip at 1.
  destruct (request endpoint) as [[st|]|] eqn:Hreq.
  - exists [], endpoint, rest. repeat split.
    + constructor.
    + exists st. exact Hreq.
    + apply jsOrVal_truthy.
  - apply Hskip. intros [b Hb]. discriminate.
  - apply Hskip. intros [b Hb]. discriminate.
Qed.

(** X20: /health/rpc answers 200 exactly when the upstream answers
    /v1/healthcheck with a body, whatever status that body reports (a
    reported status of false, 0 or the empty string is replaced by true),
    and 503 with status false and an error otherwise; it never answers
    500. *)
Theorem getMainRpcHealth_answers (request : string -> Resp (option JsVal)) :
  match getMainRpcHealth request with
  | Answer200 health =>
      exists st, request "/v1/healthcheck"%string = Ok (Some st) /\
        hc_status health = (if jsTruthy st then st else JBool true) /\
        hc_error health = false
  | Answer503 health =>
      ~ answers request "/v1/healthcheck" /\
      hc_status health = JBool false /\ hc_error health = true
  | _ => False
  end.
Proof.
  unfold getMainRpcHealth, getHealthCheck, answers.
  destruct (request "/v1/healthcheck"%string) as [[st|]|] eqn:Hreq.
  - cbn [hc_status]. rewrite jsOrVal_truthy. exists st. repeat split.
  - cbn. repeat split. intros [b Hb]. discriminate.
  - cbn. repeat split. intros [b Hb]. discriminate.
Qed.

(** X21: /health answers 200 exactly when /v1/healthcheck answers with a
    body and, moreover, one of the four API health paths answers with a body
    or the lookup of the asset QUBIC finds a record on one of its eight
    paths; otherwise it answers 503.  The statuses the bodies report play no
    part, and the handler never answers 500. *)
Theorem getHealth_answers (request : string -> Resp (option JsVal))
    (assetRequest : string -> Resp (option RawAsset)) :
  match getHealth request assetRequest with
  | Answer200 healthStatus =>
      answers request "/v1/healthcheck" /\
      (Exists (answers request) apiHealthEndpoints \/
       (Forall (fun e => ~ answers request e) apiHealthEndpoints /\
        Exists (fun e => ~ noAssetAt assetRequest e)
               (assetEndpoints "QUBIC" ++ identityEndpoints "QUBIC"))) /\
      jsTruthy (fst healthStatus) = true
  | Answer503 healthStatus =>
      (~ answers request "/v1/healthcheck" \/
       (Forall (fun e => ~ answers request e) apiHealthEndpoints /\
        Forall (noAssetAt assetRequest)
               (assetEndpoints "QUBIC" ++ identityEndpoints "QUBIC"))) /\
      jsTruthy (fst healthStatus) = false
  | _ => False
  end.
Proof.
  unfold getHealth.
  destruct (jsTruthy (fst (getFullHealthStatus request assetRequest))) eqn:Hst.
  - pose proof Hst as Hfull.
    unfold getFullHealthStatus in Hst. cbn [fst] in Hst. unfold jsAndVal in Hst.
    destruct (getHealthCheck_spec request) as [(Ha & Ht & _)|(Hna & Hs & _)].
    2:{ rewrite Hs in Hst. cbn in Hst. discriminate. }
    rewrite Ht in Hst. split; [exact Ha|]. split; [|exact Hfull].
    unfold getApiServicesHealth in Hst.
    pose proof (tryHealthEndpoints_spec request apiHealthEndpoints) as Hspec.
    destruct (tryHealthEndpoints request apiHealthEndpoints) as [h|].
    + left. destruct Hspec as (before & e & after & Heq & _ & Hans & _).
      rewrite Heq. apply Exists_app. right. constructor. exact Hans.
    + right. split; [exact Hspec|].
      assert (Hget : getAssetById assetRequest "QUBIC" =
        tryAssetEndpoints assetRequest (assetEndpoints "QUBIC" ++ identityEndpoints "QUBIC")).
      { unfold getAssetById. rewrite tryAssetEndpoints_app. reflexivity. }
      rewrite Hget in Hst.
      pose proof (tryAssetEndpoints_spec assetRequest
                    (assetEndpoints "QUBIC" ++ identityEndpoints "QUBIC")) as Hasset.
      destruct (tryAssetEndpoints assetRequest
                  (assetEndpoints "QUBIC" ++ identityEndpoints "QUBIC")) as [asset|];
        [|cbn in Hst; discriminate].
      destruct Hasset as (before & e & after & d & u & Heq & _ & Hr & Hid & Hu & _).
      rewrite Heq. apply Exists_app. right. constructor.
      unfold noAssetAt. rewrite Hr. unfold strTruthy. rewrite Hid.
      destruct (String.eqb_spec u ""); [contradiction|]. cbn. discriminate.
  - split; [|exact Hst].
    unfold getFullHealthStatus in Hst. cbn [fst] in Hst. unfold jsAndVal in Hst.
    destruct (getHealthCheck_spec request) as [(Ha & Ht & _)|(Hna & Hs & _)];
      [|left; exact Hna].
    rewrite Ht in Hst. right.
    unfold getApiServicesHealth in Hst.
    pose proof (tryHealthEndpoints_spec request apiHealthEndpoints) as Hspec.
    destruct (tryHealthEndpoints request apiHealthEndpoints) as [h|].
    + destruct Hspec as (before & e & after & _ & _ & _ & _ & Htr). congruence.
    + split; [exact Hspec|].
      assert (Hget : getAssetById assetRequest "QUBIC" =
        tryAssetEndpoints assetRequest (assetEndpoints "QUBIC" ++ identityEndpoints "QUBIC")).
      { unfold getAssetById. rewrite tryAssetEndpoints_app. reflexivity. }
      rewrite Hget in Hst.
      pose proof (tryAssetEndpoints_spec assetRequest
                    (assetEndpoints "QUBIC" ++ identityEndpoints "QUBIC")) as Hasset.
      destruct (tryAssetEndpoints assetRequest
                  (assetEndpoints "QUBIC" ++ identityEndpoints "QUBIC")) as [asset|];
        [cbn in Hst; discriminate|exact Hasset].
Qed.

(** * The rate limiter *)

Lemma filter_inWindow_later (c now : Z) (xs : list Z) :
  now <= c ->
  List.filter (inWindow c) (List.filter (inWindow now) xs) = List.filter (inWindow c) xs.
Proof.
  intros Hc. induction xs as [|x xs IH]; [reflexivity|]. cbn [List.filter].
  destruct (inWindow now x) eqn:Hn.
  - cbn [List.filter]. rewrite IH. reflexivity.
  - rewrite IH. destruct (inWindow c x) eqn:Hcx; [|reflexivity].
    unfold inWindow in Hn, Hcx. apply Z.ltb_lt in Hcx. apply Z.ltb_ge in Hn. lia.
Qed.

Lemma filter_length_imp {A : Type} (f g : A -> bool) (xs : list A) :
  (forall x, f x = true -> g x = true) ->
  (length (List.filter f xs) <= length (List.filter g xs))%nat.
Proof.
  intros Himp. induction xs as [|x xs IH]; [reflexivity|]. cbn [List.filter].
  destruct (f x) eqn:Hf.
  - rewrite (Himp x Hf). cbn [length]. lia.
  - destruct (g x); cbn [length]; lia.
Qed.

Lemma stampsOf_cons (ip : string) (r : string * Z) (log : list (string * Z)) :
  stampsOf ip (r :: log) =
  if (fst r =? ip)%string then snd r :: stampsOf ip log else stampsOf ip log.
Proof. unfold stampsOf. cbn [List.filter]. destruct (fst r =? ip)%string; reflexivity. Qed.

Lemma stampsOf_In (ip : string) (log : list (string * Z)) (s : Z) :
  In s (stampsOf ip log) -> In (ip, s) log.
Proof.
  unfold stampsOf. rewrite in_map_iff. intros [[i s'] [Hs Hin]]. cbn in Hs. subst s'.
  apply List.filter_In in Hin. destruct Hin as [Hin Hip]. cbn in Hip.
  apply String.eqb_eq in Hip. subst i. exact Hin.
Qed.

Lemma sorted_snoc (l : list (string * Z)) (r : string * Z) :
  StronglySorted Z.le (map snd (l ++ [r])) ->
  StronglySorted Z.le (map snd l) /\ Forall (fun q => snd q <= snd r) l.
Proof.
  induction l as [|a l IH]; cbn [app map]; intros Hs.
  - split; constructor.
  - apply StronglySorted_inv in Hs. destruct Hs as [Hs Hall].
    destruct (IH Hs) as [Hl Hr]. rewrite map_app in Hall.
    apply Forall_app in Hall. destruct Hall as [Hall Hlast].
    split.
    + constructor; assumption.
    + constructor; [|exact Hr]. inversion Hlast; assumption.
Qed.

Lemma serve_snoc (l : list (string * Z)) (r : string * Z) :
  serve (l ++ [r]) = serveStep (serve l) r.
Proof. unfold serve. rewrite fold_left_app. reflexivity. Qed.

(** What a run keeps true when the clock never goes back: the store agrees
    with the log on every window that ends at or after the last request,
    the log holds requests of the run only, and no window of the log holds
    more than [RATE_LIMIT] requests of one address. *)
Lemma serve_invariant (requests : list (string * Z)) :
  StronglySorted Z.le (map snd requests) ->
  (forall ip c, Forall (fun q => snd q <= c) requests ->
     length (List.filter (inWindow c) (stampsOf ip (snd (serve requests)))) =
     length (List.filter (inWindow c) (default [] (fst (serve requests) !! ip)))) /\
  (forall r, In r (snd (serve requests)) -> In r requests) /\
  (forall ip t,
     (length (List.filter (within t) (stampsOf ip (snd (serve requests)))) <= RATE_LIMIT)%nat).
Proof.
  induction requests as [|r l IH] using rev_ind; intros Hsorted.
  - unfold serve. cbn [fold_left fst snd]. split; [|split].
    + intros ip c _. unfold RequestCounts. rewrite lookup_empty. reflexivity.
    + intros r [].
    + intros ip t. cbn. unfold RATE_LIMIT. lia.
  - apply sorted_snoc in Hsorted. destruct Hsorted as [Hl Hle].
    destruct (IH Hl) as (I1 & I2 & I3). clear IH.
    rewrite serve_snoc. destruct (serve l) as [rc log]. destruct r as [ip0 now].
    cbn [fst snd] in *. unfold serveStep, rateLimiter. cbn [fst snd].
    unfold RequestCounts in *.
    pose proof (I1 ip0 now Hle) as Hnow.
    destruct (RATE_LIMIT <=? length (List.filter (inWindow now) (default [] (rc !! ip0))))%nat
      eqn:Hlim; cbn [fst snd].
    + (* refused *)
      split; [|split].
      * intros ip c Hc. apply Forall_app in Hc. destruct Hc as [Hcl Hcr].
        inversion Hcr as [|? ? Hnc _]; subst. cbn [snd] in Hnc.
        rewrite (I1 ip c Hcl).
        destruct (decide (ip0 = ip)) as [->|Hne].
        -- rewrite lookup_insert_eq. cbn [from_option id].
           rewrite filter_inWindow_later by exact Hnc. reflexivity.
        -- rewrite lookup_insert_ne by exact Hne. reflexivity.
      * intros r Hr. apply in_or_app. left. apply I2, Hr.
      * exact I3.
    + (* let through *)
      apply Nat.leb_gt in Hlim.
      split; [|split].
      * intros ip c Hc. apply Forall_app in Hc. destruct Hc as [Hcl Hcr].
        inversion Hcr as [|? ? Hnc _]; subst. cbn [snd] in Hnc.
        rewrite stampsOf_cons. cbn [fst snd].
        destruct (decide (ip0 = ip)) as [->|Hne].
        -- rewrite String.eqb_refl, lookup_insert_eq. cbn [from_option id].
           rewrite List.filter_app, filter_inWindow_later by exact Hnc.
           rewrite length_app, <- (I1 ip c Hcl). cbn [List.filter].
           destruct (inWindow c now); cbn [length]; lia.
        -- rewrite lookup_insert_ne by exact Hne.
           destruct (String.eqb_spec ip0 ip) as [Heq|_]; [contradiction|].
           apply I1, Hcl.
      * intros r [Hr|Hr]; apply in_or_app; [right; left; exact Hr|left; apply I2, Hr].
      * intros ip t. rewrite stampsOf_cons. cbn [fst snd].
        destruct (String.eqb_spec ip0 ip) as [->|_]; [|apply I3].
        cbn [List.filter]. destruct (within t now) eqn:Hw; [|apply I3].
        cbn [length].
        assert (Hsub : (length (List.filter (within t) (stampsOf ip log)) <=
                        length (List.filter (inWindow now) (stampsOf ip log)))%nat).
        { apply filter_length_imp. intros s Hs. unfold within, inWindow in *.
          apply andb_true_iff in Hw. destruct Hw as [_ Hw]. apply Z.leb_le in Hw.
          apply andb_true_iff in Hs. destruct Hs as [Hs _]. apply Z.ltb_lt in Hs.
          apply Z.ltb_lt. lia. }
        rewrite Hnow in Hsub. unfold RATE_LIMIT in *. lia.
Qed.

(** X22: when the clock never goes back, a process that starts with an
    empty store lets through at most RATE_LIMIT (100) requests of one
    address in any window of RATE_LIMIT_WINDOW (60 seconds): for every time
    t, at most 100 of the requests let through carry a time in
    (t - 60000, t]. *)
Theorem rateLimiter_window_bound (requests : list (string * Z)) (ip : string) (t : Z) :
  Sorted Z.le (map snd requests) ->
  (length (List.filter (within t) (stampsOf ip (snd (serve requests)))) <= RATE_LIMIT)%nat.
Proof.
  intros Hsorted. apply Sorted_StronglySorted in Hsorted; [|intros x y z; apply Z.le_trans].
  apply (serve_invariant requests Hsorted).
Qed.

Lemma rateLimiter_window_bound_witness :
  Sorted Z.le (map snd [("a"%string, 5%Z); ("b"%string, 6%Z); ("a"%string, 7%Z)]) /\
  (length (List.filter (within 7)
            (stampsOf "a"%string (snd (serve [("a"%string, 5%Z); ("b"%string, 6%Z); ("a"%string, 7%Z)])))) <= RATE_LIMIT)%nat.
Proof.
  assert (Hs : Sorted Z.le (map snd [("a"%string, 5%Z); ("b"%string, 6%Z); ("a"%string, 7%Z)])).
  { cbn. repeat (constructor; try lia). }
  split; [exact Hs|].
  exact (rateLimiter_window_bound [("a"%string, 5%Z); ("b"%string, 6%Z); ("a"%string, 7%Z)] "a"%string 7 Hs).
Defined.

(** X23: when the clock never goes back, the middleware refuses a request
    (answer 429) exactly when it has let through RATE_LIMIT (100) requests
    of the same address within the RATE_LIMIT_WINDOW (60 seconds) that end
    at the request; a refused request is not counted, and requests of other
    addresses never matter. *)
Theorem rateLimiter_refuses_at_limit (requests : list (string * Z)) (ip : string) (now : Z) :
  Sorted Z.le (map snd (requests ++ [(ip, now)])) ->
  (snd (rateLimiter (fst (serve requests)) ip now) = false <->
   length (List.filter (within now) (stampsOf ip (snd (serve requests)))) = RATE_LIMIT) /\
  (snd (rateLimiter (fst (serve requests)) ip now) = false ->
   snd (serve (requests ++ [(ip, now)])) = snd (serve requests)) /\
  (forall other, other <> ip ->
   fst (rateLimiter (fst (serve requests)) ip now) !! other = fst (serve requests) !! other).
Proof.
  intros Hsorted. apply Sorted_StronglySorted in Hsorted; [|intros x y z; apply Z.le_trans].
  apply sorted_snoc in Hsorted. destruct Hsorted as [Hl Hle]. cbn [snd] in Hle.
  destruct (serve_invariant requests Hl) as (I1 & I2 & I3).
  pose proof (I1 ip now Hle) as Hnow. pose proof (I3 ip now) as Hbound.
  assert (Hsame : List.filter (within now) (stampsOf ip (snd (serve requests))) =
                  List.filter (inWindow now) (stampsOf ip (snd (serve requests)))).
  { apply List.filter_ext_in. intros s Hs. unfold within.
    apply stampsOf_In, I2 in Hs. rewrite List.Forall_forall in Hle.
    apply Hle in Hs. cbn [snd] in Hs.
    replace (s <=? now) with true by (symmetry; apply Z.leb_le; exact Hs).
    apply andb_true_r. }
  rewrite Hsame in *. rewrite serve_snoc. unfold serveStep, rateLimiter. cbn [fst snd].
  rewrite <- Hnow.
  destruct (RATE_LIMIT <=? length (List.filter (inWindow now) (stampsOf ip (snd (serve requests)))))%nat
    eqn:Hlim; cbn [fst snd].
  - apply Nat.leb_le in Hlim. split; [|split].
    + split; [intros _; lia|reflexivity].
    + reflexivity.
    + intros other Hne. apply lookup_insert_ne. congruence.
  - apply Nat.leb_gt in Hlim. split; [|split].
    + split; [discriminate|intros Heq; lia].
    + discriminate.
    + intros other Hne. apply lookup_insert_ne. congruence.
Qed.

Lemma rateLimiter_refuses_at_limit_witness :
  Sorted Z.le (map snd (repeat ("a"%string, 0%Z) 100 ++ [("a"%string, 0%Z)])) /\
  snd (rateLimiter (fst (serve (repeat ("a"%string, 0%Z) 100))) "a" 0) = false.
Proof.
  assert (Hs : Sorted Z.le (map snd (repeat ("a"%string, 0%Z) 100 ++ [("a"%string, 0%Z)]))).
  { cbn. repeat (constructor; try lia). }
  split; [exact Hs|].
  apply (proj1 (rateLimiter_refuses_at_limit (repeat ("a"%string, 0%Z) 100) "a" 0 Hs)).
  vm_compute. reflexivity.
Defined.
